(** * rhythmbox: Sample, Mixer and Song

    A shallow embedding of [Sample] and [Mixer] from [rhythmbox.py], and of
    the parts of [Song] that read a parsed song file and mix it.

    - Python [int] is [Z]; Python [float] is IEEE-754 binary64, here the
      primitive [float] of the kernel (same format, round to nearest even).
      Where a statement is about how far a duration is from another, the
      floats are read as rational numbers ([F2Q]).
    - [bytes] is [list byte].  A list has no bound on its length: no
      allocation fails here, and there is no [MemoryError].
    - A method of [Sample] mutates [self] and may raise: it is a function
      from the object before the call to an [outcome] that holds the
      object after the call, also when the call raised.
    - [audioop] is CPython's C module, not part of the repository.  [add],
      [lin2lin] and [max] are modelled after its documented behaviour on a
      little-endian host; [ratecv], [tostereo] and [mul] are parameters.
    - The file system is outside the model: [wave.open] and [os.path.join]
      are parameters of the definitions that load a wave file, and a song
      file is taken as [ConfigParser] has parsed it, a map from section
      names to the items of the section. *)

From Stdlib Require Import ZArith List Lia Bool Floats QArith Qpower Lqa.
From Stdlib Require Uint63.
From Stdlib.Strings Require Import Byte Ascii String.
From stdpp Require Import base list strings gmap sorting.
Import ListNotations.

Open Scope Z_scope.

(** ** Exceptions and results *)

Inductive exn : Type :=
| AssertionError
| TypeError
| ValueError (msg : string)
| OverflowError
| ZeroDivisionError
| StopIteration
| IndexError
| KeyError (key : string)
| audioop_error (msg : string).

(** The result of an expression that may raise. *)
Inductive result (A : Type) : Type :=
| OK (a : A)
| Raise (e : exn).
Arguments OK {A} a.
Arguments Raise {A} e.

Definition rbind {A B} (r : result A) (k : A -> result B) : result B :=
  match r with
  | OK a => k a
  | Raise e => Raise e
  end.

Declare Scope py_scope.
Delimit Scope py_scope with py.
Notation "'let?' x := r 'in' k" := (rbind r (fun x => k))
  (at level 10, x name, r at level 100, k at level 200) : py_scope.
Open Scope py_scope.

Definition bytes := list byte.

(** [len(b)] *)
Definition len {A} (l : list A) : Z := Z.of_nat (length l).

(** [n] zero bytes: [b"\0" * n] for a count that is taken, empty when
    [n <= 0]. *)
Definition zeros (n : Z) : bytes := replicate (Z.to_nat n) x00.

(** [b[start:stop]] with Python's treatment of negative and out-of-range
    indices. *)
Definition slice_index {A} (l : list A) (i : Z) : Z :=
  if i <? 0 then Z.max (i + len l) 0 else Z.min i (len l).

Definition py_slice {A} (l : list A) (start stop : Z) : list A :=
  let lo := slice_index l start in
  let hi := slice_index l stop in
  take (Z.to_nat (hi - lo)) (drop (Z.to_nat lo) l).

(** [b[:stop]] and [b[start:]] *)
Definition slice_to {A} (l : list A) (stop : Z) : list A := py_slice l 0 stop.
Definition slice_from {A} (l : list A) (start : Z) : list A := py_slice l start (len l).

(** ** Floats *)

(** [float(n)] for an [int]: the nearest binary64 value; Python raises
    [OverflowError] where that would be an infinity. *)
Definition float_of_int (n : Z) : result float :=
  let f := SF2Prim (binary_normalize prec emax n 0 false) in
  if is_infinity f then Raise OverflowError else OK f.

(** [int(x)] for a [float]: truncation toward zero. *)
Definition int_of_float (x : float) : result Z :=
  match Prim2SF x with
  | S754_zero _ => OK 0
  | S754_finite s m e =>
      let a := Z.shiftl (Zpos m) e in OK (if s then - a else a)
  | S754_infinity _ => Raise OverflowError
  | S754_nan => Raise (ValueError "cannot convert float NaN to integer")
  end.

(** [x / y] on floats. *)
Definition float_div (x y : float) : result float :=
  if (y =? 0)%float then Raise ZeroDivisionError else OK (x / y)%float.

(** [x / n] and [n * x] for a float [x] and an int [n]: the int is
    converted first. *)
Definition float_div_int (x : float) (n : Z) : result float :=
  let? y := float_of_int n in float_div x y.

Definition int_mul_float (n : Z) (x : float) : result float :=
  let? y := float_of_int n in OK (y * x)%float.

(** [a / b] on ints (true division).  CPython rounds the exact quotient
    once; that is the quotient of the converted operands whenever both
    are below [2^53] in magnitude, as buffer lengths and sample rates
    are. *)
Definition int_truediv (a b : Z) : result float :=
  if b =? 0 then Raise ZeroDivisionError
  else let? x := float_of_int a in let? y := float_of_int b in OK (x / y)%float.

(** Truth value of an optional float argument ([None] and zero are false). *)
Definition truthy (o : option float) : bool :=
  match o with
  | None => false
  | Some x => negb (x =? 0)%float
  end.

(** ** audioop

    Samples are signed, little-endian, [width] bytes each. *)

Definition byte_val (b : byte) : Z := Z.of_N (Byte.to_N b).
Definition byte_of (z : Z) : byte := default x00 (Byte.of_N (Z.to_N (z mod 256))).

Fixpoint le_value (cp : bytes) : Z :=
  match cp with
  | [] => 0
  | b :: r => byte_val b + 256 * le_value r
  end.

Fixpoint le_bytes (w : nat) (v : Z) : bytes :=
  match w with
  | O => []
  | S w' => byte_of v :: le_bytes w' (v / 256)
  end.

Definition maxval (w : nat) : Z := 2 ^ (8 * Z.of_nat w - 1) - 1.
Definition minval (w : nat) : Z := - 2 ^ (8 * Z.of_nat w - 1).

(** [GETRAWSAMPLE]: the signed value of the first [w] bytes. *)
Definition getrawsample (w : nat) (cp : bytes) : Z :=
  let u := le_value (take w cp) in
  if u <=? maxval w then u else u - 2 ^ (8 * Z.of_nat w).

(** The [n] samples of a fragment, and [SETRAWSAMPLE] over a list of values. *)
Fixpoint samples (w n : nat) (cp : bytes) : list Z :=
  match n with
  | O => []
  | S n' => getrawsample w cp :: samples w n' (drop w cp)
  end.

Definition encode (w : nat) (vs : list Z) : bytes := concat (map (le_bytes w) vs).

Definition audioop_check_size (size : Z) : result unit :=
  if (1 <=? size) && (size <=? 4) then OK tt
  else Raise (audioop_error "Size should be 1, 2, 3 or 4").

Definition audioop_check_parameters (nbytes size : Z) : result unit :=
  let? _ := audioop_check_size size in
  if nbytes mod size =? 0 then OK tt
  else Raise (audioop_error "not a whole number of frames").

(** Saturation at the range of the width ([newval > maxval], [newval < minval];
    for width 4 the C code adds as doubles, which is exact on 32-bit values). *)
Definition bound (w : nat) (v : Z) : Z :=
  if maxval w <? v then maxval w else if v <? minval w then minval w else v.

Definition nsamples (cp : bytes) (width : Z) : nat := Z.to_nat (len cp / width).

(** [audioop.add(fragment1, fragment2, width)] *)
Definition audioop_add (fragment1 fragment2 : bytes) (width : Z) : result bytes :=
  let? _ := audioop_check_parameters (len fragment1) width in
  if len fragment1 =? len fragment2 then
    let w := Z.to_nat width in
    let n := nsamples fragment1 width in
    OK (encode w (zip_with (fun val1 val2 => bound w (val1 + val2))
                           (samples w n fragment1) (samples w n fragment2)))
  else Raise (audioop_error "Lengths should be the same").

(** [audioop.lin2lin(fragment, width, newwidth)]: every sample is widened to
    32 bits ([GETSAMPLE32]) and its top [newwidth] bytes are kept
    ([SETSAMPLE32]). *)
Definition audioop_lin2lin (fragment : bytes) (width newwidth : Z) : result bytes :=
  let? _ := audioop_check_parameters (len fragment) width in
  let? _ := audioop_check_size newwidth in
  let w := Z.to_nat width in
  OK (encode (Z.to_nat newwidth)
        (map (fun val => Z.shiftr (Z.shiftl val (8 * (4 - width))) (8 * (4 - newwidth)))
             (samples w (nsamples fragment width) fragment))).

(** [audioop.max(fragment, width)]: the largest absolute sample value. *)
Definition audioop_max (fragment : bytes) (width : Z) : result Z :=
  let? _ := audioop_check_parameters (len fragment) width in
  OK (foldr (fun val m => Z.max (Z.abs val) m) 0
            (samples (Z.to_nat width) (nsamples fragment width) fragment)).

(** ** Sample *)

Record Sample : Type := mkSample {
  frames : option bytes;   (* [self.__frames]; [None] only inside [mix_at] *)
  samplerate : Z;
  nchannels : Z;
  sampwidth : Z;
  locked : bool;
  filename : option string
}.

Definition norm_samplerate : Z := 44100.
Definition norm_nchannels : Z := 2.
Definition norm_sampwidth : Z := 2.

Definition set_frames (f : option bytes) (self : Sample) : Sample :=
  mkSample f (samplerate self) (nchannels self) (sampwidth self) (locked self) (filename self).
Definition set_samplerate (r : Z) (self : Sample) : Sample :=
  mkSample (frames self) r (nchannels self) (sampwidth self) (locked self) (filename self).
Definition set_nchannels (n : Z) (self : Sample) : Sample :=
  mkSample (frames self) (samplerate self) n (sampwidth self) (locked self) (filename self).
Definition set_sampwidth (w : Z) (self : Sample) : Sample :=
  mkSample (frames self) (samplerate self) (nchannels self) w (locked self) (filename self).
Definition set_locked (b : bool) (self : Sample) : Sample :=
  mkSample (frames self) (samplerate self) (nchannels self) (sampwidth self) b (filename self).

(** What a method call leaves: the value it returned or the exception it
    raised, and [self] as it is afterwards. *)
Inductive outcome (A : Type) : Type :=
| Returned (a : A) (self : Sample)
| Raised (e : exn) (self : Sample).
Arguments Returned {A} a self.
Arguments Raised {A} e self.

Definition method (A : Type) : Type := Sample -> outcome A.

Definition ret {A} (a : A) : method A := fun self => Returned a self.
Definition raise {A} (e : exn) : method A := fun self => Raised e self.
Definition bind {A B} (m : method A) (k : A -> method B) : method B :=
  fun self =>
    match m self with
    | Returned a self' => k a self'
    | Raised e self' => Raised e self'
    end.

Notation "x <- m ;; k" := (bind m (fun x => k))
  (at level 20, m at level 99, k at level 200) : py_scope.
Notation "' p <- m ;; k" := (bind m (fun x => match x with p => k end))
  (at level 20, p pattern, m at level 99, k at level 200) : py_scope.
Notation "m ;; k" := (bind m (fun _ => k))
  (at level 100, k at level 200, right associativity) : py_scope.

(** An expression evaluated in a method: it reads [self] and may raise. *)
Definition eval {A} (f : Sample -> result A) : method A :=
  fun self =>
    match f self with
    | OK a => Returned a self
    | Raise e => Raised e self
    end.
Definition read {A} (f : Sample -> A) : method A := fun self => Returned (f self) self.
Definition update (f : Sample -> Sample) : method unit := fun self => Returned tt (f self).

(** [assert b] *)
Definition assert_ (b : bool) : method unit :=
  if b then ret tt else raise AssertionError.
Definition assert_not_locked : method unit :=
  l <- read locked ;; assert_ (negb l).

(** A use of a value as [bytes] ([len], slicing, [+], an [audioop] argument)
    raises [TypeError] on [None]. *)
Definition as_bytes (o : option bytes) : result bytes :=
  match o with
  | Some f => OK f
  | None => Raise TypeError
  end.
Definition self_frames : method bytes := eval (fun self => as_bytes (frames self)).

(** [Sample.duration] *)
Definition duration (self : Sample) : result float :=
  let? f := as_bytes (frames self) in
  let? a := int_truediv (len f) (samplerate self) in
  let? b := float_div_int a (sampwidth self) in
  float_div_int b (nchannels self).

(** [Sample.frame_idx] *)
Definition frame_idx (self : Sample) (seconds : float) : result Z :=
  let? x := int_mul_float (samplerate self) seconds in
  let? k := int_of_float x in
  OK (nchannels self * sampwidth self * k).

(** [Sample.dup] and [Sample.lock] *)
Definition dup (self : Sample) : Sample :=
  mkSample (frames self) (samplerate self) (nchannels self) (sampwidth self) false (filename self).

Definition lock : method unit := update (set_locked true).

(** [Sample.cut] *)
Definition cut (start_seconds end_seconds : float) : method unit :=
  assert_not_locked ;;
  assert_ (start_seconds <? end_seconds)%float ;;
  start <- eval (fun self => frame_idx self start_seconds) ;;
  end_ <- eval (fun self => frame_idx self end_seconds) ;;
  f <- self_frames ;;
  if end_ =? len f then ret tt
  else update (set_frames (Some (py_slice f start end_))).

(** [b"\0" * n] for a count [n] that may be negative.  CPython converts the
    count to a [Py_ssize_t], of 64 bits here, and raises [OverflowError]
    when it does not fit; a count that fits and is not positive gives the
    empty bytes.  A count below [-2^63] therefore raises, although no byte
    is asked for.  A positive count asks for a buffer: buffers are lists
    here, with no bound on their length, and whether the machine can hold
    one (it cannot above [2^63 - 1] bytes, and raises there too) is
    outside this model. *)
Definition repeat_zero (n : Z) : result bytes :=
  if n <? - 2 ^ 63 then Raise OverflowError else OK (zeros n).

(** [Sample.append]: [self.__frames += b"\0"*required_extra] loads the
    frames, evaluates the right-hand side, and then adds. *)
Definition append (seconds : float) : method unit :=
  assert_not_locked ;;
  required_extra <- eval (fun self => frame_idx self seconds) ;;
  extra <- eval (fun _ => repeat_zero required_extra) ;;
  f <- self_frames ;;
  update (set_frames (Some (f ++ extra))).

(** [Sample.__init__] without a wave file: [Sample(frames, duration=d)]. *)
Definition Sample_init (frames_ : bytes) (duration_ : float) : result Sample :=
  let self := mkSample (Some frames_) norm_samplerate norm_nchannels norm_sampwidth false None in
  if (0 <? duration_)%float then
    if 0 <? len frames_ then
      Raise (ValueError "cannot specify a duration if frames are provided")
    else
      match append duration_ self with
      | Returned _ self' => OK self'
      | Raised e _ => Raise e
      end
  else OK self.

(** [Sample()] *)
Definition Sample_new : Sample :=
  mkSample (Some []) norm_samplerate norm_nchannels norm_sampwidth false None.

(** The frames of [other] that [mix] and [mix_at] use:
    [other.__frames[:other.frame_idx(other_seconds)]] or [other.__frames]. *)
Definition frames_of_other (other : Sample) (other_seconds : option float) : result (option bytes) :=
  match other_seconds with
  | Some secs =>
      if truthy other_seconds then
        let? stop := frame_idx other secs in
        let? f := as_bytes (frames other) in
        OK (Some (slice_to f stop))
      else OK (frames other)
  | None => OK (frames other)
  end.

Definition same_format (self other : Sample) : method unit :=
  assert_ (sampwidth self =? sampwidth other) ;;
  assert_ (samplerate self =? samplerate other) ;;
  assert_ (nchannels self =? nchannels other).

(** [Sample.mix] *)
Definition mix (other : Sample) (other_seconds : option float) (pad_shortest : bool) : method unit :=
  assert_not_locked ;;
  self <- read id ;;
  same_format self other ;;
  frames2 <- eval (fun _ => frames_of_other other other_seconds) ;;
  frames1 <- self_frames ;;
  frames2 <- eval (fun _ => as_bytes frames2) ;;
  let '(frames1, frames2) :=
    if pad_shortest then
      if len frames1 <? len frames2 then
        (frames1 ++ zeros (len frames2 - len frames1), frames2)
      else if len frames2 <? len frames1 then
        (frames1, frames2 ++ zeros (len frames1 - len frames2))
      else (frames1, frames2)
    else (frames1, frames2) in
  mixed <- eval (fun _ => audioop_add frames1 frames2 (sampwidth self)) ;;
  update (set_frames (Some mixed)).

(** [Sample._mix_grow_if_needed] *)
Definition _mix_grow_if_needed (start_frame_idx other_length : Z) : method unit :=
  let required_length := start_frame_idx + other_length in
  f <- self_frames ;;
  if len f <? required_length then
    update (set_frames (Some (f ++ zeros (required_length - len f))))
  else ret tt.

(** [Sample._mix_split_frames] *)
Definition _mix_split_frames (other_frames_length start_frame_idx : Z)
  : method (bytes * bytes * bytes) :=
  _mix_grow_if_needed start_frame_idx other_frames_length ;;
  f <- self_frames ;;
  let pre := slice_to f start_frame_idx in
  let to_mix := py_slice f start_frame_idx (start_frame_idx + other_frames_length) in
  let post := slice_from f (start_frame_idx + other_frames_length) in
  ret (pre, to_mix, post).

(** [Sample._mix_join_frames] *)
Definition _mix_join_frames (pre mid post : bytes) : bytes :=
  match post with
  | _ :: _ => pre ++ mid ++ post
  | [] =>
      match mid with
      | _ :: _ => pre ++ mid
      | [] => pre
      end
  end.

(** [Sample.mix_at] *)
Definition mix_at (seconds : float) (other : Sample) (other_seconds : option float) : method unit :=
  assert_not_locked ;;
  self <- read id ;;
  same_format self other ;;
  start_frame_idx <- eval (fun self => frame_idx self seconds) ;;
  other_frames <- eval (fun _ => frames_of_other other other_seconds) ;;
  other_frames <- eval (fun _ => as_bytes other_frames) ;;
  '(pre, to_mix, post) <- _mix_split_frames (len other_frames) start_frame_idx ;;
  update (set_frames None) ;;
  mixed <- eval (fun self => audioop_add to_mix other_frames (sampwidth self)) ;;
  update (set_frames (Some (_mix_join_frames pre mixed post))).

(** The operations that go through [audioop.ratecv], [audioop.tostereo] and
    [audioop.mul].  These three are taken as they come: any functions from
    their arguments to bytes or an exception. *)
Section Conversions.

Variable audioop_ratecv : bytes -> Z -> Z -> Z -> Z -> result bytes.
Variable audioop_tostereo : bytes -> Z -> float -> float -> result bytes.
Variable audioop_mul : bytes -> Z -> float -> result bytes.

(** [Sample.normalize] *)
Definition normalize : method unit :=
  assert_not_locked ;;
  self <- read id ;;
  (if negb (samplerate self =? norm_samplerate) then
     f <- self_frames ;;
     f' <- eval (fun _ => audioop_ratecv f (sampwidth self) (nchannels self)
                                            (samplerate self) norm_samplerate) ;;
     update (set_frames (Some f')) ;;
     update (set_samplerate norm_samplerate)
   else ret tt) ;;
  self <- read id ;;
  (if negb (sampwidth self =? norm_sampwidth) then
     f <- self_frames ;;
     f' <- eval (fun _ => audioop_lin2lin f (sampwidth self) norm_sampwidth) ;;
     update (set_frames (Some f')) ;;
     update (set_sampwidth norm_sampwidth)
   else ret tt) ;;
  self <- read id ;;
  (if nchannels self =? 1 then
     f <- self_frames ;;
     f' <- eval (fun _ => audioop_tostereo f (sampwidth self) 1%float 1%float) ;;
     update (set_frames (Some f')) ;;
     update (set_nchannels 2)
   else ret tt).

(** [Sample.get_32bit_frames] *)
Definition get_32bit_frames (scale_amplitude : bool) (self : Sample) : result (option bytes) :=
  if sampwidth self =? 4 then OK (frames self)
  else
    let? f := as_bytes (frames self) in
    let? f' := audioop_lin2lin f (sampwidth self) 4 in
    if negb scale_amplitude then
      let? factor := float_div_int 1%float (2 ^ (8 * Z.abs (sampwidth self - 4))) in
      let? f'' := audioop_mul f' 4 factor in
      OK (Some f'')
    else OK (Some f').

(** [Sample.make_32bit] *)
Definition make_32bit (scale_amplitude : bool) : method unit :=
  assert_not_locked ;;
  f <- eval (get_32bit_frames scale_amplitude) ;;
  update (set_frames f) ;;
  update (set_sampwidth 4).

(** [Sample.amplify_max] *)
Definition amplify_max : method unit :=
  assert_not_locked ;;
  self <- read id ;;
  f <- self_frames ;;
  max_amp <- eval (fun _ => audioop_max f (sampwidth self)) ;;
  let max_target := 2 ^ (8 * sampwidth self - 1) - 2 in
  if 0 <? max_amp then
    factor <- eval (fun _ => int_truediv max_target max_amp) ;;
    f' <- eval (fun _ => audioop_mul f (sampwidth self) factor) ;;
    update (set_frames (Some f'))
  else ret tt.

(** [Sample.make_16bit] *)
Definition make_16bit (maximize_amplitude : bool) : method unit :=
  assert_not_locked ;;
  self <- read id ;;
  assert_ (2 <=? sampwidth self) ;;
  (if maximize_amplitude then amplify_max else ret tt) ;;
  self <- read id ;;
  if 2 <? sampwidth self then
    f <- self_frames ;;
    f' <- eval (fun _ => audioop_lin2lin f (sampwidth self) 2) ;;
    update (set_frames (Some f')) ;;
    update (set_sampwidth 2)
  else ret tt.

(** [Sample.amplify] *)
Definition amplify (factor : float) : method unit :=
  assert_not_locked ;;
  self <- read id ;;
  f <- self_frames ;;
  f' <- eval (fun _ => audioop_mul f (sampwidth self) factor) ;;
  update (set_frames (Some f')).

End Conversions.

(** ** Mixer *)

(** A pattern is a dict from instrument name to bars; its items are kept in
    the order the dict iterates them. *)
Definition pattern : Type := list (string * string).

(** A [Sample] object held in the instrument table: the name-to-object dict
    may hold one object under several names, and [mixed_samples] compares
    objects with [is]. *)
Record object : Type := mkObject {
  ident : positive;
  value : Sample
}.

Record Mixer : Type := mkMixer {
  patterns : list pattern;
  bpm : Z;
  ticks : Z;
  instruments : gmap string object
}.

(** [len(bars)] *)
Definition slen (bars : string) : Z := Z.of_nat (String.length bars).

(** The loop over [p.items()] of [Mixer.__init__]. *)
Fixpoint check_bars (instruments_ : gmap string object) (ticks_ : Z)
    (bar_length : Z) (items : pattern) : result unit :=
  match items with
  | [] => OK tt
  | (instrument, bars) :: rest =>
      match instruments_ !! instrument with
      | None => Raise (ValueError ("instrument '" +:+ instrument +:+ "' not defined"))
      | Some _ =>
          if ticks_ =? 0 then Raise ZeroDivisionError
          else if negb (slen bars mod ticks_ =? 0) then
            Raise (ValueError "bar length must be multiple of the number of ticks")
          else if (0 <? bar_length) && negb (bar_length =? slen bars) then
            Raise (ValueError "all bars must be of equal length in the same pattern")
          else check_bars instruments_ ticks_ (slen bars) rest
      end
  end.

Fixpoint check_patterns (instruments_ : gmap string object) (ticks_ : Z)
    (ps : list pattern) : result unit :=
  match ps with
  | [] => OK tt
  | p :: rest =>
      let? _ := check_bars instruments_ ticks_ 0 p in
      check_patterns instruments_ ticks_ rest
  end.

(** [Mixer.__init__] *)
Definition Mixer_init (patterns_ : list pattern) (bpm_ ticks_ : Z)
    (instruments_ : gmap string object) : result Mixer :=
  let? _ := check_patterns instruments_ ticks_ patterns_ in
  OK (mkMixer patterns_ bpm_ ticks_ instruments_).

(** A generator run to its end: what it yielded, and the exception that
    ended it if one did.  The consumer sees the items first. *)
Definition generated (A : Type) : Type := list A * option exn.

Definition trigger : Type := string * object.

(** [bars[i] not in ". "] *)
Definition is_rest (ch : ascii) : bool := Ascii.eqb ch "."%char || Ascii.eqb ch " "%char.

(** The triggers of tick [i]: the loop over the items of a pattern. *)
Fixpoint tick_triggers (instruments_ : gmap string object) (i : nat)
    (items : pattern) : result (list trigger) :=
  match items with
  | [] => OK []
  | (instrument, bars) :: rest =>
      match String.get i bars with
      | None => Raise IndexError
      | Some ch =>
          if is_rest ch then tick_triggers instruments_ i rest
          else
            match instruments_ !! instrument with
            | None => Raise (KeyError instrument)
            | Some sample =>
                let? more := tick_triggers instruments_ i rest in
                OK ((instrument, sample) :: more)
            end
      end
  end.

Definition float_mul_int (x : float) (n : Z) : result float :=
  let? y := float_of_int n in OK (x * y)%float.

(** The loop [for i in range(num_triggers)] from global tick [index] on:
    the items yielded, and the index after the loop or the exception. *)
Fixpoint ticks_loop (instruments_ : gmap string object) (time_per_index : float)
    (items : pattern) (range : list nat) (index : Z)
  : list (Z * float * list trigger) * result Z :=
  match range with
  | [] => ([], OK index)
  | i :: range' =>
      match tick_triggers instruments_ i items with
      | Raise e => ([], Raise e)
      | OK [] => ticks_loop instruments_ time_per_index items range' (index + 1)
      | OK triggers =>
          match float_mul_int time_per_index index with
          | Raise e => ([], Raise e)
          | OK timestamp =>
              let '(more, r) :=
                ticks_loop instruments_ time_per_index items range' (index + 1) in
              ((index, timestamp, triggers) :: more, r)
          end
      end
  end.

Fixpoint patterns_loop (instruments_ : gmap string object) (time_per_index : float)
    (ps : list pattern) (index : Z) : generated (Z * float * list trigger) :=
  match ps with
  | [] => ([], None)
  | p :: ps' =>
      match p with
      | [] => ([], Some IndexError)
      | (_, bars0) :: _ =>
          let '(ys, r) :=
            ticks_loop instruments_ time_per_index p (seq 0 (String.length bars0)) index in
          match r with
          | Raise e => (ys, Some e)
          | OK index' =>
              let '(zs, r') := patterns_loop instruments_ time_per_index ps' index' in
              (ys ++ zs, r')
          end
      end
  end.

(** [60.0 / self.bpm / self.ticks] *)
Definition time_per_index (m : Mixer) : result float :=
  let? a := float_div_int 60%float (bpm m) in float_div_int a (ticks m).

(** [Mixer.mixed_triggers] *)
Definition mixed_triggers (m : Mixer) : generated (Z * float * list trigger) :=
  match time_per_index m with
  | Raise e => ([], Some e)
  | OK tpi => patterns_loop (instruments m) tpi (patterns m) 0
  end.

(** [sorted(...)] on names *)
Fixpoint insert_name (x : string) (l : list string) : list string :=
  match l with
  | [] => [x]
  | y :: l' => if String.leb x y then x :: l else y :: insert_name x l'
  end.
Definition sorted (l : list string) : list string := foldr insert_name [] l.

(** [max(samples, key=lambda s: s.duration)]: the first of the largest. *)
Fixpoint max_duration (best : object) (best_key : float) (rest : list trigger)
  : result object :=
  match rest with
  | [] => OK best
  | (_, s) :: rest' =>
      let? k := duration (value s) in
      if (best_key <? k)%float then max_duration s k rest'
      else max_duration best best_key rest'
  end.

Definition longest (triggers : list trigger) : result object :=
  match triggers with
  | [] => Raise (ValueError "max() arg is an empty sequence")
  | (_, s) :: rest => let? k := duration (value s) in max_duration s k rest
  end.

(** The loop that mixes the other triggered samples into the copy. *)
Fixpoint mix_others (longest_sample : object) (triggers : list trigger) : method unit :=
  match triggers with
  | [] => ret tt
  | (_, sample) :: rest =>
      (if Pos.eqb (ident sample) (ident longest_sample) then ret tt
       else mix (value sample) None true) ;;
      mix_others longest_sample rest
  end.

(** The body of the loop of [mixed_samples] for a tick with more than one
    trigger and no cache entry: the mixed, locked sample. *)
Definition mix_triggers (triggers : list trigger) : result Sample :=
  let? longest_sample := longest triggers in
  match (mix_others longest_sample triggers ;; lock) (dup (value longest_sample)) with
  | Returned _ mixed => OK mixed
  | Raised e _ => Raise e
  end.

Fixpoint samples_loop (mix_cache : gmap (list string) Sample)
    (items : list (Z * float * list trigger)) : generated (Z * float * Sample) :=
  match items with
  | [] => ([], None)
  | (index, timestamp, triggers) :: items' =>
      match triggers with
      | _ :: _ :: _ =>
          let instruments_key := sorted (map fst triggers) in
          match mix_cache !! instruments_key with
          | Some mixed =>
              let '(more, r) := samples_loop mix_cache items' in
              ((index, timestamp, mixed) :: more, r)
          | None =>
              match mix_triggers triggers with
              | Raise e => ([], Some e)
              | OK mixed =>
                  let '(more, r) :=
                    samples_loop (<[instruments_key := mixed]> mix_cache) items' in
                  ((index, timestamp, mixed) :: more, r)
              end
          end
      | [(_, sample)] =>
          let '(more, r) := samples_loop mix_cache items' in
          ((index, timestamp, value sample) :: more, r)
      | [] => ([], Some IndexError)
      end
  end.

(** [Mixer.mixed_samples] *)
Definition mixed_samples (m : Mixer) : generated (Z * float * Sample) :=
  let '(items, r) := mixed_triggers m in
  let '(ys, r') := samples_loop ∅ items in
  (ys, match r' with Some e => Some e | None => r end).

(** [total_seconds] of [Mixer.mix] *)
Fixpoint total_seconds (bpm_ ticks_ : Z) (ps : list pattern) (total : float) : result float :=
  match ps with
  | [] => OK total
  | p :: ps' =>
      match p with
      | [] => Raise StopIteration
      | (_, bar) :: _ =>
          let? a := int_mul_float (slen bar) 60%float in
          let? b := float_div_int a bpm_ in
          let? c := float_div_int b ticks_ in
          total_seconds bpm_ ticks_ ps' (total + c)%float
      end
  end.

(** The loop of [Mixer.mix] over the items [mixed_samples] yields. *)
Fixpoint place (verbose : bool) (total : float) (items : list (Z * float * Sample))
  : method unit :=
  match items with
  | [] => ret tt
  | (_, timestamp, sample) :: items' =>
      (if verbose then
         _ <- eval (fun _ => float_div timestamp total) ;; ret tt
       else ret tt) ;;
      mix_at timestamp sample None ;;
      place verbose total items'
  end.

Section Mix.

Variable audioop_mul : bytes -> Z -> float -> result bytes.

(** The part of [Mixer.mix] that ends with the loop: the samples are
    mixed into an empty 32 bit sample. *)
Definition mix_all (m : Mixer) (verbose : bool) (total : float) : method unit :=
  make_32bit audioop_mul true ;;
  let '(items, r) := mixed_samples m in
  place verbose total items ;;
  match r with
  | Some e => raise e
  | None => ret tt
  end.

(** The end of [Mixer.mix]: chop or extend to the total duration. *)
Definition chop_or_extend (total : float) : method unit :=
  d <- eval duration ;;
  let missing := (total - d)%float in
  if (0 <? missing)%float then append missing
  else if (missing <? 0)%float then cut 0%float total
  else ret tt.

(** [Mixer.mix] *)
Definition Mixer_mix (m : Mixer) (verbose : bool) : result Sample :=
  match patterns m with
  | [] => OK Sample_new
  | _ :: _ =>
      let? total := total_seconds (bpm m) (ticks m) (patterns m) 0%float in
      match (mix_all m verbose total ;; chop_or_extend total) Sample_new with
      | Returned _ mixed => OK mixed
      | Raised e _ => Raise e
      end
  end.

End Mix.

(** ** Song *)

(** The fields of a [Song].  [bpm] and [ticks] are ints (the defaults, or
    what [getint] read); a path is [None] or a string. *)
Record Song : Type := mkSong {
  song_instruments : gmap string object;
  sample_path : option string;
  output_path : option string;
  song_bpm : Z;
  song_ticks : Z;
  pattern_sequence : list string;
  song_patterns : gmap string pattern
}.

(** [Song()] *)
Definition Song_new : Song := mkSong ∅ None None 128 4 [] ∅.

Definition set_pattern_sequence (names : list string) (self : Song) : Song :=
  mkSong (song_instruments self) (sample_path self) (output_path self) (song_bpm self)
         (song_ticks self) names (song_patterns self).
Definition set_song_patterns (ps : gmap string pattern) (self : Song) : Song :=
  mkSong (song_instruments self) (sample_path self) (output_path self) (song_bpm self)
         (song_ticks self) (pattern_sequence self) ps.

(** [d[k] = v] on a dict kept as its items: a key that is there keeps its
    place. *)
Fixpoint dict_set (k v : string) (d : pattern) : pattern :=
  match d with
  | [] => [(k, v)]
  | (k', v') :: d' =>
      if String.eqb k' k then (k, v) :: d' else (k', v') :: dict_set k v d'
  end.

(** [bars.replace(' ', '')] *)
Fixpoint remove_spaces (s : string) : string :=
  match s with
  | EmptyString => EmptyString
  | String c s' =>
      if Ascii.eqb c " "%char then remove_spaces s' else String c (remove_spaces s')
  end.

(** The loop of [Song.read_patterns] over the items of one section; [pat]
    is [self.patterns[name]], which the loop fills, also when it raises. *)
Fixpoint read_bars (instruments_ : gmap string object) (ticks_ : Z) (name : string)
    (bar_length : Z) (items : list (string * string)) (pat : pattern)
  : result unit * pattern :=
  match items with
  | [] => (OK tt, pat)
  | (instrument, bars) :: items' =>
      match instruments_ !! instrument with
      | None =>
          (Raise (ValueError ("instrument '" +:+ instrument +:+ "' not defined (pattern: "
                              +:+ name +:+ ")")), pat)
      | Some _ =>
          let bars := remove_spaces bars in
          if ticks_ =? 0 then (Raise ZeroDivisionError, pat)
          else if negb (slen bars mod ticks_ =? 0) then
            (Raise (ValueError ("all patterns must be multiple of song ticks (pattern: "
                                +:+ name +:+ "." +:+ instrument +:+ ")")), pat)
          else
            let pat := dict_set instrument bars pat in
            if (0 <? bar_length) && negb (bar_length =? slen bars) then
              (Raise (ValueError ("all bars must be of equal length in the same pattern (pattern: "
                                  +:+ name +:+ "." +:+ instrument +:+ ")")), pat)
            else read_bars instruments_ ticks_ name (slen bars) items' pat
      end
  end.

(** The loop of [Song.read_patterns] over the names.  [songdef] is the
    parsed song file as the method uses it: from the name of a section to
    the items of the section. *)
Fixpoint read_names (songdef : gmap string (list (string * string))) (names : list string)
    (self : Song) : result unit * Song :=
  match names with
  | [] => (OK tt, self)
  | name :: names' =>
      match songdef !! ("pattern." +:+ name) with
      | None => (Raise (ValueError ("pattern definition not found: " +:+ name)), self)
      | Some section =>
          let '(r, pat) :=
            read_bars (song_instruments self) (song_ticks self) name 0 section [] in
          let self := set_song_patterns (<[name := pat]> (song_patterns self)) self in
          match r with
          | Raise e => (Raise e, self)
          | OK _ =>
              read_names songdef names'
                (set_pattern_sequence (pattern_sequence self ++ [name]) self)
          end
      end
  end.

(** [Song.read_patterns] *)
Definition read_patterns (songdef : gmap string (list (string * string)))
    (names : list string) (self : Song) : result unit * Song :=
  read_names songdef names (set_song_patterns ∅ (set_pattern_sequence [] self)).

(** [[self.patterns[name] for name in self.pattern_sequence]] *)
Fixpoint sequence_patterns (patterns_ : gmap string pattern) (names : list string)
  : result (list pattern) :=
  match names with
  | [] => OK []
  | name :: names' =>
      match patterns_ !! name with
      | None => Raise (KeyError name)
      | Some p => let? ps := sequence_patterns patterns_ names' in OK (p :: ps)
      end
  end.

(** [not self.output_path] *)
Definition no_path (path : option string) : bool :=
  match path with
  | None => true
  | Some s => String.eqb s ""
  end.

Section SongMix.

Variable audioop_mul : bytes -> Z -> float -> result bytes.

(** [Song.mix]: the sample that is written to the output file and
    returned.  Writing the file is not part of the model. *)
Definition Song_mix (self : Song) : result Sample :=
  if no_path (output_path self) || bool_decide (pattern_sequence self = []) then
    Raise (ValueError "There's nothing to be mixed; no song loaded or song has no patterns.")
  else
    let? patterns_ := sequence_patterns (song_patterns self) (pattern_sequence self) in
    let? mixer := Mixer_init patterns_ (song_bpm self) (song_ticks self) (song_instruments self) in
    let? result_ := Mixer_mix audioop_mul mixer true in
    match make_16bit audioop_mul true result_ with
    | Raised e _ => Raise e
    | Returned _ result_ => let? _ := duration result_ in OK result_
    end.

End SongMix.

(** ** Wave files *)

(** What the [wave] module gives for an open file. *)
Record wave_read : Type := mkWave {
  getnchannels : Z;
  getsampwidth : Z;
  getframerate : Z;
  getnframes : Z;
  readframes : Z -> bytes
}.

(** The exceptions of reading a file: [IOError], what [wave.open] raised,
    or one of [exn]. *)
Inductive io_exn : Type :=
| IOError (msg : string)
| wave_open_error (msg : string)
| Exn (e : exn).

(** [Sample.load_wav]; [opened] is what [wave.open(file)] gave. *)
Definition load_wav (opened : wave_read + io_exn) (self : Sample) : (unit + io_exn) * Sample :=
  if locked self then (inr (Exn AssertionError), self)
  else
    match opened with
    | inr e => (inr e, self)
    | inl w =>
        if negb ((2 <=? getsampwidth w) && (getsampwidth w <=? 4)) then
          (inr (IOError "only supports sample sizes of 2, 3 or 4 bytes"), self)
        else if negb ((1 <=? getnchannels w) && (getnchannels w <=? 2)) then
          (inr (IOError "only supports mono or stereo channels"), self)
        else
          (inl tt, mkSample (Some (readframes w (getnframes w))) (getframerate w)
                            (getnchannels w) (getsampwidth w) (locked self) (filename self))
    end.

(** [Sample(wave_file=path)]: an empty path counts as none.  Before
    [load_wav] the object has its [locked] attribute only; the other fields
    are written before they are read. *)
Definition Sample_from_wave (wave_file : string) (opened : wave_read + io_exn)
  : Sample + io_exn :=
  if String.eqb wave_file "" then inl Sample_new
  else
    match load_wav opened (mkSample None 0 0 0 false None) with
    | (inl _, self) =>
        inl (mkSample (frames self) (samplerate self) (nchannels self) (sampwidth self)
                      (locked self) (Some wave_file))
    | (inr e, _) => inr e
    end.

Definition set_song_instruments (instruments_ : gmap string object) (self : Song) : Song :=
  mkSong instruments_ (sample_path self) (output_path self) (song_bpm self)
         (song_ticks self) (pattern_sequence self) (song_patterns self).

(** [sorted(instruments.items())]: by name, then by file. *)
Definition item_leb (a b : string * string) : bool :=
  String.ltb (fst a) (fst b) || (String.eqb (fst a) (fst b) && String.leb (snd a) (snd b)).
Fixpoint insert_item (x : string * string) (l : list (string * string))
  : list (string * string) :=
  match l with
  | [] => [x]
  | y :: l' => if item_leb x y then x :: l else y :: insert_item x l'
  end.
Definition sorted_items (l : list (string * string)) : list (string * string) :=
  foldr insert_item [] l.

Section Loading.

Variable audioop_ratecv : bytes -> Z -> Z -> Z -> Z -> result bytes.
Variable audioop_tostereo : bytes -> Z -> float -> float -> result bytes.
Variable audioop_mul : bytes -> Z -> float -> result bytes.
(** [wave.open] and [os.path.join] are taken as they come. *)
Variable wave_open : string -> wave_read + io_exn.
Variable path_join : string -> string -> string.

(** [Sample(wave_file=path).normalize().make_32bit(scale_amplitude=False).lock()] *)
Definition load_instrument (path : string) : Sample + io_exn :=
  match Sample_from_wave path (wave_open path) with
  | inr e => inr e
  | inl sample =>
      match (normalize audioop_ratecv audioop_tostereo ;;
             make_32bit audioop_mul false ;; lock) sample with
      | Returned _ sample => inl sample
      | Raised e _ => inr (Exn e)
      end
  end.

(** The loop of [Song.read_samples]; [fresh] is the identity of the next
    object made. *)
Fixpoint read_samples_loop (samples_path : string) (items : list (string * string))
    (fresh : positive) (self : Song) : (unit + io_exn) * Song :=
  match items with
  | [] => (inl tt, self)
  | (name, file) :: items' =>
      match load_instrument (path_join samples_path file) with
      | inr e => (inr e, self)
      | inl sample =>
          read_samples_loop samples_path items' (Pos.succ fresh)
            (set_song_instruments (<[name := mkObject fresh sample]> (song_instruments self)) self)
      end
  end.

(** [Song.read_samples] *)
Definition read_samples (instruments_ : list (string * string)) (samples_path : string)
    (self : Song) : (unit + io_exn) * Song :=
  read_samples_loop samples_path (sorted_items instruments_) 1 (set_song_instruments ∅ self).

End Loading.

(** ** Definitions for the statements *)

(** [has_sign s x]: the float [x] is a NaN or has the sign bit [s]. *)
Definition has_sign (s : bool) (x : spec_float) : Prop :=
  match x with
  | S754_zero s' | S754_infinity s' | S754_finite s' _ _ => s' = s
  | S754_nan => True
  end.

(** [returns P m Q]: when [m] is called on a sample that satisfies [P] and
    returns, the sample satisfies [Q] afterwards. *)
Definition returns {A} (P : Sample -> Prop) (m : method A) (Q : Sample -> Prop) : Prop :=
  forall self a self', P self -> m self = Returned a self' -> Q self'.

(** The header of a sample: all but its frames. *)
Definition header (self : Sample) : Z * Z * Z * bool * option string :=
  (samplerate self, nchannels self, sampwidth self, locked self, filename self).

Definition has_header (h : Z * Z * Z * bool * option string) (self : Sample) : Prop :=
  header self = h.

(** The header of the sample that [Mixer.mix] mixes into. *)
Definition working_header : Z * Z * Z * bool * option string := (44100, 2, 4, false, None).

(** [quiet m]: a call of [m] leaves [self] as it is, whether it returns or
    raises. *)
Definition quiet {A} (m : method A) : Prop :=
  forall self, match m self with Returned _ self' | Raised _ self' => self' = self end.

(** [all_or_nothing m]: a call of [m] that raises leaves [self] as it is. *)
Definition all_or_nothing {A} (m : method A) : Prop :=
  forall self e self', m self = Raised e self' -> self' = self.

(** What [audioop.lin2lin] makes of one sample: its value as a 32 bit
    sample, cut to the top [newwidth] bytes. *)
Definition convert (width newwidth : Z) (val : Z) : Z :=
  Z.shiftr (Z.shiftl val (8 * (4 - width))) (8 * (4 - newwidth)).

(** The number of ticks of a list of patterns: [len] of the first bar of
    each. *)
Fixpoint count_ticks (ps : list pattern) : Z :=
  match ps with
  | [] => 0
  | [] :: ps' => count_ticks ps'
  | ((_, bars0) :: _) :: ps' => slen bars0 + count_ticks ps'
  end.

(** A bar of rests only. *)
Definition all_rests (bars : string) : Prop :=
  forall i ch, String.get i bars = Some ch -> is_rest ch = true.

(** The trigger index of an item that [mixed_triggers] or [mixed_samples]
    yields. *)
Definition tick_of {A} (item : Z * float * A) : Z := fst (fst item).

(** An item as [mixed_triggers] yields it: the time is the index times
    [time_per_index]; there are triggers, and each is a name with the
    sample the table has under it. *)
Definition triggered (instruments_ : gmap string object) (tpi : float)
    (item : Z * float * list trigger) : Prop :=
  let '(index, timestamp, triggers) := item in
  float_mul_int tpi index = OK timestamp
  /\ triggers <> []
  /\ Forall (fun t : trigger => instruments_ !! fst t = Some (snd t)) triggers.

(** A sample of the given rate, channels and width whose buffer is a whole
    number of samples. *)
Definition in_format (rate channels width : Z) (s : Sample) : Prop :=
  samplerate s = rate /\ nchannels s = channels /\ sampwidth s = width
  /\ exists f, frames s = Some f /\ len f mod width = 0 /\ len f < 2 ^ 53.

(** The length of the buffer of a sample; 0 without a buffer. *)
Definition buffer_len (s : Sample) : Z :=
  match frames s with
  | Some f => len f
  | None => 0
  end.

(** What [mixed_samples] yields for the triggers of a tick: the sample of
    the one trigger itself, or else a locked sample. *)
Definition sample_of (triggers : list trigger) (sample : Sample) : Prop :=
  match triggers with
  | [(_, o)] => sample = value o
  | _ => locked sample = true
  end.

(** *** Floats as rational numbers *)

(** [pow2 e] is [2^e], for any integer [e]. *)
Definition pow2 (e : Z) : Q := (2 ^ e)%Q.

(** The value of a float that is zero or finite, as a rational number (0
    for an infinity and for a NaN). *)
Definition SF2Q (x : spec_float) : Q :=
  match x with
  | S754_finite s m e =>
      if s then (- (inject_Z (Z.pos m) * pow2 e))%Q else (inject_Z (Z.pos m) * pow2 e)%Q
  | _ => 0%Q
  end.

(** [F2Q x]: the value of the float [x]. *)
Definition F2Q (x : float) : Q := SF2Q (Prim2SF x).

(** Half an ulp of a 53 bit mantissa, relative: [2^-53]. *)
Definition u53 : Q := 1 # 9007199254740992.

(** [near x y]: [y] is [x] up to a relative error of [2^-53]. *)
Definition near (x y : Q) : Prop := (x - u53 * x <= y /\ y <= x + u53 * x)%Q.

(** [inb mrs t]: the record [mrs] of a mantissa, a round bit and a sticky
    bit locates the number [t]. *)
Definition inb (mrs : shr_record) (t : Q) : Prop :=
  match shr_r mrs, shr_s mrs with
  | false, false => (t == inject_Z (shr_m mrs))%Q
  | false, true => (inject_Z (shr_m mrs) < t /\ t < inject_Z (shr_m mrs) + (1 # 2))%Q
  | true, false => (t == inject_Z (shr_m mrs) + (1 # 2))%Q
  | true, true => (inject_Z (shr_m mrs) + (1 # 2) < t /\ t < inject_Z (shr_m mrs) + 1)%Q
  end.

(** What [binary_round_aux] makes of a rounded mantissa [mr] at the
    exponent [e]: a mantissa of 54 bits is [2^53], and is renormalized. *)
Definition pack (s : bool) (mr e : Z) : spec_float :=
  match mr with
  | Z0 => S754_zero s
  | Z.pos p =>
      if mr =? 2 ^ 53 then
        if e + 1 <=? 971 then S754_finite s (4503599627370496%positive) (e + 1)
        else S754_infinity s
      else if e <=? 971 then S754_finite s p e else S754_infinity s
  | Z.neg _ => S754_nan
  end.

(** [fin x]: the float [x] is a zero or finite. *)
Definition fin (x : float) : Prop :=
  match Prim2SF x with
  | S754_zero _ | S754_finite _ _ _ => True
  | _ => False
  end.

(** [pos_or_zero x]: the float [x] is a zero or positive and finite. *)
Definition pos_or_zero (x : float) : Prop :=
  (exists s, Prim2SF x = S754_zero s) \/ exists m e, Prim2SF x = S754_finite false m e.

(** ** Samples and mixers for the examples *)

(** [audioop.mul] is not called by [Mixer.mix]; where a closed statement
    needs one, this one raises. *)
Definition mul_raises : bytes -> Z -> float -> result bytes :=
  fun _ _ _ => Raise (audioop_error "mul").

(** A locked stereo sample of one 16 bit frame. *)
Definition locked_frame : Sample :=
  mkSample (Some [x01; x00; x02; x00]) 44100 2 2 true None.

(** Two stereo 16 bit frames at 44100 Hz. *)
Definition two_frames : Sample :=
  mkSample (Some [x01; x02; x03; x04; x05; x06; x07; x08]) 44100 2 2 false None.

(** Fifteen stereo 16 bit frames of silence at 44100 Hz. *)
Definition fifteen_frames : Sample := mkSample (Some (zeros 60)) 44100 2 2 false None.

(** Two 16 bit stereo frames; the first sample of [loud] is the largest
    value, so that adding 1 to it saturates. *)
Definition loud : Sample :=
  mkSample (Some [xff; x7f; x02; x00; x03; x00; x04; x00]) 44100 2 2 false None.

(** One 16 bit stereo frame. *)
Definition soft : Sample :=
  mkSample (Some [x01; x00; x01; x00]) 44100 2 2 false None.

(** An instrument as [Song.read_samples] leaves it: a locked 32 bit stereo
    sample at 44100 Hz, here of one frame. *)
Definition click : Sample :=
  mkSample (Some [x01; x00; x00; x00; x01; x00; x00; x00]) 44100 2 4 true None.

Definition kit : gmap string object := {[ "kick" := mkObject 1 click ]}.

(** One bar of four ticks at the default tempo of [Song]. *)
Definition one_bar : Mixer := mkMixer [[("kick", "x...")]] 128 4 kit.

(** The loop places the one trigger at time 0 in the empty sample. *)
Definition one_bar_mixed : Sample :=
  mkSample (Some [x01; x00; x00; x00; x01; x00; x00; x00]) 44100 2 4 false None.

Definition one_bar_result : Sample :=
  mkSample (Some ([x01; x00; x00; x00; x01; x00; x00; x00] ++ zeros 165360)) 44100 2 4 false None.

(** Two frames of a 32 bit stereo sample at 44100 Hz, locked. *)
Definition clack : Sample :=
  mkSample (Some [x02; x00; x00; x00; x02; x00; x00; x00;
                  x03; x00; x00; x00; x03; x00; x00; x00]) 44100 2 4 true None.

Definition drums : gmap string object :=
  {[ "kick" := mkObject 1 click; "snare" := mkObject 2 clack ]}.

(** Two patterns of one tick that name the two instruments in different
    orders. *)
Definition two_orders : Mixer :=
  mkMixer [[("kick", "x"); ("snare", "x")]; [("snare", "x"); ("kick", "x")]] 128 1 drums.

(** One bar of rests. *)
Definition rests : Mixer := mkMixer [[("kick", "....")]] 128 4 kit.

(** A song file with one pattern of two bars, and the song after
    [read_samples] has loaded the two instruments. *)
Definition songdef_one : gmap string (list (string * string)) :=
  {[ "pattern.intro" := [("kick", "x... x..."); ("snare", ".... x...")] ]}.

Definition song_loaded : Song := mkSong drums (Some "samples") (Some "out") 128 4 [] ∅.

(** A song of one short bar of rests at a fast tempo. *)
Definition song_of_rests : Song :=
  mkSong kit (Some "samples") (Some "out") 60000 1 ["intro"] {[ "intro" := [("kick", ".")] ]}.

(** A stereo wave file of one 16 bit frame at 44100 Hz. *)
Definition kick_wave : wave_read :=
  mkWave 2 2 44100 1 (fun _ => [x01; x00; x02; x00]).

(** An instrument of five frames, and one bar of four ticks at a tempo at
    which the bar lasts seven frames. *)
Definition five_frames : Sample := mkSample (Some (zeros 40)) 44100 2 4 true None.

Definition fast_bar : Mixer :=
  mkMixer [[("kick", "x...")]] 378000 4 {[ "kick" := mkObject 1 five_frames ]}.

(** * Properties *)

(** ** Lists, slices and lengths *)

Lemma len_nonneg {A} (l : list A) : 0 <= len l.
Proof. unfold len. lia. Qed.

Lemma len_app {A} (l1 l2 : list A) : len (l1 ++ l2) = len l1 + len l2.
Proof. unfold len. rewrite length_app. lia. Qed.

Lemma len_zeros (n : Z) : len (zeros n) = Z.max n 0.
Proof. unfold len, zeros. rewrite length_replicate. lia. Qed.

Lemma zeros_nonpos (n : Z) : n <= 0 -> zeros n = [].
Proof.
  intros Hn. unfold zeros.
  replace (Z.to_nat n) with O by lia. reflexivity.
Qed.

Lemma len_nil_inv {A} (l : list A) : len l = 0 -> l = [].
Proof. destruct l; [reflexivity | unfold len; simpl; lia]. Qed.

Lemma slice_index_inside {A} (l : list A) (i : Z) :
  0 <= i <= len l -> slice_index l i = i.
Proof. intros Hi. unfold slice_index. destruct (Z.ltb_spec i 0); lia. Qed.

Lemma py_slice_inside {A} (l : list A) (a b : Z) :
  0 <= a <= len l -> 0 <= b <= len l ->
  py_slice l a b = take (Z.to_nat (b - a)) (drop (Z.to_nat a) l).
Proof.
  intros Ha Hb. unfold py_slice.
  rewrite !slice_index_inside by assumption. reflexivity.
Qed.

Lemma slice_to_take {A} (l : list A) (n : Z) :
  0 <= n -> slice_to l n = take (Z.to_nat n) l.
Proof.
  intros Hn. unfold slice_to, py_slice.
  pose proof (len_nonneg l) as Hl.
  rewrite (slice_index_inside l 0) by lia.
  change (Z.to_nat 0) with O. rewrite drop_0, Z.sub_0_r.
  unfold slice_index. destruct (Z.ltb_spec n 0); [lia |].
  destruct (Z.le_gt_cases n (len l)).
  - rewrite Z.min_l by lia. reflexivity.
  - rewrite Z.min_r by lia.
    rewrite !take_ge; [reflexivity | unfold len in *; lia ..].
Qed.

Lemma slice_from_drop {A} (l : list A) (n : Z) :
  0 <= n -> slice_from l n = drop (Z.to_nat n) l.
Proof.
  intros Hn. unfold slice_from, py_slice.
  pose proof (len_nonneg l) as Hl.
  rewrite (slice_index_inside l (len l)) by lia.
  unfold slice_index. destruct (Z.ltb_spec n 0); [lia |].
  destruct (Z.le_gt_cases n (len l)).
  - rewrite Z.min_l by lia.
    apply take_ge. rewrite length_drop. unfold len in *. lia.
  - rewrite Z.min_r by lia. rewrite Z.sub_diag.
    change (Z.to_nat 0) with O. rewrite take_0.
    rewrite drop_ge; [reflexivity | unfold len in *; lia].
Qed.

(** ** audioop *)

Lemma length_le_bytes (w : nat) (v : Z) : length (le_bytes w v) = w.
Proof. revert v. induction w as [|w IH]; intros v; simpl; [|rewrite IH]; reflexivity. Qed.

Lemma length_encode (w : nat) (vs : list Z) : length (encode w vs) = (w * length vs)%nat.
Proof.
  unfold encode. induction vs as [|v vs IH]; simpl.
  - lia.
  - rewrite length_app, length_le_bytes, IH. lia.
Qed.

Lemma length_samples (w n : nat) (cp : bytes) : length (samples w n cp) = n.
Proof. revert cp. induction n as [|n IH]; intros cp; simpl; [|rewrite IH]; reflexivity. Qed.

Lemma zip_with_comm {A B} (f : A -> A -> B) (l1 l2 : list A) :
  (forall a b, f a b = f b a) -> zip_with f l1 l2 = zip_with f l2 l1.
Proof.
  intros Hf. revert l2.
  induction l1 as [|x l1 IH]; intros [|y l2]; simpl; try reflexivity.
  rewrite Hf, IH. reflexivity.
Qed.

Lemma audioop_check_parameters_OK (nbytes size : Z) :
  1 <= size <= 4 -> nbytes mod size = 0 -> audioop_check_parameters nbytes size = OK tt.
Proof.
  intros Hs Hm. unfold audioop_check_parameters, audioop_check_size.
  destruct (Z.leb_spec 1 size); [|lia].
  destruct (Z.leb_spec size 4); [|lia].
  simpl. rewrite Hm. reflexivity.
Qed.

(** [add] does not depend on the order of its fragments. *)
Lemma audioop_add_comm (fragment1 fragment2 : bytes) (width : Z) :
  len fragment1 = len fragment2 ->
  audioop_add fragment1 fragment2 width = audioop_add fragment2 fragment1 width.
Proof.
  intros Hlen. unfold audioop_add, nsamples. rewrite <- Hlen.
  destruct (audioop_check_parameters (len fragment1) width); simpl; [|reflexivity].
  rewrite Z.eqb_refl. f_equal. f_equal.
  apply zip_with_comm. intros x y. rewrite Z.add_comm. reflexivity.
Qed.

(** On fragments of one length that is a whole number of samples, [add]
    returns a fragment of that length. *)
Lemma audioop_add_OK (fragment1 fragment2 : bytes) (width : Z) :
  1 <= width <= 4 -> len fragment1 mod width = 0 -> len fragment1 = len fragment2 ->
  exists mixed, audioop_add fragment1 fragment2 width = OK mixed /\ len mixed = len fragment1.
Proof.
  intros Hw Hm Hlen. unfold audioop_add.
  rewrite audioop_check_parameters_OK by assumption. simpl.
  rewrite Hlen, Z.eqb_refl. eexists. split; [reflexivity|].
  unfold len at 1. rewrite length_encode, length_zip_with, !length_samples.
  rewrite Nat.min_id. unfold nsamples. rewrite <- Hlen.
  pose proof (len_nonneg fragment1) as Hl.
  apply Z.mod_divide in Hm; [|lia]. destruct Hm as [k Hk].
  rewrite Hk, Z.div_mul by lia.
  assert (0 <= k) by nia.
  rewrite Nat2Z.inj_mul, !Z2Nat.id by lia. lia.
Qed.

(** ** Methods *)

Lemma bind_Raised {A B} (m : method A) (k : A -> method B) (self self' : Sample) (e : exn) :
  m self = Raised e self' -> bind m k self = Raised e self'.
Proof. intros H. unfold bind. rewrite H. reflexivity. Qed.

Lemma bind_Returned {A B} (m : method A) (k : A -> method B) (self self' : Sample) (a : A) :
  m self = Returned a self' -> bind m k self = k a self'.
Proof. intros H. unfold bind. rewrite H. reflexivity. Qed.

Lemma assert_not_locked_locked (self : Sample) :
  locked self = true -> assert_not_locked self = Raised AssertionError self.
Proof. intros H. unfold assert_not_locked, bind, read. rewrite H. reflexivity. Qed.

Lemma assert_not_locked_unlocked (self : Sample) :
  locked self = false -> assert_not_locked self = Returned tt self.
Proof. intros H. unfold assert_not_locked, bind, read. rewrite H. reflexivity. Qed.

(** A method that starts with [assert not self.locked] stops there on a
    locked sample. *)
Ltac stops_at_assert H :=
  apply bind_Raised; apply assert_not_locked_locked; exact H.

Section LockedSample.

Variable audioop_ratecv : bytes -> Z -> Z -> Z -> Z -> result bytes.
Variable audioop_tostereo : bytes -> Z -> float -> float -> result bytes.
Variable audioop_mul : bytes -> Z -> float -> result bytes.

(** C2. On a locked sample every mutating operation ([normalize],
    [make_32bit], [make_16bit], [amplify_max], [amplify], [cut], [append],
    [mix], [mix_at]) raises at its first statement, the assertion that the
    sample is not locked, whatever its arguments; the sample, its buffer
    and format included, is afterwards what it was before. *)
Theorem locked_sample_rejects_mutation (self : Sample) :
  locked self = true ->
  normalize audioop_ratecv audioop_tostereo self = Raised AssertionError self
  /\ (forall scale_amplitude,
        make_32bit audioop_mul scale_amplitude self = Raised AssertionError self)
  /\ (forall maximize_amplitude,
        make_16bit audioop_mul maximize_amplitude self = Raised AssertionError self)
  /\ amplify_max audioop_mul self = Raised AssertionError self
  /\ (forall factor, amplify audioop_mul factor self = Raised AssertionError self)
  /\ (forall start_seconds end_seconds,
        cut start_seconds end_seconds self = Raised AssertionError self)
  /\ (forall seconds, append seconds self = Raised AssertionError self)
  /\ (forall other other_seconds pad_shortest,
        mix other other_seconds pad_shortest self = Raised AssertionError self)
  /\ (forall seconds other other_seconds,
        mix_at seconds other other_seconds self = Raised AssertionError self).
Proof.
  intros Hlocked.
  repeat split; intros; stops_at_assert Hlocked.
Qed.

End LockedSample.

Lemma locked_sample_rejects_mutation_witness :
  locked locked_frame = true
  /\ cut 0%float 1%float locked_frame = Raised AssertionError locked_frame
  /\ append 1%float locked_frame = Raised AssertionError locked_frame.
Proof.
  split; [reflexivity|].
  pose proof (locked_sample_rejects_mutation
                (fun _ _ _ _ _ => Raise (audioop_error "ratecv"))
                (fun _ _ _ _ => Raise (audioop_error "tostereo"))
                (fun _ _ _ => Raise (audioop_error "mul"))
                locked_frame eq_refl) as H.
  split; [apply H | apply H].
Defined.

Section NormalizeTwice.

Variable audioop_ratecv : bytes -> Z -> Z -> Z -> Z -> result bytes.
Variable audioop_tostereo : bytes -> Z -> float -> float -> result bytes.

Abbreviation normalize' := (normalize audioop_ratecv audioop_tostereo).

(** What [normalize] leaves when it returns. *)
Lemma normalize_Returned (self self' : Sample) :
  normalize' self = Returned tt self' ->
  locked self' = false /\ samplerate self' = norm_samplerate
  /\ sampwidth self' = norm_sampwidth /\ nchannels self' <> 1
  /\ (nchannels self = 1 \/ nchannels self = 2 -> nchannels self' = norm_nchannels).
Proof.
  destruct self as [f r c w l fn].
  unfold normalize, assert_not_locked, self_frames, bind, read, assert_, eval,
    update, ret, raise, as_bytes, id, norm_samplerate, norm_sampwidth,
    norm_nchannels.
  cbn. destruct l; cbn; [discriminate|].
  repeat (cbn;
    match goal with
    | |- context [Z.eqb ?a ?b] => destruct (Z.eqb_spec a b)
    | |- context [match ?x with _ => _ end] => is_var x; destruct x
    | |- context [audioop_ratecv ?a ?b ?c ?d ?e] => destruct (audioop_ratecv a b c d e)
    | |- context [audioop_lin2lin ?a ?b ?c] => destruct (audioop_lin2lin a b c)
    | |- context [audioop_tostereo ?a ?b ?c ?d] => destruct (audioop_tostereo a b c d)
    end);
  cbn; intros H; inversion H; subst; cbn;
  repeat split; try reflexivity; try assumption; try discriminate; intros; lia.
Qed.

(** A sample in the normal format is left as it is. *)
Lemma normalize_normal (self : Sample) :
  locked self = false -> samplerate self = norm_samplerate ->
  sampwidth self = norm_sampwidth -> nchannels self <> 1 ->
  normalize' self = Returned tt self.
Proof.
  destruct self as [f r c w l fn]; simpl. intros -> -> -> Hc.
  unfold normalize, assert_not_locked, self_frames, bind, read, assert_, eval,
    update, ret, raise, as_bytes, id; simpl.
  destruct (Z.eqb_spec c 1); [contradiction | reflexivity].
Qed.

(** C7. [normalize] is idempotent: a second call right after the first
    leaves what the first left (also when the first raised: the second is
    then not reached), and a sample that [normalize] returned is unchanged
    by another [normalize].  What it returns has 44100 Hz and 2 byte
    samples, and 2 channels when the sample had 1 or 2. *)
Theorem normalize_idempotent (self : Sample) :
  (normalize' ;; normalize') self = normalize' self
  /\ forall self',
       normalize' self = Returned tt self' ->
       normalize' self' = Returned tt self'
       /\ samplerate self' = 44100 /\ sampwidth self' = 2
       /\ (nchannels self = 1 \/ nchannels self = 2 -> nchannels self' = 2).
Proof.
  assert (Hagain : forall self', normalize' self = Returned tt self' ->
                                 normalize' self' = Returned tt self').
  { intros self' H. apply normalize_Returned in H as (Hl & Hr & Hw & Hc & _).
    apply normalize_normal; assumption. }
  split.
  - unfold bind. destruct (normalize' self) as [[] self'|e self'] eqn:H; [|reflexivity].
    apply Hagain. reflexivity.
  - intros self' H. split; [apply Hagain; exact H|].
    apply normalize_Returned in H as (_ & Hr & Hw & _ & Hc). auto.
Qed.

End NormalizeTwice.

(** ** mix *)

(** The method steps before the frames are used, on an unlocked sample and
    a sample of the same format. *)
Lemma same_format_ok (self other : Sample) (state : Sample) :
  sampwidth self = sampwidth other -> samplerate self = samplerate other ->
  nchannels self = nchannels other ->
  same_format self other state = Returned tt state.
Proof.
  intros Hw Hr Hc. unfold same_format, bind, assert_.
  rewrite Hw, Hr, Hc, !Z.eqb_refl. reflexivity.
Qed.

(** [mix] with [pad_shortest] on well-formed buffers: the shorter buffer is
    padded with zero bytes and the two are added. *)
Lemma mix_pad_Returned (self other : Sample) (frames1 frames2 : bytes) :
  locked self = false ->
  sampwidth self = sampwidth other -> samplerate self = samplerate other ->
  nchannels self = nchannels other ->
  frames self = Some frames1 -> frames other = Some frames2 ->
  1 <= sampwidth self <= 4 ->
  len frames1 mod sampwidth self = 0 -> len frames2 mod sampwidth self = 0 ->
  exists mixed,
    audioop_add (frames1 ++ zeros (len frames2 - len frames1))
                (frames2 ++ zeros (len frames1 - len frames2)) (sampwidth self) = OK mixed
    /\ len mixed = Z.max (len frames1) (len frames2)
    /\ mix other None true self = Returned tt (set_frames (Some mixed) self).
Proof.
  intros Hl Hw Hr Hc Hf1 Hf2 Hwidth Hm1 Hm2.
  pose proof (len_nonneg frames1) as Hn1. pose proof (len_nonneg frames2) as Hn2.
  destruct (audioop_add_OK (frames1 ++ zeros (len frames2 - len frames1))
              (frames2 ++ zeros (len frames1 - len frames2)) (sampwidth self))
    as (mixed & Hadd & Hlen).
  - assumption.
  - rewrite len_app, len_zeros.
    destruct (Z.le_gt_cases (len frames1) (len frames2)).
    + replace (len frames1 + Z.max (len frames2 - len frames1) 0) with (len frames2) by lia.
      assumption.
    + replace (len frames1 + Z.max (len frames2 - len frames1) 0) with (len frames1) by lia.
      assumption.
  - rewrite !len_app, !len_zeros. lia.
  - exists mixed. split; [exact Hadd|]. split.
    + rewrite Hlen, len_app, len_zeros. lia.
    + unfold mix.
      rewrite (bind_Returned _ _ _ _ _ (assert_not_locked_unlocked _ Hl)).
      unfold bind at 1. unfold read at 1. unfold id.
      rewrite (bind_Returned _ _ _ _ _ (same_format_ok self other self Hw Hr Hc)).
      unfold self_frames, bind, eval, update, frames_of_other, as_bytes.
      rewrite Hf1, Hf2. cbn.
      destruct (Z.ltb_spec (len frames1) (len frames2)) as [Hlt|Hge].
      * rewrite (zeros_nonpos (len frames1 - len frames2)), app_nil_r in Hadd by lia.
        rewrite Hadd. reflexivity.
      * destruct (Z.ltb_spec (len frames2) (len frames1)) as [Hlt|Hge'].
        -- rewrite (zeros_nonpos (len frames2 - len frames1)), app_nil_r in Hadd by lia.
           rewrite Hadd. reflexivity.
        -- rewrite !zeros_nonpos, !app_nil_r in Hadd by lia.
           rewrite Hadd. reflexivity.
Qed.

(** C8. For an unlocked sample [A] and a sample [B] of the same rate, width
    and channels, both buffers a whole number of samples, [A.mix(B)] with
    [pad_shortest] returns and leaves in [A] a buffer as long as the longer
    of the two; when the buffers are equally long and [B] is unlocked too,
    [B.mix(A)] leaves the same bytes in [B]. *)
Theorem mix_pad_shortest_length_and_commutes (A B : Sample) (framesA framesB : bytes) :
  locked A = false ->
  sampwidth A = sampwidth B -> samplerate A = samplerate B -> nchannels A = nchannels B ->
  frames A = Some framesA -> frames B = Some framesB ->
  1 <= sampwidth A <= 4 ->
  len framesA mod sampwidth A = 0 -> len framesB mod sampwidth A = 0 ->
  exists mixed,
    mix B None true A = Returned tt (set_frames (Some mixed) A)
    /\ len mixed = Z.max (len framesA) (len framesB)
    /\ (len framesA = len framesB -> locked B = false ->
        mix A None true B = Returned tt (set_frames (Some mixed) B)).
Proof.
  intros Hl Hw Hr Hc HfA HfB Hwidth HmA HmB.
  destruct (mix_pad_Returned A B framesA framesB) as (mixed & Hadd & Hlen & Hmix);
    try assumption.
  exists mixed. split; [exact Hmix|]. split; [exact Hlen|].
  intros Heq HlB.
  destruct (mix_pad_Returned B A framesB framesA) as (mixed' & Hadd' & _ & Hmix');
    try solve [assumption | congruence].
  rewrite Hmix'. do 3 f_equal.
  rewrite <- Hw in Hadd'.
  rewrite audioop_add_comm in Hadd'.
  - congruence.
  - rewrite !len_app, !len_zeros. lia.
Qed.

(** ** Floats: signs *)

(** Rounding keeps the sign it is given. *)
Lemma binary_round_aux_sign (s : bool) (m e : Z) (l : location) :
  has_sign s (binary_round_aux prec emax s m e l).
Proof.
  unfold binary_round_aux.
  destruct (shr_fexp prec emax m e l) as [mrs' e'].
  destruct (shr_fexp prec emax _ e' loc_Exact) as [mrs'' e''].
  destruct (shr_m mrs''); simpl; [reflexivity | | exact I].
  destruct (Z.leb e'' (emax - prec)); reflexivity.
Qed.

Lemma binary_normalize_sign (n : Z) :
  has_sign (n <? 0) (binary_normalize prec emax n 0 false).
Proof.
  destruct n as [|p|p]; simpl; [reflexivity | |];
    unfold binary_round;
    destruct (shl_align _ _ _) as [mz ez]; apply binary_round_aux_sign.
Qed.

Lemma SFmul_sign (s1 s2 : bool) (x y : spec_float) :
  has_sign s1 x -> has_sign s2 y -> has_sign (xorb s1 s2) (SFmul prec emax x y).
Proof.
  destruct x as [sx|sx| |sx mx ex], y as [sy|sy| |sy my ey]; simpl;
    intros; subst; try reflexivity; try exact I.
  apply binary_round_aux_sign.
Qed.

(** The value of a small non-negative int as a float is the primitive
    conversion, whose specification is [binary_normalize]. *)
Lemma float_of_int_spec (n : Z) (y : float) :
  0 <= n < 2 ^ 63 -> float_of_int n = OK y ->
  Prim2SF y = binary_normalize prec emax n 0 false.
Proof.
  intros Hn. unfold float_of_int.
  assert (Hy : SF2Prim (binary_normalize prec emax n 0 false) = of_uint63 (Uint63.of_Z n)).
  { rewrite <- (SF2Prim_Prim2SF (of_uint63 (Uint63.of_Z n))).
    rewrite of_uint63_spec, Uint63.of_Z_spec.
    rewrite Z.mod_small; [reflexivity|]. exact Hn. }
  rewrite Hy. destruct (is_infinity _); [discriminate|].
  intros H. inversion H; subst. rewrite of_uint63_spec, Uint63.of_Z_spec.
  rewrite Z.mod_small; [reflexivity | exact Hn].
Qed.

Lemma leb_zero_sign (x : float) :
  (0 <=? x)%float = true -> Prim2SF x = S754_zero true \/ has_sign false (Prim2SF x).
Proof.
  rewrite FloatAxioms.leb_spec. change (Prim2SF 0) with (S754_zero false).
  destruct (Prim2SF x) as [[]|[]| |[] m e]; simpl; auto; discriminate.
Qed.

Lemma ltb_zero_sign (x : float) :
  (x <? 0)%float = true ->
  Prim2SF x <> S754_nan /\ has_sign true (Prim2SF x) /\ forall s, Prim2SF x <> S754_zero s.
Proof.
  rewrite FloatAxioms.ltb_spec. change (Prim2SF 0) with (S754_zero false).
  destruct (Prim2SF x) as [[]|[]| |[] m e]; simpl; try discriminate;
    intros _; repeat split; intros; discriminate.
Qed.

Lemma int_of_float_sign (x : float) (k : Z) (s : bool) :
  has_sign s (Prim2SF x) -> int_of_float x = OK k ->
  if s then k <= 0 else 0 <= k.
Proof.
  unfold int_of_float.
  destruct (Prim2SF x) as [s'|s'| |s' m e]; simpl; intros Hs H;
    inversion H; subst; [destruct s; lia|].
  pose proof (Z.shiftl_nonneg (Z.pos m) e) as Hsh.
  destruct s; lia.
Qed.

Lemma int_mul_float_zero (n : Z) (x p : float) (k : Z) (s : bool) :
  Prim2SF x = S754_zero s -> int_mul_float n x = OK p -> int_of_float p = OK k -> k = 0.
Proof.
  intros Hx. unfold int_mul_float, rbind.
  destruct (float_of_int n) as [y|]; [|discriminate].
  intros H; inversion H; subst; clear H.
  unfold int_of_float. rewrite mul_spec, Hx.
  destruct (Prim2SF y); simpl; intros H; inversion H; reflexivity.
Qed.

Lemma int_mul_float_sign (n : Z) (x p : float) (k : Z) (s : bool) :
  0 < n < 2 ^ 63 -> has_sign s (Prim2SF x) ->
  int_mul_float n x = OK p -> int_of_float p = OK k ->
  if s then k <= 0 else 0 <= k.
Proof.
  intros Hn Hx. unfold int_mul_float, rbind.
  destruct (float_of_int n) as [y|] eqn:Hy; [|discriminate].
  intros H; inversion H; subst; clear H.
  apply float_of_int_spec in Hy; [|lia].
  pose proof (binary_normalize_sign n) as Hs. rewrite <- Hy in Hs.
  replace (n <? 0) with false in Hs by (symmetry; apply Z.ltb_ge; lia).
  pose proof (SFmul_sign _ _ _ _ Hs Hx) as Hp. simpl in Hp.
  intros Hk. apply (int_of_float_sign (y * x)%float k s); [|exact Hk].
  rewrite mul_spec. exact Hp.
Qed.

(** A time that is not negative gives a frame index that is not negative,
    and a negative time one that is not positive, whenever there is one. *)
Lemma frame_idx_nonneg (self : Sample) (seconds : float) (idx : Z) :
  0 < samplerate self < 2 ^ 63 -> 0 <= nchannels self -> 0 <= sampwidth self ->
  (0 <=? seconds)%float = true -> frame_idx self seconds = OK idx -> 0 <= idx.
Proof.
  intros Hr Hc Hw Hs. unfold frame_idx, rbind.
  destruct (int_mul_float (samplerate self) seconds) as [p|] eqn:Hp; [|discriminate].
  destruct (int_of_float p) as [k|] eqn:Hk; [|discriminate].
  intros H; inversion H; subst; clear H.
  destruct (leb_zero_sign seconds Hs) as [Hz|Hpos].
  - rewrite (int_mul_float_zero _ _ _ _ _ Hz Hp Hk). lia.
  - pose proof (int_mul_float_sign _ _ _ _ false Hr Hpos Hp Hk) as H. simpl in H. nia.
Qed.

Lemma frame_idx_nonpos (self : Sample) (seconds : float) (idx : Z) :
  0 < samplerate self < 2 ^ 63 -> 0 <= nchannels self -> 0 <= sampwidth self ->
  (seconds <? 0)%float = true -> frame_idx self seconds = OK idx -> idx <= 0.
Proof.
  intros Hr Hc Hw Hs. unfold frame_idx, rbind.
  destruct (int_mul_float (samplerate self) seconds) as [p|] eqn:Hp; [|discriminate].
  destruct (int_of_float p) as [k|] eqn:Hk; [|discriminate].
  intros H; inversion H; subst; clear H.
  destruct (ltb_zero_sign seconds Hs) as (_ & Hneg & _).
  pose proof (int_mul_float_sign _ _ _ _ true Hr Hneg Hp Hk) as H. simpl in H. nia.
Qed.

(** ** mix_at *)

Lemma mix_join_frames_app (pre mid post : bytes) :
  _mix_join_frames pre mid post = pre ++ mid ++ post.
Proof. destruct post, mid; simpl; rewrite ?app_nil_r; reflexivity. Qed.

(** A region of a buffer replaced by as many bytes: the length stays and
    the bytes outside the region stay. *)
Lemma splice_len (grown mixed : bytes) (start n : Z) :
  0 <= start -> 0 <= n -> start + n <= len grown -> len mixed = n ->
  len (take (Z.to_nat start) grown ++ mixed ++ drop (Z.to_nat (start + n)) grown) = len grown.
Proof.
  unfold len. intros Hs Hn Hg Hm.
  rewrite !length_app, length_take, length_drop. lia.
Qed.

Lemma splice_outside (grown mixed : bytes) (start n : Z) (i : nat) :
  0 <= start -> 0 <= n -> start + n <= len grown -> len mixed = n ->
  Z.of_nat i < start \/ start + n <= Z.of_nat i ->
  (take (Z.to_nat start) grown ++ mixed ++ drop (Z.to_nat (start + n)) grown) !! i = grown !! i.
Proof.
  unfold len. intros Hs Hn Hg Hm [Hi|Hi].
  - rewrite lookup_app_l by (rewrite length_take; lia).
    apply lookup_take_lt. lia.
  - rewrite lookup_app_r by (rewrite length_take; lia).
    rewrite lookup_app_r by (rewrite length_take; lia).
    rewrite lookup_drop, length_take. f_equal. lia.
Qed.

(** [mix_at] on an unlocked sample, with a sample of the same format whose
    buffer is a whole number of samples, at a frame index that is not
    negative. *)
Lemma mix_at_Returned (self other : Sample) (seconds : float)
    (frames1 frames2 : bytes) (start : Z) :
  locked self = false ->
  sampwidth self = sampwidth other -> samplerate self = samplerate other ->
  nchannels self = nchannels other ->
  frames self = Some frames1 -> frames other = Some frames2 ->
  1 <= sampwidth self <= 4 -> len frames2 mod sampwidth self = 0 ->
  frame_idx self seconds = OK start -> 0 <= start ->
  let grown := frames1 ++ zeros (start + len frames2 - len frames1) in
  exists mixed,
    audioop_add (take (Z.to_nat (len frames2)) (drop (Z.to_nat start) grown))
                frames2 (sampwidth self) = OK mixed
    /\ len mixed = len frames2
    /\ mix_at seconds other None self
       = Returned tt (set_frames (Some (take (Z.to_nat start) grown ++ mixed
                                          ++ drop (Z.to_nat (start + len frames2)) grown)) self).
Proof.
  intros Hl Hw Hr Hc Hf1 Hf2 Hwidth Hm Hidx Hstart grown.
  pose proof (len_nonneg frames1) as Hn1. pose proof (len_nonneg frames2) as Hn2.
  assert (Hg : start + len frames2 <= len grown).
  { unfold grown. rewrite len_app, len_zeros. lia. }
  set (region := take (Z.to_nat (len frames2)) (drop (Z.to_nat start) grown)).
  assert (Hregion : len region = len frames2).
  { unfold region, len in *. rewrite length_take, length_drop. lia. }
  destruct (audioop_add_OK region frames2 (sampwidth self)) as (mixed & Hadd & Hlen);
    [assumption | rewrite Hregion; assumption | assumption |].
  exists mixed. split; [exact Hadd|]. split; [congruence|].
  assert (Hgrow : _mix_grow_if_needed start (len frames2) self
                  = Returned tt (set_frames (Some grown) self)).
  { unfold _mix_grow_if_needed, self_frames, bind, eval, update, ret, as_bytes.
    rewrite Hf1. destruct (Z.ltb_spec (len frames1) (start + len frames2)).
    - reflexivity.
    - unfold grown. rewrite zeros_nonpos, app_nil_r by lia.
      destruct self; simpl in *; subst; reflexivity. }
  assert (Hsplit : _mix_split_frames (len frames2) start self
                   = Returned (take (Z.to_nat start) grown, region,
                               drop (Z.to_nat (start + len frames2)) grown)
                              (set_frames (Some grown) self)).
  { unfold _mix_split_frames.
    rewrite (bind_Returned _ _ _ _ _ Hgrow).
    unfold self_frames, bind, eval, ret, as_bytes. simpl.
    rewrite slice_to_take, slice_from_drop by lia.
    rewrite py_slice_inside by lia.
    replace (start + len frames2 - start) with (len frames2) by lia.
    reflexivity. }
  unfold mix_at.
  rewrite (bind_Returned _ _ _ _ _ (assert_not_locked_unlocked _ Hl)).
  unfold bind at 1. unfold read at 1. unfold id.
  rewrite (bind_Returned _ _ _ _ _ (same_format_ok self other self Hw Hr Hc)).
  unfold bind at 1. unfold eval at 1. rewrite Hidx.
  unfold bind at 1. unfold eval at 1. unfold frames_of_other. rewrite Hf2.
  unfold bind at 1. unfold eval at 1. unfold as_bytes.
  rewrite (bind_Returned _ _ _ _ _ Hsplit).
  unfold bind, update, eval. simpl. rewrite Hadd.
  rewrite mix_join_frames_app. reflexivity.
Qed.

(** C5. [self.mix_at(seconds, other)] for an unlocked [self], an [other] of the same
    rate, width and channels whose buffer is a whole number of samples, and
    a time [seconds] that is not negative and has a frame index [start]:
    the call returns; with [grown] the buffer of [self] extended by zero bytes
    to [start + len(other)] bytes where it was shorter, the new buffer is
    [grown] with the bytes from [start] to [start + len(other)] replaced by
    their [audioop.add] with the buffer of [other]; it is as long as [grown],
    and every byte outside that region is the byte of [grown]. *)
Theorem mix_at_sums_region (self other : Sample) (seconds : float)
    (framesS framesO : bytes) (start : Z) :
  locked self = false ->
  sampwidth self = sampwidth other -> samplerate self = samplerate other -> nchannels self = nchannels other ->
  frames self = Some framesS -> frames other = Some framesO ->
  0 < samplerate self < 2 ^ 63 -> 1 <= nchannels self -> 1 <= sampwidth self <= 4 ->
  len framesO mod sampwidth self = 0 ->
  (0 <=? seconds)%float = true -> frame_idx self seconds = OK start ->
  let grown := framesS ++ zeros (start + len framesO - len framesS) in
  exists mixed result,
    mix_at seconds other None self = Returned tt (set_frames (Some result) self)
    /\ 0 <= start
    /\ audioop_add (take (Z.to_nat (len framesO)) (drop (Z.to_nat start) grown))
                   framesO (sampwidth self) = OK mixed
    /\ result = take (Z.to_nat start) grown ++ mixed
                  ++ drop (Z.to_nat (start + len framesO)) grown
    /\ len result = len grown
    /\ (forall i : nat,
          Z.of_nat i < start \/ start + len framesO <= Z.of_nat i ->
          result !! i = grown !! i).
Proof.
  intros Hl Hw Hr Hc HfS HfO Hrate Hch Hwidth Hm Hsec Hidx grown.
  assert (Hstart : 0 <= start).
  { apply (frame_idx_nonneg self seconds); [assumption | lia | lia | assumption ..]. }
  destruct (mix_at_Returned self other seconds framesS framesO start)
    as (mixed & Hadd & Hlen & Hmix); try assumption.
  fold grown in Hadd, Hmix.
  pose proof (len_nonneg framesS) as Hn1. pose proof (len_nonneg framesO) as Hn2.
  assert (Hg : start + len framesO <= len grown).
  { unfold grown. rewrite len_app, len_zeros. lia. }
  exists mixed. eexists. split; [exact Hmix|].
  split; [exact Hstart|]. split; [exact Hadd|]. split; [reflexivity|]. split.
  - apply splice_len; assumption.
  - intros i Hi. apply splice_outside; assumption.
Qed.

(** ** append and cut *)

(** [append] on an unlocked sample: the frame index of the duration, as
    zero bytes at the end (none when it is not positive). *)
Lemma append_Returned (self : Sample) (frames_ : bytes) (seconds : float) (idx : Z) :
  locked self = false -> frames self = Some frames_ ->
  frame_idx self seconds = OK idx -> - 2 ^ 63 <= idx ->
  append seconds self = Returned tt (set_frames (Some (frames_ ++ zeros idx)) self).
Proof.
  intros Hl Hf Hidx Hfit. unfold append.
  rewrite (bind_Returned _ _ _ _ _ (assert_not_locked_unlocked _ Hl)).
  unfold self_frames, bind, eval, update, as_bytes, repeat_zero. rewrite Hidx.
  replace (idx <? - 2 ^ 63) with false by (symmetry; apply Z.ltb_ge; exact Hfit).
  rewrite Hf. reflexivity.
Qed.

(** A count below [-2^63] is refused, and the sample is left as it was. *)
Lemma append_OverflowError (self : Sample) (seconds : float) (idx : Z) :
  locked self = false -> frame_idx self seconds = OK idx -> idx < - 2 ^ 63 ->
  append seconds self = Raised OverflowError self.
Proof.
  intros Hl Hidx Hfit. unfold append.
  rewrite (bind_Returned _ _ _ _ _ (assert_not_locked_unlocked _ Hl)).
  unfold bind, eval, repeat_zero. rewrite Hidx.
  replace (idx <? - 2 ^ 63) with true by (symmetry; apply Z.ltb_lt; exact Hfit).
  reflexivity.
Qed.

(** Where [frame_idx] raises, [append] raises the same. *)
Lemma append_frame_idx_Raise (self : Sample) (seconds : float) (e : exn) :
  locked self = false -> frame_idx self seconds = Raise e ->
  append seconds self = Raised e self.
Proof.
  intros Hl Hidx. unfold append.
  rewrite (bind_Returned _ _ _ _ _ (assert_not_locked_unlocked _ Hl)).
  unfold bind, eval. rewrite Hidx. reflexivity.
Qed.

(** [cut] on an unlocked sample: the slice, unless the end index is the
    length of the buffer. *)
Lemma cut_Returned (self : Sample) (frames_ : bytes) (start_seconds end_seconds : float)
    (start end_ : Z) :
  locked self = false -> frames self = Some frames_ ->
  (start_seconds <? end_seconds)%float = true ->
  frame_idx self start_seconds = OK start -> frame_idx self end_seconds = OK end_ ->
  cut start_seconds end_seconds self
  = Returned tt (if end_ =? len frames_ then self
                 else set_frames (Some (py_slice frames_ start end_)) self).
Proof.
  intros Hl Hf Hlt Hs He. unfold cut.
  rewrite (bind_Returned _ _ _ _ _ (assert_not_locked_unlocked _ Hl)).
  unfold self_frames, bind, eval, update, assert_, ret, as_bytes.
  rewrite Hlt, Hs, He, Hf. destruct (end_ =? len frames_); reflexivity.
Qed.

Lemma set_frames_same (self : Sample) (frames_ : bytes) :
  frames self = Some frames_ -> set_frames (Some frames_) self = self.
Proof. destruct self; simpl; intros ->; reflexivity. Qed.

(** [Sample().append(-1.0)] returns, and the sample is still empty. *)
Lemma append_negative_returns :
  (-1 <? 0)%float = true
  /\ append (-1)%float Sample_new = Returned tt Sample_new.
Proof. split; reflexivity. Qed.

(** C3 at a cut from the second frame to the end of a buffer of two frames:
    the start time has frame index 4 and the end time frame index 8, the
    length of the buffer; the slice from 4 to 8 is the second frame, and
    [cut] leaves both frames. *)
Theorem cut_to_the_end_keeps_the_start :
  (0x1p-15 <? 0x1p-14)%float = true
  /\ frame_idx two_frames 0x1p-15%float = OK 4
  /\ frame_idx two_frames 0x1p-14%float = OK 8
  /\ py_slice [x01; x02; x03; x04; x05; x06; x07; x08] 4 8 = [x05; x06; x07; x08]
  /\ cut 0x1p-15%float 0x1p-14%float two_frames = Returned tt two_frames.
Proof. repeat split; vm_compute; reflexivity. Qed.

(** ** The sample codec of audioop *)

Lemma byte_val_range (b : byte) : 0 <= byte_val b < 256.
Proof.
  unfold byte_val. pose proof (Byte.to_N_bounded b) as H. lia.
Qed.

Lemma byte_of_val (b : byte) : byte_of (byte_val b) = b.
Proof.
  unfold byte_of, byte_val.
  rewrite Z.mod_small by (pose proof (Byte.to_N_bounded b); lia).
  rewrite N2Z.id, Byte.of_to_N. reflexivity.
Qed.

Lemma byte_val_of (z : Z) : byte_val (byte_of z) = z mod 256.
Proof.
  unfold byte_of, byte_val.
  pose proof (Z.mod_pos_bound z 256 ltac:(lia)) as Hz.
  destruct (Byte.of_N (Z.to_N (z mod 256))) as [b|] eqn:Hb.
  - apply Byte.to_of_N in Hb. simpl. rewrite Hb. lia.
  - apply Byte.of_N_None_iff in Hb. lia.
Qed.

Lemma le_value_range (cp : bytes) : 0 <= le_value cp < 256 ^ len cp.
Proof.
  induction cp as [|b cp IH].
  - simpl. unfold len. simpl. lia.
  - simpl le_value. pose proof (byte_val_range b) as Hb.
    replace (len (b :: cp)) with (len cp + 1) by (unfold len; simpl; lia).
    rewrite Z.pow_add_r, Z.pow_1_r by (pose proof (len_nonneg cp); lia).
    lia.
Qed.

(** Bytes to value and back. *)
Lemma le_bytes_le_value (cp : bytes) (k : Z) :
  le_bytes (length cp) (le_value cp + k * 256 ^ len cp) = cp.
Proof.
  revert k. induction cp as [|b cp IH]; intros k; [reflexivity|].
  simpl le_bytes. simpl le_value.
  replace (len (b :: cp)) with (len cp + 1) by (unfold len; simpl; lia).
  rewrite Z.pow_add_r, Z.pow_1_r by (pose proof (len_nonneg cp); lia).
  pose proof (byte_val_range b) as Hb.
  replace (byte_val b + 256 * le_value cp + k * (256 ^ len cp * 256))
    with (byte_val b + (le_value cp + k * 256 ^ len cp) * 256) by lia.
  f_equal.
  - unfold byte_of. rewrite Z.mod_add, Z.mod_small by lia.
    fold (byte_of (byte_val b)). change (default x00 (Byte.of_N (Z.to_N (byte_val b))))
      with (default x00 (Byte.of_N (Z.to_N (byte_val b)))).
    unfold byte_val. rewrite N2Z.id, Byte.of_to_N. reflexivity.
  - rewrite Z.div_add, Z.div_small by lia. simpl. apply IH.
Qed.

(** Value to bytes and back. *)
Lemma le_value_le_bytes (w : nat) (v : Z) :
  le_value (le_bytes w v) = v mod 256 ^ Z.of_nat w.
Proof.
  revert v. induction w as [|w IH]; intros v.
  - simpl. rewrite Z.mod_1_r. reflexivity.
  - simpl le_bytes. simpl le_value. rewrite byte_val_of, IH.
    rewrite Nat2Z.inj_succ, Z.pow_succ_r by lia.
    rewrite Z.rem_mul_r by lia. reflexivity.
Qed.

Lemma maxval_minval (w : nat) :
  (1 <= w)%nat -> 2 ^ (8 * Z.of_nat w) = 2 * (maxval w + 1) /\ minval w = - (maxval w + 1)
                  /\ 0 <= maxval w.
Proof.
  intros Hw. unfold maxval, minval.
  assert (H : 2 ^ (8 * Z.of_nat w) = 2 * 2 ^ (8 * Z.of_nat w - 1)).
  { rewrite <- Z.pow_succ_r by lia. f_equal. lia. }
  pose proof (Z.pow_pos_nonneg 2 (8 * Z.of_nat w - 1) ltac:(lia) ltac:(lia)). lia.
Qed.

Lemma pow_256 (n : Z) : 0 <= n -> 256 ^ n = 2 ^ (8 * n).
Proof. intros Hn. rewrite Z.pow_mul_r by lia. reflexivity. Qed.

(** A sample read from a fragment is in the range of the width. *)
Lemma getrawsample_range (w : nat) (cp : bytes) :
  (1 <= w)%nat -> length cp = w -> minval w <= getrawsample w cp <= maxval w.
Proof.
  intros Hw Hlen. unfold getrawsample.
  rewrite take_ge by lia.
  pose proof (le_value_range cp) as Hr.
  unfold len in Hr. rewrite Hlen, pow_256 in Hr by lia.
  destruct (maxval_minval w Hw) as (Hp & Hm & H0).
  destruct (Z.leb_spec (le_value cp) (maxval w)); lia.
Qed.

(** A sample written and read is the sample. *)
Lemma getrawsample_le_bytes (w : nat) (v : Z) :
  (1 <= w)%nat -> minval w <= v <= maxval w -> getrawsample w (le_bytes w v) = v.
Proof.
  intros Hw Hv. unfold getrawsample.
  rewrite take_ge by (rewrite length_le_bytes; lia).
  rewrite le_value_le_bytes, pow_256 by lia.
  destruct (maxval_minval w Hw) as (Hp & Hm & H0).
  destruct (Z.le_gt_cases 0 v) as [Hpos|Hneg].
  - rewrite Z.mod_small by lia.
    destruct (Z.leb_spec v (maxval w)); lia.
  - replace (v mod 2 ^ (8 * Z.of_nat w)) with (v + 2 ^ (8 * Z.of_nat w)).
    + destruct (Z.leb_spec (v + 2 ^ (8 * Z.of_nat w)) (maxval w)); lia.
    + apply Z.mod_unique_pos with (q := -1); lia.
Qed.

(** A sample read and written is its bytes. *)
Lemma le_bytes_getrawsample (w : nat) (cp : bytes) :
  length cp = w -> le_bytes w (getrawsample w cp) = cp.
Proof.
  intros Hlen. unfold getrawsample. rewrite take_ge by lia. subst w.
  destruct (le_value cp <=? maxval (length cp)).
  - etransitivity; [|apply (le_bytes_le_value cp 0)]. f_equal. lia.
  - etransitivity; [|apply (le_bytes_le_value cp (-1))]. f_equal.
    unfold len. rewrite pow_256 by lia. lia.
Qed.

(** Decoding and encoding a fragment of whole samples gives it back. *)
Lemma encode_samples (w n : nat) (cp : bytes) :
  length cp = (n * w)%nat -> encode w (samples w n cp) = cp.
Proof.
  revert cp. induction n as [|n IH]; intros cp Hlen.
  - destruct cp; [reflexivity | discriminate].
  - assert (Hhead : le_bytes w (getrawsample w cp) = take w cp).
    { replace (getrawsample w cp) with (getrawsample w (take w cp))
        by (unfold getrawsample; rewrite take_take, Nat.min_id; reflexivity).
      apply le_bytes_getrawsample. rewrite length_take. simpl in Hlen. lia. }
    unfold encode in *. simpl. rewrite Hhead.
    rewrite IH by (rewrite length_drop; simpl in Hlen; lia).
    apply take_drop.
Qed.

Lemma le_value_zeros (n : nat) : le_value (replicate n x00) = 0.
Proof. induction n as [|n IH]; simpl; [|rewrite IH]; reflexivity. Qed.

Lemma samples_zeros (w n k : nat) :
  (1 <= w)%nat -> samples w n (replicate k x00) = replicate n 0.
Proof.
  intros Hw. revert k. induction n as [|n IH]; intros k; [reflexivity|].
  simpl. rewrite drop_replicate, IH. f_equal.
  unfold getrawsample. rewrite take_replicate, le_value_zeros.
  destruct (maxval_minval w Hw) as (_ & _ & H0).
  destruct (Z.leb_spec 0 (maxval w)); [reflexivity | lia].
Qed.

(** The samples of a fragment of whole samples are in the range of the
    width. *)
Lemma samples_range (w n : nat) (cp : bytes) :
  (1 <= w)%nat -> length cp = (n * w)%nat ->
  Forall (fun v => minval w <= v <= maxval w) (samples w n cp).
Proof.
  intros Hw. revert cp. induction n as [|n IH]; intros cp Hlen; simpl; constructor.
  - replace (getrawsample w cp) with (getrawsample w (take w cp))
      by (unfold getrawsample; rewrite take_take, Nat.min_id; reflexivity).
    apply getrawsample_range; [exact Hw|]. rewrite length_take. simpl in Hlen. lia.
  - apply IH. rewrite length_drop. simpl in Hlen. lia.
Qed.

Lemma bound_in_range (w : nat) (v : Z) : minval w <= v <= maxval w -> bound w v = v.
Proof.
  intros Hv. unfold bound.
  destruct (Z.ltb_spec (maxval w) v); [lia|].
  destruct (Z.ltb_spec v (minval w)); [lia|]. reflexivity.
Qed.

Lemma nsamples_length (cp : bytes) (width : Z) :
  1 <= width -> len cp mod width = 0 ->
  length cp = (nsamples cp width * Z.to_nat width)%nat.
Proof.
  intros Hw Hm. unfold nsamples.
  pose proof (len_nonneg cp) as Hl.
  apply Z.mod_divide in Hm; [|lia]. destruct Hm as [k Hk].
  rewrite Hk, Z.div_mul by lia.
  assert (0 <= k) by nia.
  apply Nat2Z.inj. rewrite Nat2Z.inj_mul, !Z2Nat.id by lia. exact Hk.
Qed.

Lemma zip_with_bound_zeros (w : nat) (vs : list Z) :
  Forall (fun v => minval w <= v <= maxval w) vs ->
  zip_with (fun val1 val2 => bound w (val1 + val2)) (replicate (length vs) 0) vs = vs.
Proof.
  induction 1 as [|v vs Hv _ IH]; simpl; [reflexivity|].
  rewrite bound_in_range by exact Hv. rewrite IH. reflexivity.
Qed.

(** Adding silence to a fragment gives the fragment. *)
Lemma audioop_add_zeros (fragment : bytes) (width : Z) :
  1 <= width <= 4 -> len fragment mod width = 0 ->
  audioop_add (zeros (len fragment)) fragment width = OK fragment.
Proof.
  intros Hw Hm. unfold audioop_add.
  pose proof (len_nonneg fragment) as Hl.
  assert (Hz : len (zeros (len fragment)) = len fragment) by (rewrite len_zeros; lia).
  rewrite Hz, audioop_check_parameters_OK, Z.eqb_refl by assumption. simpl. f_equal.
  assert (Hn : nsamples (zeros (len fragment)) width = nsamples fragment width)
    by (unfold nsamples; rewrite Hz; reflexivity).
  rewrite Hn. unfold zeros. rewrite samples_zeros by lia.
  pose proof (nsamples_length fragment width ltac:(lia) Hm) as Hlen.
  pose proof (samples_range (Z.to_nat width) (nsamples fragment width) fragment
                ltac:(lia) Hlen) as Hrange.
  rewrite <- (length_samples (Z.to_nat width) (nsamples fragment width) fragment) at 1.
  rewrite zip_with_bound_zeros by exact Hrange.
  apply encode_samples. exact Hlen.
Qed.

(** [mix_at(0, other)] on a sample without frames leaves the buffer of
    [other]. *)
Lemma mix_at_zero_on_empty (self other : Sample) (frames_ : bytes) (start : Z) :
  locked self = false ->
  sampwidth self = sampwidth other -> samplerate self = samplerate other ->
  nchannels self = nchannels other ->
  frames self = Some [] -> frames other = Some frames_ ->
  1 <= sampwidth self <= 4 -> len frames_ mod sampwidth self = 0 ->
  frame_idx self 0%float = OK start ->
  mix_at 0%float other None self = Returned tt (set_frames (Some frames_) self).
Proof.
  intros Hl Hw Hr Hc Hf1 Hf2 Hwidth Hm Hidx.
  assert (Hstart : start = 0).
  { unfold frame_idx, rbind in Hidx.
    destruct (int_mul_float (samplerate self) 0) as [p|] eqn:Hp; [|discriminate].
    destruct (int_of_float p) as [k|] eqn:Hk; [|discriminate].
    inversion Hidx.
    rewrite (int_mul_float_zero _ 0%float p k false eq_refl Hp Hk). lia. }
  subst start.
  destruct (mix_at_Returned self other 0%float [] frames_ 0)
    as (mixed & Hadd & Hlen & Hmix); try assumption; [lia|].
  pose proof (len_nonneg frames_) as Hn.
  rewrite Hmix. do 3 f_equal.
  assert (Hg : [] ++ zeros (0 + len frames_ - len (@nil byte)) = zeros (len frames_)).
  { simpl. f_equal. unfold len at 2. simpl. lia. }
  rewrite Hg in *. rewrite Z.add_0_l.
  assert (Hz : length (zeros (len frames_)) = Z.to_nat (len frames_)).
  { unfold zeros. apply length_replicate. }
  change (Z.to_nat 0) with O in *. rewrite drop_0 in Hadd.
  rewrite take_ge in Hadd by lia.
  rewrite audioop_add_zeros in Hadd by assumption. inversion Hadd; subst.
  rewrite take_0, drop_ge, app_nil_r by lia. reflexivity.
Qed.

Lemma bound_range (w : nat) (v : Z) :
  (1 <= w)%nat -> minval w <= bound w v <= maxval w.
Proof.
  intros Hw. unfold bound. destruct (maxval_minval w Hw) as (_ & Hm & H0).
  destruct (Z.ltb_spec (maxval w) v); [lia|].
  destruct (Z.ltb_spec v (minval w)); lia.
Qed.

(** Encoding and decoding values in the range of the width gives them
    back. *)
Lemma samples_encode (w : nat) (vs : list Z) :
  (1 <= w)%nat -> Forall (fun v => minval w <= v <= maxval w) vs ->
  samples w (length vs) (encode w vs) = vs.
Proof.
  intros Hw. induction 1 as [|v vs Hv _ IH]; [reflexivity|].
  unfold encode in *. simpl. f_equal.
  - replace (getrawsample w (le_bytes w v ++ concat (map (le_bytes w) vs)))
      with (getrawsample w (le_bytes w v)).
    + apply getrawsample_le_bytes; assumption.
    + unfold getrawsample. f_equal. f_equal.
      rewrite take_app_length' by (symmetry; apply length_le_bytes).
      rewrite take_ge by (rewrite length_le_bytes; lia). reflexivity.
  - rewrite drop_app_length' by (symmetry; apply length_le_bytes). exact IH.
Qed.

(** The samples of what [add] returns are the sums of the samples,
    saturated at the range of the width. *)
Lemma audioop_add_samples (fragment1 fragment2 mixed : bytes) (width : Z) :
  audioop_add fragment1 fragment2 width = OK mixed ->
  let w := Z.to_nat width in
  let n := nsamples fragment1 width in
  samples w n mixed
  = zip_with (fun val1 val2 => bound w (val1 + val2)) (samples w n fragment1) (samples w n fragment2).
Proof.
  unfold audioop_add, audioop_check_parameters, audioop_check_size, rbind.
  destruct (Z.leb_spec 1 width); [|discriminate].
  destruct (Z.leb_spec width 4); [|discriminate]. simpl.
  destruct (len fragment1 mod width =? 0); [|discriminate].
  destruct (len fragment1 =? len fragment2); [|discriminate].
  intros Hadd. inversion Hadd; subst; clear Hadd. cbv zeta.
  set (w := Z.to_nat width). set (n := nsamples fragment1 width).
  set (vs := zip_with _ _ _).
  assert (Hlen : length vs = n).
  { unfold vs. rewrite length_zip_with, !length_samples. lia. }
  rewrite <- Hlen at 1. apply samples_encode; [lia|].
  unfold vs. generalize (samples w n fragment1), (samples w n fragment2).
  intros l1. induction l1 as [|a l1 IH]; intros [|b l2]; simpl; constructor.
  - apply bound_range. lia.
  - apply IH.
Qed.

(** ** Mixer construction *)

(** What the loop over the bars of a pattern has checked when it ends
    without an exception. *)
Lemma check_bars_OK (instruments_ : gmap string object) (ticks_ bar_length : Z)
    (items : pattern) :
  check_bars instruments_ ticks_ bar_length items = OK tt ->
  forall instrument bars, (instrument, bars) ∈ items ->
    is_Some (instruments_ !! instrument) /\ ticks_ <> 0 /\ slen bars mod ticks_ = 0
    /\ (0 < bar_length -> slen bars = bar_length).
Proof.
  revert bar_length. induction items as [|[name0 bars0] items IH]; intros bar_length Hok.
  - intros instrument bars Hin. inversion Hin.
  - simpl in Hok.
    destruct (instruments_ !! name0) as [sample|] eqn:Hlookup; [|discriminate].
    destruct (Z.eqb_spec ticks_ 0) as [|Hticks]; [discriminate|].
    destruct (Z.eqb_spec (slen bars0 mod ticks_) 0) as [Hmod|]; [|discriminate].
    simpl in Hok.
    destruct (Z.ltb_spec 0 bar_length) as [Hpos|Hnonpos];
      destruct (Z.eqb_spec bar_length (slen bars0)) as [Heq|Hne];
      simpl in Hok; try discriminate;
      intros instrument bars Hin; apply elem_of_cons in Hin as [Hin|Hin];
      try (inversion Hin; subst; rewrite Hlookup; repeat split; eauto; lia);
      destruct (IH _ Hok _ _ Hin) as (H1 & H2 & H3 & H4);
      repeat split; try assumption; intros; lia.
Qed.

(** Of two bars of a checked pattern, a later one is as long as an earlier
    one that is not empty. *)
Lemma check_bars_lengths (instruments_ : gmap string object) (ticks_ bar_length : Z)
    (items : pattern) :
  check_bars instruments_ ticks_ bar_length items = OK tt ->
  forall (i j : nat) x y, (i < j)%nat -> items !! i = Some x -> items !! j = Some y ->
    0 < slen (snd x) -> slen (snd y) = slen (snd x).
Proof.
  revert bar_length. induction items as [|[name0 bars0] items IH]; intros bar_length Hok.
  - intros i j x y _ Hi. inversion Hi.
  - simpl in Hok.
    destruct (instruments_ !! name0) as [sample|]; [|discriminate].
    destruct (ticks_ =? 0); [discriminate|].
    destruct (negb (slen bars0 mod ticks_ =? 0)); [discriminate|].
    destruct ((0 <? bar_length) && negb (bar_length =? slen bars0)); [discriminate|].
    intros i j x y Hij Hi Hj Hx.
    destruct j as [|j]; [lia|]. simpl in Hj.
    destruct i as [|i]; simpl in Hi.
    + inversion Hi; subst. simpl in *.
      destruct y as [name bars].
      apply (check_bars_OK _ _ _ _ Hok name bars); [|exact Hx].
      apply list_elem_of_lookup. eauto.
    + apply (IH _ Hok i j); [lia | assumption ..].
Qed.

Lemma check_bars_Raise (instruments_ : gmap string object) (ticks_ bar_length : Z)
    (items : pattern) (e : exn) :
  check_bars instruments_ ticks_ bar_length items = Raise e ->
  ticks_ <> 0 -> exists msg, e = ValueError msg.
Proof.
  revert bar_length. induction items as [|[name0 bars0] items IH]; intros bar_length; simpl.
  - discriminate.
  - intros H Hticks.
    destruct (instruments_ !! name0); [|inversion H; eauto].
    destruct (Z.eqb_spec ticks_ 0); [contradiction|].
    destruct (negb (slen bars0 mod ticks_ =? 0)); [inversion H; eauto|].
    destruct ((0 <? bar_length) && negb (bar_length =? slen bars0)); [inversion H; eauto|].
    eapply IH; eassumption.
Qed.

Lemma check_patterns_OK (instruments_ : gmap string object) (ticks_ : Z) (ps : list pattern) :
  check_patterns instruments_ ticks_ ps = OK tt ->
  forall p, p ∈ ps -> check_bars instruments_ ticks_ 0 p = OK tt.
Proof.
  induction ps as [|p0 ps IH]; simpl; intros Hok p Hin.
  - inversion Hin.
  - unfold rbind in Hok.
    destruct (check_bars instruments_ ticks_ 0 p0) as [[]|] eqn:H0; [|discriminate].
    apply elem_of_cons in Hin as [->|Hin]; [exact H0 | apply IH; assumption].
Qed.

Lemma check_patterns_Raise (instruments_ : gmap string object) (ticks_ : Z)
    (ps : list pattern) (e : exn) :
  check_patterns instruments_ ticks_ ps = Raise e ->
  ticks_ <> 0 -> exists msg, e = ValueError msg.
Proof.
  induction ps as [|p0 ps IH]; simpl; [discriminate|]. unfold rbind.
  destruct (check_bars instruments_ ticks_ 0 p0) as [[]|e0] eqn:H0.
  - exact IH.
  - intros H Hticks. inversion H; subst. eapply check_bars_Raise; eassumption.
Qed.

Lemma Mixer_init_OK (patterns_ : list pattern) (bpm_ ticks_ : Z)
    (instruments_ : gmap string object) (m : Mixer) :
  Mixer_init patterns_ bpm_ ticks_ instruments_ = OK m ->
  m = mkMixer patterns_ bpm_ ticks_ instruments_
  /\ forall p, p ∈ patterns_ -> check_bars instruments_ ticks_ 0 p = OK tt.
Proof.
  unfold Mixer_init, rbind.
  destruct (check_patterns instruments_ ticks_ patterns_) as [[]|] eqn:Hok; [|discriminate].
  intros H; inversion H; subst. split; [reflexivity|].
  apply check_patterns_OK. exact Hok.
Qed.

(** C4 as the code has it.  Construction raises when a pattern names an
    instrument that is not in the table, has a bar whose length is not a
    multiple of [ticks], or has two bars that are not empty and differ in
    length; the exception is a [ValueError] unless [ticks] is 0. *)
Theorem Mixer_init_rejects (patterns_ : list pattern) (bpm_ ticks_ : Z)
    (instruments_ : gmap string object) (p : pattern) :
  p ∈ patterns_ ->
  (exists instrument bars, (instrument, bars) ∈ p
     /\ (instruments_ !! instrument = None \/ slen bars mod ticks_ <> 0))
  \/ (exists instrument1 bars1 instrument2 bars2,
        (instrument1, bars1) ∈ p /\ (instrument2, bars2) ∈ p
        /\ 0 < slen bars1 /\ 0 < slen bars2 /\ slen bars1 <> slen bars2) ->
  exists e, Mixer_init patterns_ bpm_ ticks_ instruments_ = Raise e
            /\ (ticks_ <> 0 -> exists msg, e = ValueError msg).
Proof.
  intros Hp Hbad. unfold Mixer_init, rbind.
  destruct (check_patterns instruments_ ticks_ patterns_) as [[]|e] eqn:Hcheck.
  - exfalso.
    pose proof (check_patterns_OK _ _ _ Hcheck p Hp) as Hok.
    destruct Hbad as [(instrument & bars & Hin & Hbad)
                     |(n1 & b1 & n2 & b2 & Hin1 & Hin2 & Hpos1 & Hpos2 & Hne)].
    + destruct (check_bars_OK _ _ _ _ Hok _ _ Hin) as (Hsome & _ & Hmod & _).
      destruct Hbad as [Hnone|Hnot]; [|contradiction].
      rewrite Hnone in Hsome. destruct Hsome; discriminate.
    + apply list_elem_of_lookup in Hin1 as [i Hi], Hin2 as [j Hj].
      destruct (Nat.lt_trichotomy i j) as [Hij|[Heq|Hji]].
      * pose proof (check_bars_lengths _ _ _ _ Hok i j _ _ Hij Hi Hj Hpos1). simpl in *. lia.
      * subst. rewrite Hi in Hj. inversion Hj. subst. contradiction.
      * pose proof (check_bars_lengths _ _ _ _ Hok j i _ _ Hji Hj Hi Hpos2). simpl in *. lia.
  - exists e. split; [reflexivity|]. eapply check_patterns_Raise. exact Hcheck.
Qed.

(** ** Mixer.mix *)

Lemma returns_bind {A B} (P R Q : Sample -> Prop) (m : method A) (k : A -> method B) :
  returns P m R -> (forall a, returns R (k a) Q) -> returns P (bind m k) Q.
Proof.
  intros Hm Hk self b self' HP H. unfold bind in H.
  destruct (m self) as [a s1|] eqn:Hms; [|discriminate].
  exact (Hk a s1 b self' (Hm _ _ _ HP Hms) H).
Qed.

Lemma returns_ret {A} (P : Sample -> Prop) (a : A) : returns P (ret a) P.
Proof. intros self a' self' HP H. inversion H; subst. exact HP. Qed.

Lemma returns_raise {A} (P Q : Sample -> Prop) (e : exn) : returns P (@raise A e) Q.
Proof. intros self a self' _ H. discriminate H. Qed.

Lemma returns_read {A} (P : Sample -> Prop) (f : Sample -> A) : returns P (read f) P.
Proof. intros self a self' HP H. inversion H; subst. exact HP. Qed.

Lemma returns_eval {A} (P : Sample -> Prop) (f : Sample -> result A) : returns P (eval f) P.
Proof.
  intros self a self' HP H. unfold eval in H.
  destruct (f self); inversion H; subst. exact HP.
Qed.

Lemma returns_assert (P : Sample -> Prop) (b : bool) : returns P (assert_ b) P.
Proof. destruct b; [apply returns_ret | apply returns_raise]. Qed.

Lemma returns_update (P Q : Sample -> Prop) (f : Sample -> Sample) :
  (forall self, P self -> Q (f self)) -> returns P (update f) Q.
Proof. intros Hf self a self' HP H. inversion H; subst. auto. Qed.

Lemma returns_weaken {A} (P Q Q' : Sample -> Prop) (m : method A) :
  returns P m Q -> (forall self, Q self -> Q' self) -> returns P m Q'.
Proof. intros Hm HQ self a self' HP H. eauto. Qed.

(** The steps that leave [self] as it is keep [P]; [keeps P] goes through
    a method whose updates keep [P]. *)
Ltac keeps :=
  repeat first
    [ apply returns_ret | apply returns_raise | apply returns_read
    | apply returns_eval | apply returns_assert
    | apply returns_update; intros [? ? ? ? ? ?]; simpl; tauto
    | match goal with
      | |- returns _ (if ?b then _ else _) _ => destruct b
      | |- returns _ (match ?x with _ => _ end) _ => destruct x
      | |- returns ?P (bind _ _) ?Q => apply (returns_bind P P Q); [|intros ?]
      end ].

Lemma same_format_keeps (P : Sample -> Prop) (self other : Sample) :
  returns P (same_format self other) P.
Proof. unfold same_format. keeps. Qed.

Lemma assert_not_locked_keeps (P : Sample -> Prop) : returns P assert_not_locked P.
Proof. unfold assert_not_locked. keeps. Qed.

Lemma _mix_split_frames_header (h : Z * Z * Z * bool * option string) (n start : Z) :
  returns (has_header h) (_mix_split_frames n start) (has_header h).
Proof.
  unfold _mix_split_frames, _mix_grow_if_needed, self_frames, has_header, header. keeps.
Qed.

(** [mix_at] changes the frames only, and leaves frames. *)
Lemma mix_at_header (h : Z * Z * Z * bool * option string) (seconds : float)
    (other : Sample) (o : option float) :
  returns (has_header h) (mix_at seconds other o)
          (fun self => has_header h self /\ is_Some (frames self)).
Proof.
  unfold mix_at.
  apply (returns_bind _ (has_header h)); [apply assert_not_locked_keeps | intros _].
  apply (returns_bind _ (has_header h)); [apply returns_read | intros self].
  apply (returns_bind _ (has_header h)); [apply same_format_keeps | intros _].
  apply (returns_bind _ (has_header h)); [apply returns_eval | intros start].
  apply (returns_bind _ (has_header h)); [apply returns_eval | intros o'].
  apply (returns_bind _ (has_header h)); [apply returns_eval | intros other_frames].
  apply (returns_bind _ (has_header h)); [apply _mix_split_frames_header | intros [[pre to_mix] post]].
  apply (returns_bind _ (has_header h));
    [apply returns_update; intros [? ? ? ? ? ?]; unfold has_header, header; simpl; tauto | intros _].
  apply (returns_bind _ (has_header h)); [apply returns_eval | intros mixed].
  apply returns_update. intros [? ? ? ? ? ?]. unfold has_header, header. simpl. eauto.
Qed.

Lemma place_header (h : Z * Z * Z * bool * option string) (verbose : bool) (total : float)
    (items : list (Z * float * Sample)) :
  returns (fun self => has_header h self /\ is_Some (frames self))
          (place verbose total items)
          (fun self => has_header h self /\ is_Some (frames self)).
Proof.
  set (P := fun self => has_header h self /\ is_Some (frames self)).
  induction items as [|[[index timestamp] sample] items IH]; simpl.
  - apply returns_ret.
  - apply (returns_bind P P); [destruct verbose; keeps | intros _].
    apply (returns_bind P P); [|intros _; exact IH].
    intros self a self' [Hh _]. apply mix_at_header. exact Hh.
Qed.

Lemma ltb_leb_zero (x : float) : (0 <? x)%float = true -> (0 <=? x)%float = true.
Proof.
  rewrite FloatAxioms.ltb_spec, FloatAxioms.leb_spec. unfold SFltb, SFleb.
  destruct (SFcompare (Prim2SF 0) (Prim2SF x)) as [[]|]; congruence.
Qed.

Lemma frame_idx_zero (self : Sample) :
  samplerate self = 44100 -> frame_idx self 0%float = OK 0.
Proof.
  intros Hr. unfold frame_idx. rewrite Hr.
  change (int_mul_float 44100 0) with (OK 0%float). simpl.
  change (int_of_float 0) with (OK 0). simpl. f_equal. lia.
Qed.

(** The end of [Mixer.mix] on a sample shorter than the total. *)
Lemma chop_or_extend_append (total : float) (mixed : Sample) (frames_ : bytes)
    (d : float) (n : Z) :
  locked mixed = false -> frames mixed = Some frames_ -> duration mixed = OK d ->
  (0 <? total - d)%float = true -> frame_idx mixed (total - d) = OK n -> 0 <= n ->
  chop_or_extend total mixed = Returned tt (set_frames (Some (frames_ ++ zeros n)) mixed).
Proof.
  intros Hl Hf Hd Hpos Hn Hn0. unfold chop_or_extend.
  unfold bind at 1. unfold eval at 1. rewrite Hd, Hpos.
  apply append_Returned; try assumption. lia.
Qed.

Section MixResult.

Variable audioop_mul : bytes -> Z -> float -> result bytes.

Lemma make_32bit_new :
  make_32bit audioop_mul true Sample_new = Returned tt (mkSample (Some []) 44100 2 4 false None).
Proof. reflexivity. Qed.

(** After the loop of [Mixer.mix] the sample is an unlocked 32 bit stereo
    sample at 44100 Hz, with frames. *)
Lemma mix_all_header (m : Mixer) (verbose : bool) (total : float) (mixed : Sample) :
  mix_all audioop_mul m verbose total Sample_new = Returned tt mixed ->
  header mixed = working_header /\ is_Some (frames mixed).
Proof.
  unfold mix_all. intros H.
  rewrite (bind_Returned _ _ _ _ _ make_32bit_new) in H.
  destruct (mixed_samples m) as [items r].
  revert H. set (P := fun self => has_header working_header self /\ is_Some (frames self)).
  apply (returns_bind P P P (place verbose total items)
           (fun _ => match r with Some e => raise e | None => ret tt end)).
  - apply place_header.
  - intros _. destruct r; [apply returns_raise | apply returns_ret].
  - split; [reflexivity | eexists; reflexivity].
Qed.

(** The end of [Mixer.mix] on such a sample, when it returns. *)
Lemma chop_or_extend_Returned (total : float) (mixed result_ : Sample) (frames_ : bytes) :
  header mixed = working_header -> frames mixed = Some frames_ ->
  chop_or_extend total mixed = Returned tt result_ ->
  exists d, duration mixed = OK d
    /\ if (0 <? total - d)%float then
         exists n, frame_idx mixed (total - d) = OK n /\ 0 <= n
                   /\ result_ = set_frames (Some (frames_ ++ zeros n)) mixed
       else if (total - d <? 0)%float then
         exists n, frame_idx mixed total = OK n /\ 0 <= n
                   /\ result_ = set_frames (Some (take (Z.to_nat n) frames_)) mixed
       else result_ = mixed.
Proof.
  intros Hh Hf H. unfold header, working_header in Hh.
  injection Hh as Hr Hc Hw Hl Hfn.
  unfold chop_or_extend in H. unfold bind at 1 in H. unfold eval at 1 in H.
  destruct (duration mixed) as [d|] eqn:Hd; [|discriminate]. exists d. split; [reflexivity|].
  destruct (0 <? total - d)%float eqn:Hpos.
  - unfold append in H.
    rewrite (bind_Returned _ _ _ _ _ (assert_not_locked_unlocked _ Hl)) in H.
    unfold bind at 1 in H. unfold eval at 1 in H.
    destruct (frame_idx mixed (total - d)) as [n|] eqn:Hn; [|discriminate].
    assert (Hn0 : 0 <= n).
    { apply (frame_idx_nonneg mixed (total - d)%float); try assumption; try lia.
      apply ltb_leb_zero. exact Hpos. }
    unfold self_frames, bind, eval, update, as_bytes, repeat_zero in H.
    replace (n <? - 2 ^ 63) with false in H by (symmetry; apply Z.ltb_ge; lia).
    rewrite Hf in H.
    inversion H; subst. exists n. split; [reflexivity|]. split; [exact Hn0 | reflexivity].
  - destruct (total - d <? 0)%float eqn:Hneg; [|inversion H; reflexivity].
    unfold cut in H.
    rewrite (bind_Returned _ _ _ _ _ (assert_not_locked_unlocked _ Hl)) in H.
    unfold bind at 1 in H. unfold assert_ in H.
    destruct (0 <? total)%float eqn:Htotal; [|discriminate].
    unfold ret at 1 in H.
    unfold bind at 1 in H. unfold eval at 1 in H. rewrite (frame_idx_zero mixed Hr) in H.
    unfold bind at 1 in H. unfold eval at 1 in H.
    destruct (frame_idx mixed total) as [n|] eqn:Hn; [|discriminate].
    assert (Hn0 : 0 <= n).
    { apply (frame_idx_nonneg mixed total); try assumption; try lia.
      apply ltb_leb_zero. exact Htotal. }
    unfold self_frames, bind, eval, update, ret, as_bytes in H. rewrite Hf in H.
    exists n. split; [reflexivity|]. split; [exact Hn0|].
    destruct (Z.eqb_spec n (len frames_)) as [Heq|Hne]; inversion H; subst.
    + rewrite take_ge by (unfold len; lia).
      symmetry. apply set_frames_same. exact Hf.
    + change (py_slice frames_ 0 n) with (slice_to frames_ n).
      rewrite slice_to_take by exact Hn0. reflexivity.
Qed.

Lemma Mixer_mix_OK (m : Mixer) (verbose : bool) (result_ : Sample) :
  patterns m <> [] -> Mixer_mix audioop_mul m verbose = OK result_ ->
  exists total mixed,
    total_seconds (bpm m) (ticks m) (patterns m) 0%float = OK total
    /\ mix_all audioop_mul m verbose total Sample_new = Returned tt mixed
    /\ chop_or_extend total mixed = Returned tt result_.
Proof.
  intros Hne H. unfold Mixer_mix in H.
  destruct (patterns m) as [|p ps] eqn:Hps; [contradiction|].
  unfold rbind in H.
  destruct (total_seconds (bpm m) (ticks m) (p :: ps) 0) as [total|]; [|discriminate].
  exists total. unfold bind in H.
  destruct (mix_all audioop_mul m verbose total Sample_new) as [[] mixed|]; [|discriminate].
  exists mixed. split; [reflexivity|]. split; [reflexivity|].
  destruct (chop_or_extend total mixed) as [[] s|]; inversion H; reflexivity.
Qed.

Lemma Mixer_mix_Returned (m : Mixer) (verbose : bool) (total : float)
    (mixed result_ : Sample) :
  patterns m <> [] ->
  total_seconds (bpm m) (ticks m) (patterns m) 0%float = OK total ->
  mix_all audioop_mul m verbose total Sample_new = Returned tt mixed ->
  chop_or_extend total mixed = Returned tt result_ ->
  Mixer_mix audioop_mul m verbose = OK result_.
Proof.
  intros Hne Htotal Hall Hend. unfold Mixer_mix.
  destruct (patterns m) as [|p ps]; [contradiction|].
  rewrite Htotal. unfold rbind, bind. rewrite Hall, Hend. reflexivity.
Qed.

(** C10. With no patterns [Mixer.mix] returns [Sample()]: an empty,
    unlocked sample of 44100 Hz, 2 channels and 2 byte samples.  With
    patterns, a sample it returns has 4 byte samples. *)
Theorem Mixer_mix_no_patterns (m : Mixer) (verbose : bool) :
  (patterns m = [] ->
   Mixer_mix audioop_mul m verbose = OK Sample_new
   /\ frames Sample_new = Some []
   /\ header Sample_new = (44100, 2, 2, false, None))
  /\ (patterns m <> [] ->
      forall result_, Mixer_mix audioop_mul m verbose = OK result_ -> sampwidth result_ = 4).
Proof.
  split.
  - intros Hp. unfold Mixer_mix. rewrite Hp. repeat split.
  - intros Hne result_ H.
    destruct (Mixer_mix_OK m verbose result_ Hne H) as (total & mixed & _ & Hall & Hend).
    destruct (mix_all_header _ _ _ _ Hall) as [Hh [frames_ Hf]].
    destruct (chop_or_extend_Returned _ _ _ _ Hh Hf Hend) as (d & _ & Hcases).
    injection Hh as _ _ Hw _ _.
    destruct (0 <? total - d)%float.
    + destruct Hcases as (n & _ & _ & ->). exact Hw.
    + destruct (total - d <? 0)%float.
      * destruct Hcases as (n & _ & _ & ->). exact Hw.
      * subst. exact Hw.
Qed.

End MixResult.

(** ** Examples *)

Lemma one_bar_mix : Mixer_mix mul_raises one_bar true = OK one_bar_result.
Proof.
  apply (Mixer_mix_Returned mul_raises one_bar true 0.46875%float one_bar_mixed).
  - discriminate.
  - reflexivity.
  - vm_compute. reflexivity.
  - apply (chop_or_extend_append 0.46875%float one_bar_mixed _ (8 / 44100 / 4 / 2)%float);
      [vm_compute; reflexivity .. | lia].
Qed.

Lemma one_bar_result_len :
  len ([x01; x00; x00; x00; x01; x00; x00; x00] ++ zeros 165360) = 8 * 20671.
Proof. rewrite len_app, len_zeros. reflexivity. Qed.

(** The counterexample to C1: one bar of four ticks at 128 bpm is 0.46875
    seconds, which is 20671.875 frames; [Mixer.mix] returns 20671 frames,
    and their duration is short of the total by more than [2^-16] seconds.
    And for a list of one pattern without bars, which the constructor
    takes, [Mixer.mix] raises. *)
Lemma Mixer_mix_duration_is_not_total :
  Mixer_init [[("kick", "x...")]] 128 4 kit = OK one_bar
  /\ total_seconds 128 4 (patterns one_bar) 0%float = OK 0.46875%float
  /\ (exists result_ frames_ d,
        Mixer_mix mul_raises one_bar true = OK result_
        /\ frames result_ = Some frames_ /\ len frames_ = 8 * 20671
        /\ duration result_ = OK d /\ (d + 0x1p-16 <? 0.46875)%float = true)
  /\ Mixer_init [[]] 128 4 kit = OK (mkMixer [[]] 128 4 kit)
  /\ Mixer_mix mul_raises (mkMixer [[]] 128 4 kit) true = Raise StopIteration.
Proof.
  split; [reflexivity|]. split; [reflexivity|]. split; [|split; reflexivity].
  exists one_bar_result. eexists. exists (165368 / 44100 / 4 / 2)%float.
  split; [exact one_bar_mix|]. split; [reflexivity|].
  split; [exact one_bar_result_len|]. split; [|vm_compute; reflexivity].
  unfold duration, one_bar_result, frames, as_bytes, rbind.
  rewrite one_bar_result_len. vm_compute. reflexivity.
Qed.

(** The counterexample to C4: a bar of length 0 is taken. *)
Lemma Mixer_init_takes_empty_bar :
  slen "" = 0 /\ Mixer_init [[("kick", "")]] 120 4 kit = OK (mkMixer [[("kick", "")]] 120 4 kit).
Proof. split; reflexivity. Qed.

Lemma Mixer_init_rejects_witness :
  exists e, Mixer_init [[("kick", "x..")]] 120 4 kit = Raise e
            /\ (4 <> 0 -> exists msg, e = ValueError msg).
Proof.
  apply (Mixer_init_rejects [[("kick", "x..")]] 120 4 kit [("kick", "x..")]).
  - apply list_elem_of_singleton. reflexivity.
  - left. exists "kick", "x..". split.
    + apply list_elem_of_singleton. reflexivity.
    + right. vm_compute. discriminate.
Defined.

(** ** duration and frame_idx *)

Lemma float_of_int_prim (n : Z) :
  0 <= n < 2 ^ 63 ->
  float_of_int n
  = let f := of_uint63 (Uint63.of_Z n) in if is_infinity f then Raise OverflowError else OK f.
Proof.
  intros Hn. unfold float_of_int.
  replace (SF2Prim (binary_normalize prec emax n 0 false)) with (of_uint63 (Uint63.of_Z n));
    [reflexivity|].
  rewrite <- (SF2Prim_Prim2SF (of_uint63 (Uint63.of_Z n))).
  rewrite of_uint63_spec, Uint63.of_Z_spec, Z.mod_small by exact Hn. reflexivity.
Qed.

(** The counterexample to C6: the buffer has 60 bytes, and the frame
    index of its duration is 56. *)
Lemma frame_idx_of_duration_falls_short :
  len (zeros 60) = 60
  /\ exists d, duration fifteen_frames = OK d /\ frame_idx fifteen_frames d = OK 56.
Proof. split; [reflexivity|]. eexists. split; vm_compute; reflexivity. Qed.

(** ** More examples *)

Lemma mix_pad_shortest_length_and_commutes_witness :
  exists mixed,
    mix soft None true loud = Returned tt (set_frames (Some mixed) loud)
    /\ len mixed = Z.max (len [xff; x7f; x02; x00; x03; x00; x04; x00]) (len [x01; x00; x01; x00])
    /\ (len [xff; x7f; x02; x00; x03; x00; x04; x00] = len [x01; x00; x01; x00] ->
        locked soft = false ->
        mix loud None true soft = Returned tt (set_frames (Some mixed) soft)).
Proof.
  apply (mix_pad_shortest_length_and_commutes loud soft
           [xff; x7f; x02; x00; x03; x00; x04; x00] [x01; x00; x01; x00]);
    try reflexivity; simpl; lia.
Defined.

(** [loud.mix(soft)]: the first sample saturates, the second frame is kept. *)
Example mix_loud_soft :
  mix soft None true loud
  = Returned tt (set_frames (Some [xff; x7f; x03; x00; x03; x00; x04; x00]) loud).
Proof. vm_compute. reflexivity. Qed.

Lemma mix_at_sums_region_witness :
  let grown := [xff; x7f; x02; x00; x03; x00; x04; x00]
                 ++ zeros (8 + len [x01; x00; x01; x00] - len [xff; x7f; x02; x00; x03; x00; x04; x00]) in
  exists mixed result,
    mix_at 0x1p-14%float soft None loud = Returned tt (set_frames (Some result) loud)
    /\ 0 <= 8
    /\ audioop_add (take (Z.to_nat (len [x01; x00; x01; x00])) (drop (Z.to_nat 8) grown))
                   [x01; x00; x01; x00] (sampwidth loud) = OK mixed
    /\ result = take (Z.to_nat 8) grown ++ mixed
                  ++ drop (Z.to_nat (8 + len [x01; x00; x01; x00])) grown
    /\ len result = len grown
    /\ (forall i : nat,
          Z.of_nat i < 8 \/ 8 + len [x01; x00; x01; x00] <= Z.of_nat i ->
          result !! i = grown !! i).
Proof.
  apply (mix_at_sums_region loud soft 0x1p-14%float
           [xff; x7f; x02; x00; x03; x00; x04; x00] [x01; x00; x01; x00] 8);
    try reflexivity; simpl; lia.
Defined.

(** [loud.mix_at(2^-14, soft)]: the time is the end of the second frame;
    the buffer grows by the frame of [soft]. *)
Example mix_at_loud_soft :
  mix_at 0x1p-14%float soft None loud
  = Returned tt (set_frames (Some [xff; x7f; x02; x00; x03; x00; x04; x00;
                                   x01; x00; x01; x00]) loud).
Proof. vm_compute. reflexivity. Qed.

(** At a negative time [mix_at] does not mix a region that starts at the
    frame index: here the index is -4, the slices of the two-frame buffer
    are its first frame and nothing, and [audioop.add] raises; the frames
    are [None] afterwards. *)
Example mix_at_negative_time :
  frame_idx loud (-0x1p-15)%float = OK (-4)
  /\ mix_at (-0x1p-15)%float soft None loud
     = Raised (audioop_error "Lengths should be the same") (set_frames None loud).
Proof. split; vm_compute; reflexivity. Qed.

(** A mono sample at 22050 Hz with 3 byte samples is normalized through
    all three conversions, when they return. *)
Example normalize_returns :
  normalize (fun f _ _ _ _ => OK (f ++ f)) (fun f _ _ _ => OK (f ++ f))
    (mkSample (Some [x01; x02; x03]) 22050 1 3 false None)
  = Returned tt (mkSample (Some [x02; x03; x02; x03; x02; x03; x02; x03]) 44100 2 2 false None).
Proof. vm_compute. reflexivity. Qed.

(** [mix_at(0, other)] on the empty 32 bit sample leaves the buffer of
    [other]. *)
Example mix_at_zero_on_empty_click :
  mix_at 0%float click None (mkSample (Some []) 44100 2 4 false None)
  = Returned tt (mkSample (frames click) 44100 2 4 false None).
Proof. vm_compute. reflexivity. Qed.

(** * More properties *)

(** ** Floats: small ints *)

Lemma digits2_pos_lower (p : positive) : 2 ^ (Zpos (digits2_pos p) - 1) <= Zpos p.
Proof.
  induction p as [p IH|p IH|]; simpl digits2_pos.
  - rewrite Pos2Z.inj_succ.
    replace (Z.succ (Z.pos (digits2_pos p)) - 1) with (Z.succ (Z.pos (digits2_pos p) - 1)) by lia.
    rewrite Z.pow_succ_r by lia. lia.
  - rewrite Pos2Z.inj_succ.
    replace (Z.succ (Z.pos (digits2_pos p)) - 1) with (Z.succ (Z.pos (digits2_pos p) - 1)) by lia.
    rewrite Z.pow_succ_r by lia. lia.
  - simpl. lia.
Qed.

Lemma digits2_pos_small (p : positive) : Zpos p < 2 ^ 53 -> Zpos (digits2_pos p) <= 53.
Proof.
  intros Hp. pose proof (digits2_pos_lower p) as Hl.
  destruct (Z.le_gt_cases (Zpos (digits2_pos p)) 53) as [|Hgt]; [assumption|].
  assert (2 ^ 53 <= 2 ^ (Z.pos (digits2_pos p) - 1)) by (apply Z.pow_le_mono_r; lia).
  lia.
Qed.

Lemma digits2_pos_iter_xO (p k : positive) :
  digits2_pos (Pos.iter xO p k) = (digits2_pos p + k)%positive.
Proof.
  induction k as [|k IH] using Pos.peano_ind.
  - simpl. lia.
  - rewrite Pos.iter_succ. simpl. rewrite IH. lia.
Qed.

(** A mantissa of 53 digits with an exponent in range is its own rounding. *)
Lemma binary_round_aux_canonical (s : bool) (mz : positive) (ez : Z) :
  Z.pos (digits2_pos mz) = 53 -> -1074 <= ez <= 971 ->
  binary_round_aux prec emax s (Z.pos mz) ez loc_Exact = S754_finite s mz ez.
Proof.
  intros Hmz He.
  assert (Hfez : fexp prec emax (53 + ez) = ez).
  { unfold fexp, emin, prec, emax. lia. }
  assert (Hle : (ez <=? emax - prec) = true).
  { apply Z.leb_le. unfold emax, prec. lia. }
  unfold binary_round_aux, shr_fexp. simpl Zdigits2.
  rewrite Hmz, Hfez, Z.sub_diag. simpl shr. cbv iota beta.
  simpl shr_m. simpl loc_of_shr_record. simpl round_nearest_even. simpl Zdigits2.
  rewrite Hmz, Hfez, Z.sub_diag. simpl. rewrite Hle. reflexivity.
Qed.

(** A non-zero int below [2^53] in magnitude is a finite float of its sign. *)
Lemma binary_round_small (s : bool) (p : positive) :
  Zpos p < 2 ^ 53 ->
  exists m e, binary_round prec emax s p 0 = S754_finite s m e
              /\ valid_binary (S754_finite s m e) = true.
Proof.
  intros Hp. pose proof (digits2_pos_small p Hp) as Hd.
  assert (Hfexp : fexp prec emax (Z.pos (digits2_pos p) + 0) = Z.pos (digits2_pos p) - 53).
  { unfold fexp, emin, prec, emax. lia. }
  assert (Hvalid : forall mz ez, Z.pos (digits2_pos mz) = 53 -> -1074 <= ez <= 971 ->
                                 valid_binary (S754_finite s mz ez) = true).
  { intros mz ez Hmz He. unfold SpecFloat.valid_binary, bounded, canonical_mantissa.
    rewrite Hmz.
    replace (fexp prec emax (53 + ez)) with ez by (unfold fexp, emin, prec, emax; lia).
    rewrite Z.eqb_refl. apply Z.leb_le. unfold emax, prec. lia. }
  unfold binary_round. rewrite Hfexp. unfold shl_align.
  destruct (Z.pos (digits2_pos p) - 53 - 0) as [|k|k] eqn:Hk; [| lia |].
  - exists p, 0. split; [apply binary_round_aux_canonical | apply Hvalid]; lia.
  - assert (Hmz : Z.pos (digits2_pos (Pos.iter xO p k)) = 53).
    { rewrite digits2_pos_iter_xO. lia. }
    exists (Pos.iter xO p k), (Z.pos (digits2_pos p) - 53).
    split; [apply binary_round_aux_canonical | apply Hvalid]; lia.
Qed.

Lemma is_infinity_finite (f : float) (s : bool) (m : positive) (e : Z) :
  Prim2SF f = S754_finite s m e -> is_infinity f = false.
Proof.
  intros Hf. unfold is_infinity. rewrite FloatAxioms.eqb_spec, abs_spec, Hf. reflexivity.
Qed.

Lemma eqb_zero_finite (f : float) (s : bool) (m : positive) (e : Z) :
  Prim2SF f = S754_finite s m e -> (f =? 0)%float = false.
Proof.
  intros Hf. rewrite FloatAxioms.eqb_spec, Hf. destruct s; reflexivity.
Qed.

Lemma float_of_int_small (n : Z) :
  n <> 0 -> - 2 ^ 53 < n < 2 ^ 53 ->
  exists f m e, float_of_int n = OK f /\ Prim2SF f = S754_finite (n <? 0) m e.
Proof.
  intros Hn0 Hn. unfold float_of_int.
  destruct n as [|p|p]; [congruence | |]; simpl binary_normalize.
  - destruct (binary_round_small false p) as (m & e & Hr & Hv); [lia|].
    rewrite Hr. exists (SF2Prim (S754_finite false m e)), m, e.
    pose proof (Prim2SF_SF2Prim _ Hv) as H.
    rewrite (is_infinity_finite _ _ _ _ H). split; [reflexivity | exact H].
  - destruct (binary_round_small true p) as (m & e & Hr & Hv); [lia|].
    rewrite Hr. exists (SF2Prim (S754_finite true m e)), m, e.
    pose proof (Prim2SF_SF2Prim _ Hv) as H.
    rewrite (is_infinity_finite _ _ _ _ H). split; [reflexivity | exact H].
Qed.

Lemma float_of_int_zero : float_of_int 0 = OK 0%float.
Proof. reflexivity. Qed.

(** Division by a non-zero int below [2^53] in magnitude raises nothing. *)
Lemma float_div_int_small (x : float) (n : Z) :
  n <> 0 -> - 2 ^ 53 < n < 2 ^ 53 ->
  exists y m e, float_div_int x n = OK y
                /\ Prim2SF y = SFdiv prec emax (Prim2SF x) (S754_finite (n <? 0) m e).
Proof.
  intros Hn0 Hn. destruct (float_of_int_small n Hn0 Hn) as (f & m & e & Hf & Hsf).
  unfold float_div_int, float_div. rewrite Hf. simpl.
  rewrite (eqb_zero_finite _ _ _ _ Hsf).
  exists (x / f)%float, m, e. split; [reflexivity|].
  rewrite div_spec, Hsf. reflexivity.
Qed.

Lemma float_div_int_zero (x : float) : float_div_int x 0 = Raise ZeroDivisionError.
Proof. reflexivity. Qed.

(** Rounding a mantissa that is not negative gives no NaN. *)
Lemma iter_pos_shr_1_nonneg (p : positive) (mrs : shr_record) :
  0 <= shr_m mrs -> 0 <= shr_m (SpecFloat.iter_pos shr_1 p mrs).
Proof.
  revert mrs. induction p as [p IH|p IH|]; intros mrs Hm; simpl.
  - apply IH, IH. destruct mrs as [[|[q|q|]|q] r s']; simpl in *; lia.
  - apply IH, IH. exact Hm.
  - destruct mrs as [[|[q|q|]|q] r s']; simpl in *; lia.
Qed.

Lemma shr_fexp_nonneg (m e : Z) (l : location) :
  0 <= m -> 0 <= shr_m (fst (shr_fexp prec emax m e l)).
Proof.
  intros Hm. unfold shr_fexp, shr.
  assert (H0 : 0 <= shr_m (shr_record_of_loc m l)) by (destruct l as [|[]]; exact Hm).
  destruct (fexp prec emax (Zdigits2 m + e) - e); simpl; try exact H0.
  apply iter_pos_shr_1_nonneg, H0.
Qed.

Lemma binary_round_aux_not_nan (s : bool) (m e : Z) (l : location) :
  0 <= m -> binary_round_aux prec emax s m e l <> S754_nan.
Proof.
  intros Hm. unfold binary_round_aux.
  pose proof (shr_fexp_nonneg m e l Hm) as H1.
  destruct (shr_fexp prec emax m e l) as [mrs' e']. simpl in H1.
  assert (H2 : 0 <= round_nearest_even (shr_m mrs') (loc_of_shr_record mrs')).
  { unfold round_nearest_even. destruct (loc_of_shr_record mrs') as [|[]]; try lia.
    destruct (Z.even (shr_m mrs')); lia. }
  pose proof (shr_fexp_nonneg _ e' loc_Exact H2) as H3.
  destruct (shr_fexp prec emax _ e' loc_Exact) as [mrs'' e'']. simpl in H3.
  destruct (shr_m mrs''); [discriminate | | lia].
  destruct (Z.leb e'' (emax - prec)); discriminate.
Qed.

(** A float that is zero or finite, divided by a finite float: not a NaN,
    and of the sign of the two. *)
Lemma SFdiv_finite (x : spec_float) (sx sy : bool) (my : positive) (ey : Z) :
  has_sign sx x -> x <> S754_nan ->
  let q := SFdiv prec emax x (S754_finite sy my ey) in
  q <> S754_nan /\ has_sign (xorb sx sy) q.
Proof.
  intros Hs Hn. destruct x as [s|s| |s mx ex]; simpl in *; subst;
    try (split; [discriminate | reflexivity]); [congruence|].
  destruct (SFdiv_core_binary prec emax (Z.pos mx) ex (Z.pos my) ey) as [[mz ez] lz] eqn:Hc.
  split; [|apply binary_round_aux_sign].
  apply binary_round_aux_not_nan.
  unfold SFdiv_core_binary in Hc.
  destruct (Z.div_eucl _ (Z.pos my)) as [q r] eqn:Hq in Hc.
  inversion Hc; subst; clear Hc.
  match type of Hq with Z.div_eucl ?a ?b = _ =>
    pose proof (Z.div_eucl_eq a b ltac:(lia)) as Heq;
    pose proof (Z.mod_pos_bound a b ltac:(lia)) as Hmod;
    assert (Ha : 0 <= a);
    [| unfold Z.modulo in Hmod; rewrite Hq in Heq, Hmod; nia ]
  end.
  destruct (ex - ey - _) eqn:He; try lia.
  apply Z.shiftl_nonneg. lia.
Qed.

Lemma leb_zero_of_sign (x : float) :
  Prim2SF x <> S754_nan -> has_sign false (Prim2SF x) -> (0 <=? x)%float = true.
Proof.
  rewrite FloatAxioms.leb_spec. change (Prim2SF 0) with (S754_zero false).
  destruct (Prim2SF x) as [[]|[]| |[] m e]; simpl; intros Hn Hs;
    try reflexivity; try discriminate; congruence.
Qed.

(** ** frame_idx and duration on every sample *)

(** X1.  [Sample.frame_idx]: the index is a whole number of frames, not negative
    for a time that is not negative and not positive for a negative time. *)
Theorem frame_idx_whole_frames (self : Sample) (seconds : float) (idx : Z) :
  0 < samplerate self < 2 ^ 63 -> 0 <= nchannels self -> 0 <= sampwidth self ->
  frame_idx self seconds = OK idx ->
  (nchannels self * sampwidth self | idx)
  /\ ((0 <=? seconds)%float = true -> 0 <= idx)
  /\ ((seconds <? 0)%float = true -> idx <= 0).
Proof.
  intros Hr Hc Hw Hidx. split; [|split].
  - unfold frame_idx, rbind in Hidx.
    destruct (int_mul_float _ _); [|discriminate].
    destruct (int_of_float _) as [k|]; [|discriminate].
    inversion Hidx. exists k. lia.
  - intros Hs. exact (frame_idx_nonneg self seconds idx Hr Hc Hw Hs Hidx).
  - intros Hs. exact (frame_idx_nonpos self seconds idx Hr Hc Hw Hs Hidx).
Qed.

Lemma frame_idx_whole_frames_witness :
  (nchannels two_frames * sampwidth two_frames | 4)
  /\ ((0 <=? 0x1p-15)%float = true -> 0 <= 4)
  /\ ((0x1p-15 <? 0)%float = true -> 4 <= 0).
Proof.
  apply (frame_idx_whole_frames two_frames 0x1p-15%float 4); simpl; try lia.
  reflexivity.
Defined.

(** X2.  [Sample.frame_idx] of a time that is no number or not finite raises:
    [int()] refuses a NaN with [ValueError] and an infinity with
    [OverflowError]. *)
Theorem frame_idx_rejects_nan_and_infinity (self : Sample) :
  0 < samplerate self < 2 ^ 53 ->
  frame_idx self nan = Raise (ValueError "cannot convert float NaN to integer")
  /\ frame_idx self infinity = Raise OverflowError
  /\ frame_idx self neg_infinity = Raise OverflowError.
Proof.
  intros Hr.
  destruct (float_of_int_small (samplerate self)) as (f & m & e & Hf & Hsf); [lia | lia |].
  replace (samplerate self <? 0) with false in Hsf by (symmetry; apply Z.ltb_ge; lia).
  unfold frame_idx, int_mul_float, int_of_float. rewrite Hf. simpl.
  rewrite !mul_spec, Hsf. repeat split; reflexivity.
Qed.

Lemma frame_idx_rejects_nan_and_infinity_witness :
  frame_idx two_frames nan = Raise (ValueError "cannot convert float NaN to integer")
  /\ frame_idx two_frames infinity = Raise OverflowError
  /\ frame_idx two_frames neg_infinity = Raise OverflowError.
Proof. apply (frame_idx_rejects_nan_and_infinity two_frames). simpl. lia. Defined.

Lemma int_truediv_small (a b : Z) :
  0 <= a < 2 ^ 53 -> 0 < b < 2 ^ 53 ->
  exists q, int_truediv a b = OK q /\ Prim2SF q <> S754_nan /\ has_sign false (Prim2SF q)
            /\ (a = 0 -> Prim2SF q = S754_zero false).
Proof.
  intros Ha Hb. unfold int_truediv.
  destruct (Z.eqb_spec b 0) as [|_]; [lia|].
  destruct (float_of_int_small b) as (y & m & e & Hy & Hsy); [lia | lia |].
  replace (b <? 0) with false in Hsy by (symmetry; apply Z.ltb_ge; lia).
  rewrite Hy. destruct (Z.eq_dec a 0) as [->|Ha0].
  - simpl. eexists. split; [reflexivity|].
    rewrite div_spec, Hsy. change (Prim2SF 0) with (S754_zero false). simpl.
    repeat split; discriminate.
  - destruct (float_of_int_small a) as (x & mx & ex & Hx & Hsx); [lia | lia |].
    replace (a <? 0) with false in Hsx by (symmetry; apply Z.ltb_ge; lia).
    rewrite Hx. simpl. eexists. split; [reflexivity|].
    rewrite div_spec, Hsy.
    destruct (SFdiv_finite (Prim2SF x) false false m e) as [Hn Hs].
    + rewrite Hsx. reflexivity.
    + rewrite Hsx. discriminate.
    + repeat split; [exact Hn | exact Hs | lia].
Qed.

Lemma float_div_int_sign (x : float) (n : Z) :
  0 < n < 2 ^ 53 -> Prim2SF x <> S754_nan -> has_sign false (Prim2SF x) ->
  exists q, float_div_int x n = OK q /\ Prim2SF q <> S754_nan /\ has_sign false (Prim2SF q)
            /\ (Prim2SF x = S754_zero false -> Prim2SF q = S754_zero false).
Proof.
  intros Hn Hx Hs.
  destruct (float_div_int_small x n) as (q & m & e & Hq & Hsq); [lia | lia |].
  replace (n <? 0) with false in Hsq by (symmetry; apply Z.ltb_ge; lia).
  exists q. split; [exact Hq|]. rewrite Hsq.
  destruct (SFdiv_finite (Prim2SF x) false false m e Hs Hx) as [Hn' Hs'].
  repeat split; [exact Hn' | exact Hs' |].
  intros ->. reflexivity.
Qed.

(** The duration of a sample with a positive rate, width and number of
    channels. *)
Lemma duration_OK (self : Sample) (frames_ : bytes) :
  frames self = Some frames_ -> len frames_ < 2 ^ 53 ->
  0 < samplerate self < 2 ^ 53 -> 0 < sampwidth self < 2 ^ 53 ->
  0 < nchannels self < 2 ^ 53 ->
  exists d, duration self = OK d /\ (0 <=? d)%float = true
            /\ (frames_ = [] -> d = 0%float).
Proof.
  intros Hf Hlen Hr Hw Hc. pose proof (len_nonneg frames_) as Hl.
  unfold duration, as_bytes. rewrite Hf. simpl.
  destruct (int_truediv_small (len frames_) (samplerate self)) as (a & Ha & Han & Has & Ha0);
    [lia | lia |].
  rewrite Ha. simpl.
  destruct (float_div_int_sign a (sampwidth self) Hw Han Has) as (b & Hb & Hbn & Hbs & Hb0).
  rewrite Hb. simpl.
  destruct (float_div_int_sign b (nchannels self) Hc Hbn Hbs) as (d & Hd & Hdn & Hds & Hd0).
  exists d. split; [exact Hd|]. split; [apply leb_zero_of_sign; assumption|].
  intros ->. apply Prim2SF_inj. apply Hd0, Hb0, Ha0. reflexivity.
Qed.

Lemma duration_ZeroDivisionError (self : Sample) (frames_ : bytes) :
  frames self = Some frames_ -> len frames_ < 2 ^ 53 ->
  0 <= samplerate self < 2 ^ 53 -> 0 <= sampwidth self < 2 ^ 53 ->
  0 <= nchannels self < 2 ^ 53 ->
  samplerate self = 0 \/ sampwidth self = 0 \/ nchannels self = 0 ->
  duration self = Raise ZeroDivisionError.
Proof.
  intros Hf Hlen Hr Hw Hc Hz. pose proof (len_nonneg frames_) as Hl.
  unfold duration, as_bytes. rewrite Hf. simpl.
  destruct (Z.eq_dec (samplerate self) 0) as [Hr0|Hr0].
  { unfold int_truediv. rewrite Hr0. reflexivity. }
  destruct (int_truediv_small (len frames_) (samplerate self)) as (a & Ha & Han & Has & _);
    [lia | lia |].
  rewrite Ha. simpl.
  destruct (Z.eq_dec (sampwidth self) 0) as [Hw0|Hw0].
  { rewrite Hw0. reflexivity. }
  destruct (float_div_int_sign a (sampwidth self) ltac:(lia) Han Has) as (b & Hb & _).
  rewrite Hb. simpl.
  assert (Hc0 : nchannels self = 0) by (destruct Hz as [|[|]]; congruence).
  rewrite Hc0. reflexivity.
Qed.

(** X3.  [Sample.duration]: with a rate, a width or a number of channels of 0
    it raises [ZeroDivisionError]; otherwise it returns a duration that is
    not negative, and 0 for the empty buffer. *)
Theorem duration_returns_or_divides_by_zero (self : Sample) (frames_ : bytes) :
  frames self = Some frames_ -> len frames_ < 2 ^ 53 ->
  0 <= samplerate self < 2 ^ 53 -> 0 <= sampwidth self < 2 ^ 53 ->
  0 <= nchannels self < 2 ^ 53 ->
  if (samplerate self =? 0) || (sampwidth self =? 0) || (nchannels self =? 0) then
    duration self = Raise ZeroDivisionError
  else
    exists d, duration self = OK d /\ (0 <=? d)%float = true
              /\ (frames_ = [] -> d = 0%float).
Proof.
  intros Hf Hlen Hr Hw Hc.
  destruct (Z.eqb_spec (samplerate self) 0) as [Hr0|Hr0]; simpl.
  { apply (duration_ZeroDivisionError self frames_); auto. }
  destruct (Z.eqb_spec (sampwidth self) 0) as [Hw0|Hw0]; simpl.
  { apply (duration_ZeroDivisionError self frames_); auto. }
  destruct (Z.eqb_spec (nchannels self) 0) as [Hc0|Hc0]; simpl.
  { apply (duration_ZeroDivisionError self frames_); auto. }
  apply (duration_OK self frames_); try assumption; lia.
Qed.

Lemma duration_returns_or_divides_by_zero_witness :
  (exists d, duration two_frames = OK d /\ (0 <=? d)%float = true
             /\ ([x01; x02; x03; x04; x05; x06; x07; x08] = [] -> d = 0%float))
  /\ duration (mkSample (Some [x01; x02]) 44100 0 2 false None) = Raise ZeroDivisionError.
Proof.
  split.
  - apply (duration_returns_or_divides_by_zero two_frames
             [x01; x02; x03; x04; x05; x06; x07; x08]);
      [reflexivity | vm_compute; reflexivity | simpl; lia ..].
  - apply (duration_returns_or_divides_by_zero
             (mkSample (Some [x01; x02]) 44100 0 2 false None) [x01; x02]);
      [reflexivity | vm_compute; reflexivity | simpl; lia ..].
Defined.

(** ** Sample.__init__ *)

(** X4.  [Sample(frames, duration=d)] with [d > 0]: [ValueError] when frames are
    given; without frames a buffer of [frame_idx(d)] zero bytes, a whole
    number of 16 bit stereo frames, in an unlocked sample of the normal
    format. *)
Theorem Sample_init_duration (frames_ : bytes) (duration_ : float) (idx : Z) :
  (0 <? duration_)%float = true -> frame_idx Sample_new duration_ = OK idx ->
  (frames_ <> [] ->
   Sample_init frames_ duration_
   = Raise (ValueError "cannot specify a duration if frames are provided"))
  /\ Sample_init [] duration_ = OK (mkSample (Some (zeros idx)) 44100 2 2 false None)
  /\ 0 <= idx /\ (4 | idx).
Proof.
  intros Hd Hidx.
  assert (Hidx0 : 0 <= idx).
  { apply (frame_idx_nonneg Sample_new duration_); simpl;
      unfold norm_samplerate, norm_nchannels, norm_sampwidth; try lia; [|exact Hidx].
    apply ltb_leb_zero, Hd. }
  split; [|split; [|split]].
  - intros Hne. unfold Sample_init. rewrite Hd.
    destruct frames_ as [|b l]; [congruence|]. reflexivity.
  - unfold Sample_init. rewrite Hd. simpl.
    rewrite (append_Returned _ [] duration_ idx);
      [reflexivity | reflexivity | reflexivity | exact Hidx | lia].
  - exact Hidx0.
  - unfold frame_idx, rbind in Hidx.
    destruct (int_mul_float _ _); [|discriminate].
    destruct (int_of_float _) as [k|]; [|discriminate].
    injection Hidx as <-. exists k. simpl. unfold norm_nchannels, norm_sampwidth. lia.
Qed.

Lemma Sample_init_duration_witness :
  ([x01] <> [] ->
   Sample_init [x01] 0x1p-14%float
   = Raise (ValueError "cannot specify a duration if frames are provided"))
  /\ Sample_init [] 0x1p-14%float = OK (mkSample (Some (zeros 8)) 44100 2 2 false None)
  /\ 0 <= 8 /\ (4 | 8).
Proof. apply (Sample_init_duration [x01] 0x1p-14%float 8); reflexivity. Defined.

(** ** cut *)

Lemma len_take_drop {A} (l : list A) (a n : Z) :
  0 <= a -> len (take (Z.to_nat n) (drop (Z.to_nat a) l)) = Z.max (Z.min n (len l - a)) 0.
Proof.
  intros Ha. unfold len. rewrite length_take, length_drop. lia.
Qed.

(** X5.  [Sample.cut] between two frame indices, the first not negative and not
    after the second, and the second not the length of the buffer: the
    buffer becomes its bytes from the first index up to the second, or up to
    its end where the second is past it; the format stays. *)
Theorem cut_leaves_the_slice (self : Sample) (frames_ : bytes)
    (start_seconds end_seconds : float) (start end_ : Z) :
  locked self = false -> frames self = Some frames_ ->
  (start_seconds <? end_seconds)%float = true ->
  frame_idx self start_seconds = OK start -> frame_idx self end_seconds = OK end_ ->
  0 <= start <= end_ -> end_ <> len frames_ ->
  let stop := Z.min end_ (len frames_) in
  exists kept,
    cut start_seconds end_seconds self = Returned tt (set_frames (Some kept) self)
    /\ kept = take (Z.to_nat (stop - start)) (drop (Z.to_nat start) frames_)
    /\ len kept = Z.max (stop - start) 0
    /\ (forall i : nat, Z.of_nat i < stop - start ->
                        kept !! i = frames_ !! (Z.to_nat start + i)%nat).
Proof.
  intros Hl Hf Hlt Hs He Hse Hne stop.
  pose proof (len_nonneg frames_) as Hn.
  assert (Hslice : py_slice frames_ start end_
                   = take (Z.to_nat (stop - start)) (drop (Z.to_nat start) frames_)).
  { unfold py_slice, slice_index, stop.
    destruct (Z.ltb_spec start 0); [lia|]. destruct (Z.ltb_spec end_ 0); [lia|].
    destruct (Z.le_gt_cases start (len frames_)).
    - rewrite (Z.min_l start) by lia. reflexivity.
    - rewrite (Z.min_r start), (Z.min_r end_) by lia.
      rewrite Z.sub_diag. replace (Z.to_nat (len frames_ - start)) with O by lia.
      reflexivity. }
  eexists. split; [|split; [reflexivity|split]].
  - rewrite (cut_Returned self frames_ _ _ start end_) by assumption.
    destruct (Z.eqb_spec end_ (len frames_)); [contradiction|].
    rewrite Hslice. reflexivity.
  - rewrite len_take_drop by lia. unfold stop. lia.
  - intros i Hi. etransitivity; [apply lookup_take_lt; lia | apply lookup_drop].
Qed.

Lemma cut_leaves_the_slice_witness :
  let stop := Z.min 4 (len [x01; x02; x03; x04; x05; x06; x07; x08]) in
  exists kept,
    cut 0%float 0x1p-15%float two_frames = Returned tt (set_frames (Some kept) two_frames)
    /\ kept = take (Z.to_nat (stop - 0)) (drop (Z.to_nat 0) [x01; x02; x03; x04; x05; x06; x07; x08])
    /\ len kept = Z.max (stop - 0) 0
    /\ (forall i : nat, Z.of_nat i < stop - 0 ->
                        kept !! i = [x01; x02; x03; x04; x05; x06; x07; x08] !! (Z.to_nat 0 + i)%nat).
Proof.
  apply (cut_leaves_the_slice two_frames [x01; x02; x03; x04; x05; x06; x07; x08]
           0%float 0x1p-15%float 0 4);
    try reflexivity; [lia | vm_compute; discriminate].
Defined.

(** ** What a call that raises leaves *)

Lemma quiet_ret {A} (a : A) : quiet (ret a).
Proof. intros self. reflexivity. Qed.

Lemma quiet_raise {A} (e : exn) : quiet (@raise A e).
Proof. intros self. reflexivity. Qed.

Lemma quiet_read {A} (f : Sample -> A) : quiet (read f).
Proof. intros self. reflexivity. Qed.

Lemma quiet_eval {A} (f : Sample -> result A) : quiet (eval f).
Proof. intros self. unfold eval. destruct (f self); reflexivity. Qed.

Lemma quiet_assert (b : bool) : quiet (assert_ b).
Proof. intros self. destruct b; reflexivity. Qed.

Lemma quiet_bind {A B} (m : method A) (k : A -> method B) :
  quiet m -> (forall a, quiet (k a)) -> quiet (bind m k).
Proof.
  intros Hm Hk self. unfold bind. specialize (Hm self).
  destruct (m self) as [a s|e s]; subst; [apply Hk | reflexivity].
Qed.

Lemma quiet_assert_not_locked : quiet assert_not_locked.
Proof. apply quiet_bind; [apply quiet_read | intros a; apply quiet_assert]. Qed.

Lemma quiet_same_format (self other : Sample) : quiet (same_format self other).
Proof. repeat (apply quiet_bind; [|intros ?]); apply quiet_assert. Qed.

Lemma quiet_self_frames : quiet self_frames.
Proof. apply quiet_eval. Qed.

Lemma all_or_nothing_quiet {A} (m : method A) : quiet m -> all_or_nothing m.
Proof. intros Hm self e self' H. specialize (Hm self). rewrite H in Hm. exact Hm. Qed.

Lemma all_or_nothing_update (f : Sample -> Sample) : all_or_nothing (update f).
Proof. intros self e self' H. discriminate H. Qed.

Lemma all_or_nothing_bind {A B} (m : method A) (k : A -> method B) :
  quiet m -> (forall a, all_or_nothing (k a)) -> all_or_nothing (bind m k).
Proof.
  intros Hm Hk self e self'. unfold bind. specialize (Hm self).
  destruct (m self) as [a s|e' s]; subst.
  - apply Hk.
  - intros H. inversion H. reflexivity.
Qed.

Lemma all_or_nothing_updates (f g : Sample -> Sample) :
  all_or_nothing (update f ;; update g).
Proof. intros self e self' H. discriminate H. Qed.

Ltac quiet_steps :=
  repeat first
    [ apply quiet_ret | apply quiet_raise | apply quiet_read | apply quiet_eval
    | apply quiet_assert | apply quiet_assert_not_locked | apply quiet_same_format
    | apply quiet_self_frames
    | apply quiet_bind; [|intros ?] ].

Ltac all_or_nothing_steps :=
  repeat first
    [ apply all_or_nothing_updates | apply all_or_nothing_update
    | apply all_or_nothing_bind; [solve [quiet_steps] | intros ?]
    | apply all_or_nothing_quiet; solve [quiet_steps]
    | match goal with
      | |- all_or_nothing (if ?b then _ else _) => destruct b
      | |- all_or_nothing (let '(_, _) := ?p in _) => destruct p
      end ].

Lemma cut_all_or_nothing (s1 s2 : float) : all_or_nothing (cut s1 s2).
Proof. unfold cut. all_or_nothing_steps. Qed.

Lemma append_all_or_nothing (seconds : float) : all_or_nothing (append seconds).
Proof. unfold append. all_or_nothing_steps. Qed.

Lemma mix_all_or_nothing (other : Sample) (o : option float) (pad : bool) :
  all_or_nothing (mix other o pad).
Proof.
  unfold mix. all_or_nothing_steps.
Qed.

Section Raising.

Variable audioop_mul : bytes -> Z -> float -> result bytes.

(** X6.  A call of [cut], [append], [mix], [amplify], [amplify_max] or
    [make_32bit] that raises leaves the sample as it was: each of them
    assigns the buffer in its last statement only. *)
Theorem raising_leaves_the_sample (self self' : Sample) (e : exn) :
  (forall start_seconds end_seconds,
      cut start_seconds end_seconds self = Raised e self' -> self' = self)
  /\ (forall seconds, append seconds self = Raised e self' -> self' = self)
  /\ (forall other other_seconds pad_shortest,
         mix other other_seconds pad_shortest self = Raised e self' -> self' = self)
  /\ (forall factor, amplify audioop_mul factor self = Raised e self' -> self' = self)
  /\ (amplify_max audioop_mul self = Raised e self' -> self' = self)
  /\ (forall scale_amplitude,
         make_32bit audioop_mul scale_amplitude self = Raised e self' -> self' = self).
Proof.
  repeat split; intros.
  - eapply cut_all_or_nothing; eassumption.
  - eapply append_all_or_nothing; eassumption.
  - eapply mix_all_or_nothing; eassumption.
  - assert (Ha : all_or_nothing (amplify audioop_mul factor))
      by (unfold amplify; all_or_nothing_steps).
    eapply Ha; eassumption.
  - assert (Ha : all_or_nothing (amplify_max audioop_mul))
      by (unfold amplify_max; all_or_nothing_steps).
    eapply Ha; eassumption.
  - assert (Ha : all_or_nothing (make_32bit audioop_mul scale_amplitude))
      by (unfold make_32bit; all_or_nothing_steps).
    eapply Ha; eassumption.
Qed.

End Raising.

Lemma bind_Raised_inv {A B} (m : method A) (k : A -> method B) (self self' : Sample) (e : exn) :
  bind m k self = Raised e self' ->
  m self = Raised e self'
  \/ exists a s, m self = Returned a s /\ k a s = Raised e self'.
Proof.
  unfold bind. destruct (m self) as [a s|e' s]; intros H.
  - right. exists a, s. split; [reflexivity | exact H].
  - left. inversion H. reflexivity.
Qed.

Lemma quiet_Returned {A} (m : method A) (self s : Sample) (a : A) :
  quiet m -> m self = Returned a s -> s = self.
Proof. intros Hq H. specialize (Hq self). rewrite H in Hq. exact Hq. Qed.

Lemma quiet_Raised {A} (m : method A) (self s : Sample) (e : exn) :
  quiet m -> m self = Raised e s -> s = self.
Proof. intros Hq H. specialize (Hq self). rewrite H in Hq. exact Hq. Qed.

Lemma audioop_add_Raise (fragment1 fragment2 : bytes) (width : Z) (e : exn) :
  audioop_add fragment1 fragment2 width = Raise e -> exists msg, e = audioop_error msg.
Proof.
  unfold audioop_add, audioop_check_parameters, audioop_check_size, rbind.
  destruct ((1 <=? width) && (width <=? 4)).
  - destruct (len fragment1 mod width =? 0).
    + destruct (len fragment1 =? len fragment2); intros H; inversion H. eauto.
    + intros H; inversion H. eauto.
  - intros H; inversion H. eauto.
Qed.

(** [_mix_split_frames] raises before it changes the sample, or returns
    with a buffer. *)
Lemma mix_split_frames_outcome (n start : Z) (self : Sample) :
  (exists e, _mix_split_frames n start self = Raised e self)
  \/ (exists parts grown, _mix_split_frames n start self
                          = Returned parts (set_frames (Some grown) self)).
Proof.
  unfold _mix_split_frames, _mix_grow_if_needed, self_frames, bind, eval, update, ret, as_bytes.
  destruct (frames self) as [f|] eqn:Hf; [|left; eauto].
  right. destruct (len f <? start + n); simpl.
  - eauto.
  - rewrite Hf. do 2 eexists. rewrite (set_frames_same self f Hf). reflexivity.
Qed.

(** ** mix_at: what a call that raises leaves *)

(** X7.  [Sample.mix_at] sets the buffer to [None] before it calls
    [audioop.add]: a call that raises leaves the sample as it was, or, when
    it was [audioop.add] that raised, without its buffer. *)
Theorem mix_at_raising_drops_the_frames (self self' other : Sample) (seconds : float)
    (other_seconds : option float) (e : exn) :
  mix_at seconds other other_seconds self = Raised e self' ->
  self' = self
  \/ (frames self' = None /\ header self' = header self
      /\ exists msg, e = audioop_error msg).
Proof.
  unfold mix_at. intros H.
  apply bind_Raised_inv in H as [H|(a & s & Hs & H)];
    [left; exact (quiet_Raised _ _ _ _ quiet_assert_not_locked H)|].
  apply (quiet_Returned _ _ _ _ quiet_assert_not_locked) in Hs. subst s.
  apply bind_Raised_inv in H as [H|(self0 & s & Hs & H)]; [discriminate H|].
  unfold read, id in Hs. injection Hs as Ha Hb. subst self0 s.
  apply bind_Raised_inv in H as [H|(a' & s & Hs & H)];
    [left; exact (quiet_Raised _ _ _ _ (quiet_same_format _ _) H)|].
  apply (quiet_Returned _ _ _ _ (quiet_same_format _ _)) in Hs. subst s.
  apply bind_Raised_inv in H as [H|(start & s & Hs & H)];
    [left; exact (quiet_Raised _ _ _ _ (quiet_eval _) H)|].
  apply (quiet_Returned _ _ _ _ (quiet_eval _)) in Hs. subst s.
  apply bind_Raised_inv in H as [H|(o1 & s & Hs & H)];
    [left; exact (quiet_Raised _ _ _ _ (quiet_eval _) H)|].
  apply (quiet_Returned _ _ _ _ (quiet_eval _)) in Hs. subst s.
  apply bind_Raised_inv in H as [H|(o2 & s & Hs & H)];
    [left; exact (quiet_Raised _ _ _ _ (quiet_eval _) H)|].
  apply (quiet_Returned _ _ _ _ (quiet_eval _)) in Hs. subst s.
  apply bind_Raised_inv in H as [H|(parts & s & Hs & H)].
  { left. destruct (mix_split_frames_outcome (len o2) start self) as [(e' & He)|(p & g & Hg)];
      congruence. }
  destruct (mix_split_frames_outcome (len o2) start self) as [(e' & He)|(p & g & Hg)];
    [congruence|].
  rewrite Hg in Hs. injection Hs as <- <-.
  destruct p as [[pre to_mix] post].
  unfold bind, update, eval in H. simpl in H.
  destruct (audioop_add to_mix o2 (sampwidth self)) as [mixed|e'] eqn:Hadd; [discriminate H|].
  inversion H; subst; clear H.
  right. split; [reflexivity|]. split; [reflexivity|].
  exact (audioop_add_Raise _ _ _ _ Hadd).
Qed.

Lemma mix_at_raising_drops_the_frames_witness :
  set_frames None loud = loud
  \/ (frames (set_frames None loud) = None /\ header (set_frames None loud) = header loud
      /\ exists msg, audioop_error "Lengths should be the same" = audioop_error msg).
Proof.
  apply (mix_at_raising_drops_the_frames loud (set_frames None loud) soft
           (-0x1p-15)%float None).
  reflexivity.
Defined.

(** ** mix: padding, the seconds of the other sample, silence *)

Lemma mix_steps (self other : Sample) (frames1 frames2 : bytes) (pad_shortest : bool) :
  locked self = false ->
  sampwidth self = sampwidth other -> samplerate self = samplerate other ->
  nchannels self = nchannels other ->
  frames self = Some frames1 -> frames other = Some frames2 ->
  mix other None pad_shortest self
  = let '(frames1, frames2) :=
      if pad_shortest then
        if len frames1 <? len frames2 then
          (frames1 ++ zeros (len frames2 - len frames1), frames2)
        else if len frames2 <? len frames1 then
          (frames1, frames2 ++ zeros (len frames1 - len frames2))
        else (frames1, frames2)
      else (frames1, frames2) in
    match audioop_add frames1 frames2 (sampwidth self) with
    | OK mixed => Returned tt (set_frames (Some mixed) self)
    | Raise e => Raised e self
    end.
Proof.
  intros Hl Hw Hr Hc Hf1 Hf2. unfold mix.
  rewrite (bind_Returned _ _ _ _ _ (assert_not_locked_unlocked _ Hl)).
  unfold bind at 1. unfold read at 1. unfold id.
  rewrite (bind_Returned _ _ _ _ _ (same_format_ok self other self Hw Hr Hc)).
  unfold self_frames, bind, eval, update, frames_of_other, as_bytes.
  rewrite Hf1, Hf2. cbn.
  destruct pad_shortest;
    repeat match goal with |- context [if ?b then _ else _] => destruct b end;
    destruct (audioop_add _ _ _); reflexivity.
Qed.

(** X8.  [Sample.mix] with [pad_shortest=False]: buffers of different lengths
    make [audioop.add] raise, and the sample stays as it was; on buffers of
    one length the call does what it does with padding. *)
Theorem mix_without_padding (self other : Sample) (frames1 frames2 : bytes) :
  locked self = false ->
  sampwidth self = sampwidth other -> samplerate self = samplerate other ->
  nchannels self = nchannels other ->
  frames self = Some frames1 -> frames other = Some frames2 ->
  1 <= sampwidth self <= 4 -> len frames1 mod sampwidth self = 0 ->
  (len frames1 <> len frames2 ->
   mix other None false self = Raised (audioop_error "Lengths should be the same") self)
  /\ (len frames1 = len frames2 ->
      mix other None false self = mix other None true self).
Proof.
  intros Hl Hw Hr Hc Hf1 Hf2 Hwidth Hm. split; intros Hlen.
  - rewrite (mix_steps self other frames1 frames2) by assumption.
    unfold audioop_add. rewrite audioop_check_parameters_OK by assumption. simpl.
    destruct (Z.eqb_spec (len frames1) (len frames2)); [contradiction | reflexivity].
  - rewrite !(mix_steps self other frames1 frames2) by assumption.
    rewrite Hlen, Z.ltb_irrefl. reflexivity.
Qed.

Lemma mix_without_padding_witness :
  (len [xff; x7f; x02; x00; x03; x00; x04; x00] <> len [x01; x00; x01; x00] ->
   mix soft None false loud = Raised (audioop_error "Lengths should be the same") loud)
  /\ (len [xff; x7f; x02; x00; x03; x00; x04; x00] = len [x01; x00; x01; x00] ->
      mix soft None false loud = mix soft None true loud).
Proof.
  apply (mix_without_padding loud soft [xff; x7f; x02; x00; x03; x00; x04; x00]
           [x01; x00; x01; x00]); try reflexivity. simpl. lia.
Defined.

(** X9.  [other_seconds] in [Sample.mix] and [Sample.mix_at]: a value of 0 counts
    as not given, and all of [other] is mixed; any other value cuts the
    buffer of [other] at its frame index first. *)
Theorem other_seconds_cuts_the_other (self other : Sample) (frames2 : bytes)
    (other_seconds : float) (idx : Z) (pad_shortest : bool) (seconds : float) :
  frames other = Some frames2 -> frame_idx other other_seconds = OK idx ->
  let cut_other := set_frames (Some (slice_to frames2 idx)) other in
  ((other_seconds =? 0)%float = true ->
   mix other (Some other_seconds) pad_shortest self = mix other None pad_shortest self
   /\ mix_at seconds other (Some other_seconds) self = mix_at seconds other None self)
  /\ ((other_seconds =? 0)%float = false ->
      mix other (Some other_seconds) pad_shortest self = mix cut_other None pad_shortest self
      /\ mix_at seconds other (Some other_seconds) self = mix_at seconds cut_other None self).
Proof.
  intros Hf Hidx cut_other.
  assert (H0 : (other_seconds =? 0)%float = true ->
               frames_of_other other (Some other_seconds) = frames_of_other other None).
  { intros Hz. unfold frames_of_other, truthy. rewrite Hz. reflexivity. }
  assert (H1 : (other_seconds =? 0)%float = false ->
               frames_of_other other (Some other_seconds) = frames_of_other cut_other None).
  { intros Hz. unfold frames_of_other, truthy. rewrite Hz, Hidx, Hf. reflexivity. }
  split; intros Hz; [specialize (H0 Hz) | specialize (H1 Hz)]; split.
  - unfold mix, bind. destruct (assert_not_locked self); [|reflexivity].
    unfold read, id. destruct (same_format self0 other self0); [|reflexivity].
    unfold eval at 1 3. rewrite H0. reflexivity.
  - unfold mix_at, bind. destruct (assert_not_locked self); [|reflexivity].
    unfold read, id. destruct (same_format self0 other self0); [|reflexivity].
    destruct (eval _ self1); [|reflexivity].
    unfold eval at 1 4. rewrite H0. reflexivity.
  - unfold mix, bind. destruct (assert_not_locked self); [|reflexivity].
    unfold read, id.
    change (same_format self0 cut_other self0) with (same_format self0 other self0).
    destruct (same_format self0 other self0); [|reflexivity].
    unfold eval at 1 3. rewrite H1. reflexivity.
  - unfold mix_at, bind. destruct (assert_not_locked self); [|reflexivity].
    unfold read, id.
    change (same_format self0 cut_other self0) with (same_format self0 other self0).
    destruct (same_format self0 other self0); [|reflexivity].
    destruct (eval _ self1); [|reflexivity].
    unfold eval at 1 4. rewrite H1. reflexivity.
Qed.

Lemma other_seconds_cuts_the_other_witness :
  let cut_other := set_frames (Some (slice_to [xff; x7f; x02; x00; x03; x00; x04; x00] 4)) loud in
  ((0x1p-15 =? 0)%float = true ->
   mix loud (Some 0x1p-15%float) true soft = mix loud None true soft
   /\ mix_at 0%float loud (Some 0x1p-15%float) soft = mix_at 0%float loud None soft)
  /\ ((0x1p-15 =? 0)%float = false ->
      mix loud (Some 0x1p-15%float) true soft = mix cut_other None true soft
      /\ mix_at 0%float loud (Some 0x1p-15%float) soft = mix_at 0%float cut_other None soft).
Proof.
  apply (other_seconds_cuts_the_other soft loud [xff; x7f; x02; x00; x03; x00; x04; x00]
           0x1p-15%float 4 true 0%float); reflexivity.
Defined.

Lemma zeros_add (a b : Z) : 0 <= a -> 0 <= b -> zeros (a + b) = zeros a ++ zeros b.
Proof.
  intros Ha Hb. unfold zeros. rewrite Z2Nat.inj_add by lia. apply replicate_add.
Qed.

Lemma audioop_add_zeros_r (fragment : bytes) (width : Z) :
  1 <= width <= 4 -> len fragment mod width = 0 ->
  audioop_add fragment (zeros (len fragment)) width = OK fragment.
Proof.
  intros Hw Hm. rewrite audioop_add_comm.
  - apply audioop_add_zeros; assumption.
  - rewrite len_zeros. pose proof (len_nonneg fragment). lia.
Qed.

(** X10.  [Sample.mix] with a sample of silence: the buffer keeps its bytes and
    only grows, by zero bytes, to the length of the silence. *)
Theorem mix_with_silence (self other : Sample) (frames1 : bytes) (n : Z) :
  locked self = false ->
  sampwidth self = sampwidth other -> samplerate self = samplerate other ->
  nchannels self = nchannels other ->
  frames self = Some frames1 -> frames other = Some (zeros n) ->
  1 <= sampwidth self <= 4 -> len frames1 mod sampwidth self = 0 ->
  0 <= n -> n mod sampwidth self = 0 ->
  mix other None true self
  = Returned tt (set_frames (Some (frames1 ++ zeros (n - len frames1))) self).
Proof.
  intros Hl Hw Hr Hc Hf1 Hf2 Hwidth Hm1 Hn Hm2.
  pose proof (len_nonneg frames1) as Hn1.
  rewrite (mix_steps self other frames1 (zeros n)) by assumption.
  rewrite len_zeros, Z.max_l by lia.
  set (result := frames1 ++ zeros (n - len frames1)).
  assert (Hres : len result = Z.max (len frames1) n).
  { unfold result. rewrite len_app, len_zeros. lia. }
  assert (Hz : (if len frames1 <? n then (result, zeros n)
                else if n <? len frames1
                     then (frames1, zeros n ++ zeros (len frames1 - n))
                     else (frames1, zeros n)) = (result, zeros (len result))).
  { rewrite Hres. destruct (Z.ltb_spec (len frames1) n).
    - do 2 f_equal. lia.
    - unfold result. rewrite (zeros_nonpos (n - len frames1)), app_nil_r by lia.
      destruct (Z.ltb_spec n (len frames1)).
      + rewrite <- zeros_add by lia. do 2 f_equal. lia.
      + do 2 f_equal. lia. }
  rewrite Hz, audioop_add_zeros_r; [reflexivity | assumption |].
  rewrite Hres. destruct (Z.max_spec (len frames1) n) as [[_ ->]|[_ ->]]; assumption.
Qed.

Lemma mix_with_silence_witness :
  mix (mkSample (Some (zeros 12)) 44100 2 2 true None) None true loud
  = Returned tt (set_frames (Some ([xff; x7f; x02; x00; x03; x00; x04; x00]
                                   ++ zeros (12 - len [xff; x7f; x02; x00; x03; x00; x04; x00]))) loud).
Proof.
  apply (mix_with_silence loud (mkSample (Some (zeros 12)) 44100 2 2 true None)
           [xff; x7f; x02; x00; x03; x00; x04; x00] 12); try reflexivity; simpl; lia.
Defined.

(** X11.  [Sample.mix] adds sample by sample: the buffer then holds, at each
    position, the sum of the two samples there (of the padded buffers),
    clipped to the range of the sample width. *)
Theorem mix_adds_and_clips (self other : Sample) (frames1 frames2 : bytes) :
  locked self = false ->
  sampwidth self = sampwidth other -> samplerate self = samplerate other ->
  nchannels self = nchannels other ->
  frames self = Some frames1 -> frames other = Some frames2 ->
  1 <= sampwidth self <= 4 ->
  len frames1 mod sampwidth self = 0 -> len frames2 mod sampwidth self = 0 ->
  let w := Z.to_nat (sampwidth self) in
  let padded1 := frames1 ++ zeros (len frames2 - len frames1) in
  let padded2 := frames2 ++ zeros (len frames1 - len frames2) in
  let n := nsamples padded1 (sampwidth self) in
  exists mixed,
    mix other None true self = Returned tt (set_frames (Some mixed) self)
    /\ samples w n mixed
       = zip_with (fun val1 val2 => bound w (val1 + val2))
                  (samples w n padded1) (samples w n padded2)
    /\ Forall (fun v => minval w <= v <= maxval w) (samples w n mixed)
    /\ Z.of_nat n * sampwidth self = len mixed.
Proof.
  intros Hl Hw Hr Hc Hf1 Hf2 Hwidth Hm1 Hm2 w padded1 padded2 n.
  destruct (mix_pad_Returned self other frames1 frames2) as (mixed & Hadd & Hlen & Hmix);
    try assumption.
  fold padded1 padded2 in Hadd.
  pose proof (len_nonneg frames1) as Hn1. pose proof (len_nonneg frames2) as Hn2.
  assert (Hp1 : len padded1 = len mixed).
  { unfold padded1. rewrite len_app, len_zeros. lia. }
  assert (Hmm : len mixed mod sampwidth self = 0).
  { rewrite Hlen. destruct (Z.max_spec (len frames1) (len frames2)) as [[_ ->]|[_ ->]];
      assumption. }
  assert (Hn : length mixed = (n * w)%nat).
  { unfold n, nsamples. rewrite Hp1. apply nsamples_length; [lia | exact Hmm]. }
  exists mixed. split; [exact Hmix|]. split; [|split].
  - exact (audioop_add_samples _ _ _ _ Hadd).
  - apply samples_range; [unfold w; lia | exact Hn].
  - unfold len. rewrite Hn, Nat2Z.inj_mul. unfold w. rewrite Z2Nat.id by lia. reflexivity.
Qed.

Lemma mix_adds_and_clips_witness :
  let w := Z.to_nat (sampwidth loud) in
  let padded1 := [xff; x7f; x02; x00; x03; x00; x04; x00]
                   ++ zeros (len [x01; x00; x01; x00] - len [xff; x7f; x02; x00; x03; x00; x04; x00]) in
  let padded2 := [x01; x00; x01; x00]
                   ++ zeros (len [xff; x7f; x02; x00; x03; x00; x04; x00] - len [x01; x00; x01; x00]) in
  let n := nsamples padded1 (sampwidth loud) in
  exists mixed,
    mix soft None true loud = Returned tt (set_frames (Some mixed) loud)
    /\ samples w n mixed
       = zip_with (fun val1 val2 => bound w (val1 + val2))
                  (samples w n padded1) (samples w n padded2)
    /\ Forall (fun v => minval w <= v <= maxval w) (samples w n mixed)
    /\ Z.of_nat n * sampwidth loud = len mixed.
Proof.
  apply (mix_adds_and_clips loud soft [xff; x7f; x02; x00; x03; x00; x04; x00]
           [x01; x00; x01; x00]); try reflexivity; simpl; lia.
Defined.

(** X12.  [Sample.mix_at] at or after the end of the buffer: the buffer keeps its
    bytes, then come zero bytes up to the frame index, then the buffer of
    [other] as it is. *)
Theorem mix_at_after_the_end (self other : Sample) (seconds : float)
    (frames1 frames2 : bytes) (start : Z) :
  locked self = false ->
  sampwidth self = sampwidth other -> samplerate self = samplerate other ->
  nchannels self = nchannels other ->
  frames self = Some frames1 -> frames other = Some frames2 ->
  1 <= sampwidth self <= 4 -> len frames2 mod sampwidth self = 0 ->
  frame_idx self seconds = OK start -> len frames1 <= start ->
  mix_at seconds other None self
  = Returned tt (set_frames (Some (frames1 ++ zeros (start - len frames1) ++ frames2)) self).
Proof.
  intros Hl Hw Hr Hc Hf1 Hf2 Hwidth Hm Hidx Hstart.
  pose proof (len_nonneg frames1) as Hn1. pose proof (len_nonneg frames2) as Hn2.
  destruct (mix_at_Returned self other seconds frames1 frames2 start)
    as (mixed & Hadd & Hlen & Hmix); try assumption; [lia|].
  rewrite Hmix. do 3 f_equal.
  set (gap := frames1 ++ zeros (start - len frames1)).
  assert (Hgap : length gap = Z.to_nat start).
  { apply Nat2Z.inj. change (len gap = Z.of_nat (Z.to_nat start)).
    unfold gap. rewrite len_app, len_zeros. lia. }
  assert (Hgrown : frames1 ++ zeros (start + len frames2 - len frames1)
                   = gap ++ zeros (len frames2)).
  { unfold gap. rewrite <- app_assoc, <- zeros_add by lia. do 2 f_equal. lia. }
  assert (Hz : length (zeros (len frames2)) = Z.to_nat (len frames2)).
  { unfold zeros. apply length_replicate. }
  rewrite Hgrown in *.
  rewrite drop_app_length' in Hadd by (symmetry; exact Hgap).
  rewrite take_ge in Hadd by lia.
  rewrite (audioop_add_zeros frames2 (sampwidth self) Hwidth Hm) in Hadd.
  injection Hadd as <-.
  rewrite take_app_length' by (symmetry; exact Hgap).
  rewrite drop_ge, app_nil_r.
  - unfold gap. rewrite <- app_assoc. reflexivity.
  - rewrite length_app, Hgap, Hz. lia.
Qed.

Lemma mix_at_after_the_end_witness :
  mix_at 0x1p-13%float soft None loud
  = Returned tt (set_frames (Some ([xff; x7f; x02; x00; x03; x00; x04; x00]
                                   ++ zeros (20 - len [xff; x7f; x02; x00; x03; x00; x04; x00])
                                   ++ [x01; x00; x01; x00])) loud).
Proof.
  apply (mix_at_after_the_end loud soft 0x1p-13%float
           [xff; x7f; x02; x00; x03; x00; x04; x00] [x01; x00; x01; x00] 20);
    try reflexivity; simpl; try lia; vm_compute; first [reflexivity | discriminate].
Defined.

(** ** Sample widths *)

Lemma maxval_pow (w : Z) :
  1 <= w <= 4 ->
  maxval (Z.to_nat w) = 2 ^ (31 - 8 * (4 - w)) - 1
  /\ minval (Z.to_nat w) = - 2 ^ (31 - 8 * (4 - w)).
Proof.
  intros Hw. unfold maxval, minval. rewrite Z2Nat.id by lia.
  replace (8 * w - 1) with (31 - 8 * (4 - w)) by lia. split; reflexivity.
Qed.

(** A sample of one width converted to another is in the range of that
    width. *)
Lemma convert_range (width newwidth : Z) (val : Z) :
  1 <= width <= 4 -> 1 <= newwidth <= 4 ->
  minval (Z.to_nat width) <= val <= maxval (Z.to_nat width) ->
  minval (Z.to_nat newwidth) <= convert width newwidth val <= maxval (Z.to_nat newwidth).
Proof.
  intros Hw Hn. destruct (maxval_pow width Hw) as [-> ->].
  destruct (maxval_pow newwidth Hn) as [-> ->].
  unfold convert. set (a := 8 * (4 - width)). set (b := 8 * (4 - newwidth)).
  assert (Ha : 0 <= a <= 24) by (unfold a; lia).
  assert (Hb : 0 <= b <= 24) by (unfold b; lia).
  intros Hv. rewrite Z.shiftr_div_pow2, Z.shiftl_mul_pow2 by lia.
  assert (Hpa : 2 ^ 31 = 2 ^ (31 - a) * 2 ^ a)
    by (rewrite <- Z.pow_add_r by lia; f_equal; lia).
  assert (Hpb : 2 ^ 31 = 2 ^ (31 - b) * 2 ^ b)
    by (rewrite <- Z.pow_add_r by lia; f_equal; lia).
  assert (H2a : 0 < 2 ^ a) by (apply Z.pow_pos_nonneg; lia).
  assert (H2b : 0 < 2 ^ b) by (apply Z.pow_pos_nonneg; lia).
  assert (Hx : - 2 ^ 31 <= val * 2 ^ a < 2 ^ 31) by nia.
  split.
  - apply Z.div_le_lower_bound; [exact H2b | nia].
  - assert (val * 2 ^ a / 2 ^ b < 2 ^ (31 - b)); [|lia].
    apply Z.div_lt_upper_bound; [exact H2b | nia].
Qed.

(** [audioop.lin2lin] on a fragment of whole samples: as many samples of
    the new width, each the conversion of the sample it was. *)
Lemma audioop_lin2lin_samples (fragment : bytes) (width newwidth : Z) :
  1 <= width <= 4 -> 1 <= newwidth <= 4 -> len fragment mod width = 0 ->
  let n := nsamples fragment width in
  exists converted,
    audioop_lin2lin fragment width newwidth = OK converted
    /\ converted = encode (Z.to_nat newwidth)
                     (map (convert width newwidth) (samples (Z.to_nat width) n fragment))
    /\ len converted = newwidth * Z.of_nat n
    /\ samples (Z.to_nat newwidth) n converted
       = map (convert width newwidth) (samples (Z.to_nat width) n fragment).
Proof.
  intros Hw Hn Hm n. unfold audioop_lin2lin.
  rewrite audioop_check_parameters_OK by assumption. simpl.
  unfold audioop_check_size.
  destruct (Z.leb_spec 1 newwidth); [|lia]. destruct (Z.leb_spec newwidth 4); [|lia].
  simpl. eexists. split; [reflexivity|]. split; [reflexivity|].
  fold n. fold (convert width newwidth).
  set (vs := map (convert width newwidth) (samples (Z.to_nat width) n fragment)).
  assert (Hlen : length vs = n) by (unfold vs; rewrite length_map, length_samples; reflexivity).
  split.
  - unfold len. rewrite length_encode, Hlen, Nat2Z.inj_mul, Z2Nat.id by lia. reflexivity.
  - rewrite <- Hlen at 1. apply samples_encode; [lia|].
    unfold vs. apply Forall_map.
    pose proof (samples_range (Z.to_nat width) n fragment ltac:(lia)
                  (nsamples_length fragment width ltac:(lia) Hm)) as Hr.
    eapply Forall_impl; [exact Hr|]. intros v Hv. simpl.
    apply convert_range; assumption.
Qed.

Lemma nsamples_encoded (converted : bytes) (width : Z) (n : nat) :
  1 <= width -> len converted = width * Z.of_nat n ->
  nsamples converted width = n /\ len converted mod width = 0.
Proof.
  intros Hw Hlen. unfold nsamples. rewrite Hlen. split.
  - rewrite Z.mul_comm, Z.div_mul by lia. lia.
  - rewrite Z.mul_comm. apply Z.mod_mul. lia.
Qed.

Section Widths.

Variable audioop_mul : bytes -> Z -> float -> result bytes.

(** What [make_32bit] with [scale_amplitude] makes of a buffer of whole
    samples. *)
Lemma make_32bit_widens (self : Sample) (frames_ : bytes) :
  locked self = false -> frames self = Some frames_ ->
  1 <= sampwidth self <= 4 -> len frames_ mod sampwidth self = 0 ->
  let w := Z.to_nat (sampwidth self) in
  let n := nsamples frames_ (sampwidth self) in
  exists wide,
    make_32bit audioop_mul true self
    = Returned tt (set_sampwidth 4 (set_frames (Some wide) self))
    /\ len wide = 4 * Z.of_nat n
    /\ samples 4 n wide = map (convert (sampwidth self) 4) (samples w n frames_).
Proof.
  intros Hl Hf Hw Hm w n.
  unfold make_32bit.
  rewrite (bind_Returned _ _ _ _ _ (assert_not_locked_unlocked _ Hl)).
  unfold bind, eval, update, get_32bit_frames, as_bytes. rewrite Hf.
  destruct (Z.eqb_spec (sampwidth self) 4) as [H4|H4].
  - exists frames_. split; [reflexivity|].
    pose proof (nsamples_length frames_ (sampwidth self) ltac:(lia) Hm) as Hlen.
    fold n in Hlen. split.
    + unfold len. rewrite Hlen, H4. change (Z.to_nat 4) with 4%nat. lia.
    + unfold w. rewrite H4. change (Z.to_nat 4) with 4%nat.
      rewrite <- (map_id (samples 4 n frames_)) at 1. apply map_ext. intros v.
      unfold convert. change (8 * (4 - 4)) with 0.
      rewrite Z.shiftl_0_r, Z.shiftr_0_r. reflexivity.
  - destruct (audioop_lin2lin_samples frames_ (sampwidth self) 4 Hw ltac:(lia) Hm)
      as (wide & Hlin & _ & Hlen & Hs).
    fold n in Hlen, Hs. simpl. rewrite Hlin. simpl.
    exists wide. split; [reflexivity|]. split; [exact Hlen|].
    change (Z.to_nat 4) with 4%nat in Hs. exact Hs.
Qed.

(** X13.  [Sample.make_32bit] with [scale_amplitude]: the sample gets 4 byte
    samples, as many as it had, each the sample it was times
    [2^(8*(4-width))]; nothing else changes. *)
Theorem make_32bit_scales (self : Sample) (frames_ : bytes) :
  locked self = false -> frames self = Some frames_ ->
  1 <= sampwidth self <= 4 -> len frames_ mod sampwidth self = 0 ->
  let w := Z.to_nat (sampwidth self) in
  let n := nsamples frames_ (sampwidth self) in
  exists wide,
    make_32bit audioop_mul true self
    = Returned tt (set_sampwidth 4 (set_frames (Some wide) self))
    /\ len wide = 4 * Z.of_nat n
    /\ samples 4 n wide
       = map (fun v => v * 2 ^ (8 * (4 - sampwidth self))) (samples w n frames_).
Proof.
  intros Hl Hf Hw Hm w n.
  destruct (make_32bit_widens self frames_ Hl Hf Hw Hm) as (wide & H32 & Hlen & Hs).
  exists wide. split; [exact H32|]. split; [exact Hlen|].
  fold w n in Hs. rewrite Hs. apply map_ext. intros v.
  unfold convert. change (8 * (4 - 4)) with 0.
  rewrite Z.shiftr_0_r, Z.shiftl_mul_pow2 by lia. reflexivity.
Qed.

(** X14.  Widening a 16 bit sample to 32 bits and narrowing it again, without
    amplification, gives the sample back. *)
Theorem make_32bit_make_16bit_round_trip (self : Sample) (frames_ : bytes) :
  locked self = false -> frames self = Some frames_ ->
  sampwidth self = 2 -> len frames_ mod 2 = 0 ->
  (make_32bit audioop_mul true ;; make_16bit audioop_mul false) self = Returned tt self.
Proof.
  intros Hl Hf Hw Hm.
  destruct (make_32bit_widens self frames_) as (wide & H32 & Hlen & Hs);
    [assumption | assumption | lia | rewrite Hw; assumption |].
  rewrite Hw in Hlen, Hs. change (Z.to_nat 2) with 2%nat in Hs.
  set (n := nsamples frames_ 2) in *.
  rewrite (bind_Returned _ _ _ _ _ H32).
  destruct (nsamples_encoded wide 4 n ltac:(lia) Hlen) as [Hn4 Hm4].
  destruct (audioop_lin2lin_samples wide 4 2 ltac:(lia) ltac:(lia) Hm4)
    as (narrow & Hlin & Hnarrow & _ & _).
  rewrite Hn4 in Hnarrow. change (Z.to_nat 4) with 4%nat in Hnarrow.
  change (Z.to_nat 2) with 2%nat in Hnarrow.
  assert (Hback : narrow = frames_).
  { rewrite Hnarrow, Hs, map_map.
    rewrite (map_ext _ id), map_id.
    - apply encode_samples.
      rewrite (nsamples_length frames_ 2) by (try lia; assumption). reflexivity.
    - intros v. unfold convert, id. change (8 * (4 - 2)) with 16. change (8 * (4 - 4)) with 0.
      rewrite Z.shiftl_0_r, Z.shiftr_0_r, Z.shiftr_div_pow2, Z.shiftl_mul_pow2 by lia.
      apply Z.div_mul. lia. }
  rewrite Hback in Hlin. unfold make_16bit.
  unfold assert_not_locked, self_frames, bind, read, eval, update, assert_, ret, id, as_bytes.
  simpl. rewrite Hl. simpl. rewrite Hlin. simpl.
  destruct self as [f r c w' l fn]. simpl in Hf, Hw |- *. rewrite Hf, Hw. reflexivity.
Qed.

(** X15.  [Sample.make_16bit]: an assertion refuses samples of less than 2 bytes;
    without amplification a 16 bit sample stays as it is, and a wider one
    gets 2 byte samples, each the top 16 bits of the sample it was. *)
Theorem make_16bit_narrows (self : Sample) (frames_ : bytes) :
  locked self = false -> frames self = Some frames_ ->
  len frames_ mod sampwidth self = 0 ->
  (sampwidth self < 2 ->
   forall maximize_amplitude,
     make_16bit audioop_mul maximize_amplitude self = Raised AssertionError self)
  /\ (sampwidth self = 2 -> make_16bit audioop_mul false self = Returned tt self)
  /\ (2 < sampwidth self <= 4 ->
      let w := Z.to_nat (sampwidth self) in
      let n := nsamples frames_ (sampwidth self) in
      exists narrow,
        make_16bit audioop_mul false self
        = Returned tt (set_sampwidth 2 (set_frames (Some narrow) self))
        /\ len narrow = 2 * Z.of_nat n
        /\ samples 2 n narrow
           = map (fun v => v / 2 ^ (8 * (sampwidth self - 2))) (samples w n frames_)).
Proof.
  intros Hl Hf Hm. split; [|split].
  - intros Hw maximize. unfold make_16bit.
    rewrite (bind_Returned _ _ _ _ _ (assert_not_locked_unlocked _ Hl)).
    unfold bind, read, id, assert_.
    destruct (Z.leb_spec 2 (sampwidth self)); [lia | reflexivity].
  - intros Hw. unfold make_16bit.
    rewrite (bind_Returned _ _ _ _ _ (assert_not_locked_unlocked _ Hl)).
    unfold bind, read, id, assert_, ret. rewrite Hw. simpl. rewrite Hw. reflexivity.
  - intros Hw w n.
    destruct (audioop_lin2lin_samples frames_ (sampwidth self) 2 ltac:(lia) ltac:(lia) Hm)
      as (narrow & Hlin & _ & Hlen & Hs).
    fold n in Hlen, Hs. change (Z.to_nat 2) with 2%nat in Hs.
    exists narrow. split; [|split; [exact Hlen|]].
    + unfold make_16bit.
      rewrite (bind_Returned _ _ _ _ _ (assert_not_locked_unlocked _ Hl)).
      unfold self_frames, bind, read, id, assert_, ret, eval, update, as_bytes.
      destruct (Z.leb_spec 2 (sampwidth self)); [|lia].
      destruct (Z.ltb_spec 2 (sampwidth self)); [|lia].
      rewrite Hf, Hlin. reflexivity.
    + rewrite Hs. apply map_ext. intros v. unfold convert.
      change (8 * (4 - 2)) with 16.
      rewrite Z.shiftr_div_pow2, Z.shiftl_mul_pow2 by lia.
      replace (2 ^ 16) with (2 ^ (8 * (sampwidth self - 2)) * 2 ^ (8 * (4 - sampwidth self)))
        by (rewrite <- Z.pow_add_r by lia; f_equal; lia).
      rewrite Z.div_mul_cancel_r; [reflexivity | |];
        apply Z.pow_nonzero; lia.
Qed.

Lemma audioop_max_zeros (n width : Z) :
  1 <= width <= 4 -> 0 <= n -> n mod width = 0 -> audioop_max (zeros n) width = OK 0.
Proof.
  intros Hw Hn Hm. unfold audioop_max.
  rewrite len_zeros, Z.max_l by lia.
  rewrite audioop_check_parameters_OK by assumption. simpl. f_equal.
  unfold zeros. rewrite samples_zeros by lia.
  generalize (nsamples (replicate (Z.to_nat n) x00) width). intros k.
  induction k as [|k IH]; simpl; [reflexivity|]. rewrite IH. reflexivity.
Qed.

(** X16.  [Sample.amplify_max] on silence: the largest amplitude is 0, nothing
    is divided by it and [audioop.mul] is not called; the sample stays as
    it is. *)
Theorem amplify_max_of_silence (self : Sample) (n : Z) :
  locked self = false -> frames self = Some (zeros n) ->
  1 <= sampwidth self <= 4 -> 0 <= n -> n mod sampwidth self = 0 ->
  amplify_max audioop_mul self = Returned tt self.
Proof.
  intros Hl Hf Hw Hn Hm. unfold amplify_max.
  rewrite (bind_Returned _ _ _ _ _ (assert_not_locked_unlocked _ Hl)).
  unfold self_frames, bind, read, id, eval, ret, as_bytes.
  rewrite Hf, audioop_max_zeros by assumption. reflexivity.
Qed.

End Widths.

Lemma make_32bit_scales_witness :
  let w := Z.to_nat (sampwidth loud) in
  let n := nsamples [xff; x7f; x02; x00; x03; x00; x04; x00] (sampwidth loud) in
  exists wide,
    make_32bit mul_raises true loud
    = Returned tt (set_sampwidth 4 (set_frames (Some wide) loud))
    /\ len wide = 4 * Z.of_nat n
    /\ samples 4 n wide
       = map (fun v => v * 2 ^ (8 * (4 - sampwidth loud)))
             (samples w n [xff; x7f; x02; x00; x03; x00; x04; x00]).
Proof.
  apply (make_32bit_scales mul_raises loud [xff; x7f; x02; x00; x03; x00; x04; x00]);
    try reflexivity. simpl. lia.
Defined.

Lemma make_32bit_make_16bit_round_trip_witness :
  (make_32bit mul_raises true ;; make_16bit mul_raises false) loud = Returned tt loud.
Proof.
  apply (make_32bit_make_16bit_round_trip mul_raises loud
           [xff; x7f; x02; x00; x03; x00; x04; x00]); reflexivity.
Defined.

Lemma make_16bit_narrows_witness :
  (sampwidth (dup click) < 2 ->
   forall maximize_amplitude,
     make_16bit mul_raises maximize_amplitude (dup click) = Raised AssertionError (dup click))
  /\ (sampwidth (dup click) = 2 -> make_16bit mul_raises false (dup click) = Returned tt (dup click))
  /\ (2 < sampwidth (dup click) <= 4 ->
      let w := Z.to_nat (sampwidth (dup click)) in
      let n := nsamples [x01; x00; x00; x00; x01; x00; x00; x00] (sampwidth (dup click)) in
      exists narrow,
        make_16bit mul_raises false (dup click)
        = Returned tt (set_sampwidth 2 (set_frames (Some narrow) (dup click)))
        /\ len narrow = 2 * Z.of_nat n
        /\ samples 2 n narrow
           = map (fun v => v / 2 ^ (8 * (sampwidth (dup click) - 2)))
                 (samples w n [x01; x00; x00; x00; x01; x00; x00; x00])).
Proof.
  apply (make_16bit_narrows mul_raises (dup click) [x01; x00; x00; x00; x01; x00; x00; x00]);
    reflexivity.
Defined.

Lemma amplify_max_of_silence_witness :
  amplify_max mul_raises fifteen_frames = Returned tt fifteen_frames.
Proof.
  apply (amplify_max_of_silence mul_raises fifteen_frames 60); try reflexivity; simpl; lia.
Defined.

(** ** Mixer construction: what is accepted *)

Lemma check_bars_accepts (instruments_ : gmap string object) (ticks_ bar_length L : Z)
    (items : pattern) :
  ticks_ <> 0 -> bar_length = 0 \/ bar_length = L ->
  (forall instrument bars, (instrument, bars) ∈ items ->
     is_Some (instruments_ !! instrument) /\ slen bars mod ticks_ = 0 /\ slen bars = L) ->
  check_bars instruments_ ticks_ bar_length items = OK tt.
Proof.
  intros Hticks. revert bar_length.
  induction items as [|[name0 bars0] items IH]; intros bar_length Hb Hall; [reflexivity|].
  destruct (Hall name0 bars0) as ([o Ho] & Hmod & Hlen); [left|].
  simpl. rewrite Ho.
  destruct (Z.eqb_spec ticks_ 0); [contradiction|].
  rewrite Hmod. simpl.
  assert (Hc : (0 <? bar_length) && negb (bar_length =? slen bars0) = false).
  { destruct Hb as [->| ->]; [reflexivity|].
    rewrite Hlen, Z.eqb_refl. apply andb_false_r. }
  rewrite Hc. apply IH; [right; exact Hlen|].
  intros instrument bars Hin. apply Hall. right. exact Hin.
Qed.

(** X17.  [Mixer.__init__] takes patterns whose instruments are all in the table
    and whose bars are, in each pattern, of one length that is a multiple of
    [ticks]; the mixer holds the four arguments as they are. *)
Theorem Mixer_init_accepts (patterns_ : list pattern) (bpm_ ticks_ : Z)
    (instruments_ : gmap string object) :
  ticks_ <> 0 ->
  (forall p instrument bars, p ∈ patterns_ -> (instrument, bars) ∈ p ->
     is_Some (instruments_ !! instrument) /\ slen bars mod ticks_ = 0) ->
  (forall p instrument1 bars1 instrument2 bars2, p ∈ patterns_ ->
     (instrument1, bars1) ∈ p -> (instrument2, bars2) ∈ p -> slen bars1 = slen bars2) ->
  Mixer_init patterns_ bpm_ ticks_ instruments_
  = OK (mkMixer patterns_ bpm_ ticks_ instruments_).
Proof.
  intros Hticks Hknown Hlen. unfold Mixer_init.
  assert (Hc : check_patterns instruments_ ticks_ patterns_ = OK tt); [|rewrite Hc; reflexivity].
  induction patterns_ as [|p ps IH]; [reflexivity|]. simpl.
  assert (Hp : check_bars instruments_ ticks_ 0 p = OK tt).
  { assert (Hfirst : p = [] \/ exists name0 bars0, (name0, bars0) ∈ p).
    { destruct p as [|[name0 bars0] items]; [left; reflexivity|].
      right. exists name0, bars0. left. }
    destruct Hfirst as [->|(name0 & bars0 & H0)]; [reflexivity|].
    apply (check_bars_accepts _ _ _ (slen bars0)); [exact Hticks | left; reflexivity |].
    intros instrument bars Hin.
    destruct (Hknown p instrument bars) as [H1 H2]; [left | exact Hin |].
    split; [exact H1|]. split; [exact H2|].
    apply (Hlen p instrument bars name0 bars0); [left | exact Hin | exact H0]. }
  rewrite Hp. simpl. apply IH.
  - intros p' instrument bars Hp' Hin. apply (Hknown p'); [right|]; assumption.
  - intros p' i1 b1 i2 b2 Hp'. apply (Hlen p'). right. exact Hp'.
Qed.

Lemma Mixer_init_accepts_witness :
  Mixer_init [[("kick", "x...")]] 128 4 kit = OK (mkMixer [[("kick", "x...")]] 128 4 kit).
Proof.
  apply (Mixer_init_accepts [[("kick", "x...")]] 128 4 kit).
  - lia.
  - intros p instrument bars Hp Hin.
    apply list_elem_of_singleton in Hp. subst p.
    apply list_elem_of_singleton in Hin. injection Hin as -> ->.
    split; [eexists; reflexivity | reflexivity].
  - intros p i1 b1 i2 b2 Hp H1 H2.
    apply list_elem_of_singleton in Hp. subst p.
    apply list_elem_of_singleton in H1. apply list_elem_of_singleton in H2.
    injection H1 as -> ->. injection H2 as -> ->. reflexivity.
Defined.

(** ** mixed_triggers *)

Lemma get_is_Some (i : nat) (s : string) :
  (i < String.length s)%nat -> is_Some (String.get i s).
Proof.
  revert i. induction s as [|c s IH]; intros i Hi; simpl in *; [lia|].
  destruct i as [|i]; [eexists; reflexivity|]. apply IH. lia.
Qed.

Lemma tick_triggers_OK (instruments_ : gmap string object) (i : nat) (items : pattern)
    (triggers : list trigger) :
  tick_triggers instruments_ i items = OK triggers ->
  Forall (fun t : trigger => instruments_ !! fst t = Some (snd t)) triggers.
Proof.
  revert triggers. induction items as [|[name bars] items IH]; intros triggers; simpl.
  - intros H. injection H as <-. constructor.
  - destruct (String.get i bars) as [ch|]; [|discriminate].
    destruct (is_rest ch); [apply IH|].
    destruct (instruments_ !! name) as [sample|] eqn:Hs; [|discriminate].
    unfold rbind. destruct (tick_triggers instruments_ i items) as [more|]; [|discriminate].
    intros H. injection H as <-. constructor; [exact Hs | apply IH; reflexivity].
Qed.

Lemma tick_triggers_defined (instruments_ : gmap string object) (i : nat) (items : pattern) :
  (forall name bars, (name, bars) ∈ items ->
     is_Some (instruments_ !! name) /\ (i < String.length bars)%nat) ->
  exists triggers, tick_triggers instruments_ i items = OK triggers.
Proof.
  induction items as [|[name bars] items IH]; intros Hall; simpl; [eauto|].
  destruct (Hall name bars) as ([sample Hs] & Hi); [left|].
  destruct (get_is_Some i bars Hi) as [ch ->].
  destruct IH as [more Hmore]; [intros n b Hin; apply Hall; right; exact Hin|].
  destruct (is_rest ch); [eauto|]. rewrite Hs, Hmore. simpl. eauto.
Qed.

Lemma tick_triggers_rests (instruments_ : gmap string object) (i : nat) (items : pattern) :
  (forall name bars, (name, bars) ∈ items -> (i < String.length bars)%nat /\ all_rests bars) ->
  tick_triggers instruments_ i items = OK [].
Proof.
  induction items as [|[name bars] items IH]; intros Hall; simpl; [reflexivity|].
  destruct (Hall name bars) as (Hi & Hr); [left|].
  destruct (get_is_Some i bars Hi) as [ch Hch]. rewrite Hch, (Hr i ch Hch).
  apply IH. intros n b Hin. apply (Hall n b). right. exact Hin.
Qed.

Lemma float_mul_int_small (x : float) (n : Z) :
  0 <= n < 2 ^ 53 -> exists y, float_mul_int x n = OK y.
Proof.
  intros Hn. unfold float_mul_int.
  destruct (Z.eq_dec n 0) as [->|Hn0]; [eexists; reflexivity|].
  destruct (float_of_int_small n Hn0 ltac:(lia)) as (f & _ & _ & -> & _).
  simpl. eauto.
Qed.

Lemma ticks_loop_yields (instruments_ : gmap string object) (tpi : float) (items : pattern)
    (range : list nat) (index : Z) (ys : list (Z * float * list trigger)) (r : result Z) :
  ticks_loop instruments_ tpi items range index = (ys, r) ->
  Forall (fun y => index <= tick_of y < index + len range
                   /\ triggered instruments_ tpi y) ys
  /\ StronglySorted (fun a b => tick_of a < tick_of b) ys
  /\ (forall index', r = OK index' -> index' = index + len range).
Proof.
  revert index ys r. induction range as [|i range IH]; intros index ys r; simpl.
  - intros H. injection H as <- <-. repeat split; [constructor | constructor |].
    intros index' H. injection H as <-. unfold len. simpl. lia.
  - assert (Hlen : len (i :: range) = len range + 1) by (unfold len; simpl; lia).
    rewrite Hlen.
    assert (Hskip : forall ys r,
               ticks_loop instruments_ tpi items range (index + 1) = (ys, r) ->
               Forall (fun y => index <= tick_of y < index + (len range + 1)
                                /\ triggered instruments_ tpi y) ys
               /\ StronglySorted (fun a b => tick_of a < tick_of b) ys
               /\ (forall index', r = OK index' -> index' = index + (len range + 1))
               /\ Forall (fun y => index < tick_of y) ys).
    { intros ys' r' H. destruct (IH _ _ _ H) as (Hf & Hs & Hr).
      repeat split.
      - eapply Forall_impl; [exact Hf|]. intros y [Hy Ht]. split; [lia | exact Ht].
      - exact Hs.
      - intros index' Hi. rewrite (Hr index' Hi). lia.
      - eapply Forall_impl; [exact Hf|]. intros y [Hy _]. lia. }
    destruct (tick_triggers instruments_ i items) as [triggers|e] eqn:Ht.
    + destruct triggers as [|t triggers].
      * intros H. destruct (Hskip _ _ H) as (H1 & H2 & H3 & _). auto.
      * destruct (float_mul_int tpi index) as [timestamp|e] eqn:Hts.
        -- destruct (ticks_loop instruments_ tpi items range (index + 1)) as [more r'] eqn:Hl.
           intros H. injection H as <- <-.
           destruct (Hskip _ _ eq_refl) as (H1 & H2 & H3 & H4).
           pose proof (len_nonneg range) as Hn.
           repeat split.
           ++ constructor; [|exact H1]. split; [unfold tick_of; simpl; lia|].
              split; [exact Hts|]. split; [discriminate|].
              exact (tick_triggers_OK _ _ _ _ Ht).
           ++ constructor; [exact H2|].
              eapply Forall_impl; [exact H4|]. intros y Hy. exact Hy.
           ++ exact H3.
        -- intros H. injection H as <- <-.
           repeat split; [constructor | constructor | discriminate].
    + intros H. injection H as <- <-.
      repeat split; [constructor | constructor | discriminate].
Qed.

Lemma ticks_loop_defined (instruments_ : gmap string object) (tpi : float) (items : pattern)
    (range : list nat) (index : Z) :
  (forall i name bars, i ∈ range -> (name, bars) ∈ items ->
     is_Some (instruments_ !! name) /\ (i < String.length bars)%nat) ->
  0 <= index -> index + len range < 2 ^ 53 ->
  exists ys, ticks_loop instruments_ tpi items range index = (ys, OK (index + len range)).
Proof.
  revert index. induction range as [|i range IH]; intros index Hall H0 Hmax; simpl.
  - exists []. unfold len. simpl. do 2 f_equal. lia.
  - assert (Hlen : len (i :: range) = len range + 1) by (unfold len; simpl; lia).
    rewrite Hlen in *. pose proof (len_nonneg range) as Hn.
    destruct (tick_triggers_defined instruments_ i items) as [triggers Ht].
    { intros name bars Hin. apply (Hall i); [left | exact Hin]. }
    destruct (IH (index + 1)) as [more Hmore]; [|lia|lia|].
    { intros i' name bars Hi' Hin. apply (Hall i'); [right|]; assumption. }
    replace (index + 1 + len range) with (index + (len range + 1)) in Hmore by lia.
    rewrite Ht. destruct triggers as [|t triggers]; [eauto|].
    destruct (float_mul_int_small tpi index) as [timestamp ->]; [lia|].
    rewrite Hmore. eauto.
Qed.

Lemma ticks_loop_rests (instruments_ : gmap string object) (tpi : float) (items : pattern)
    (range : list nat) (index : Z) :
  (forall i name bars, i ∈ range -> (name, bars) ∈ items ->
     (i < String.length bars)%nat /\ all_rests bars) ->
  ticks_loop instruments_ tpi items range index = ([], OK (index + len range)).
Proof.
  revert index. induction range as [|i range IH]; intros index Hall; simpl.
  - unfold len. simpl. do 2 f_equal. lia.
  - rewrite tick_triggers_rests.
    + rewrite IH; [|intros i' name bars Hi' Hin; apply (Hall i' name bars); [right|]; assumption].
      do 2 f_equal. unfold len. simpl. lia.
    + intros name bars Hin. apply (Hall i name bars); [left | exact Hin].
Qed.

Lemma patterns_loop_yields (instruments_ : gmap string object) (tpi : float)
    (ps : list pattern) (index : Z) (ys : list (Z * float * list trigger)) (r : option exn) :
  patterns_loop instruments_ tpi ps index = (ys, r) ->
  Forall (fun y => index <= tick_of y < index + count_ticks ps
                   /\ triggered instruments_ tpi y) ys
  /\ StronglySorted (fun a b => tick_of a < tick_of b) ys.
Proof.
  revert index ys r. induction ps as [|p ps IH]; intros index ys r; simpl.
  - intros H. injection H as <- <-. split; constructor.
  - destruct p as [|[name0 bars0] items].
    + intros H. injection H as <- <-. split; constructor.
    + destruct (ticks_loop _ _ _ _ index) as [ys0 r0] eqn:Hl.
      destruct (ticks_loop_yields _ _ _ _ _ _ _ Hl) as (Hf & Hs & Hr).
      assert (Hrange : len (seq 0 (String.length bars0)) = slen bars0).
      { unfold len, slen. rewrite length_seq. reflexivity. }
      rewrite Hrange in *.
      assert (Hc : 0 <= count_ticks ps).
      { clear. induction ps as [|[|[n b] q] ps IH]; simpl; try lia.
        unfold slen. lia. }
      assert (Hb : 0 <= slen bars0) by (unfold slen; lia).
      destruct r0 as [index'|e].
      * destruct (patterns_loop instruments_ tpi ps index') as [zs r'] eqn:Hp.
        intros H. injection H as <- <-.
        destruct (IH _ _ _ Hp) as (Hf' & Hs').
        rewrite (Hr index' eq_refl) in Hf'.
        split.
        -- apply Forall_app. split.
           ++ eapply Forall_impl; [exact Hf|]. intros y [Hy Ht]. split; [lia | exact Ht].
           ++ eapply Forall_impl; [exact Hf'|]. intros y [Hy Ht]. split; [lia | exact Ht].
        -- apply StronglySorted_app_2; [|exact Hs | exact Hs'].
           intros x1 x2 H1 H2.
           rewrite Forall_forall in Hf, Hf'.
           destruct (Hf x1 H1) as [Hx1 _]. destruct (Hf' x2 H2) as [Hx2 _]. lia.
      * intros H. injection H as <- <-. split; [|exact Hs].
        eapply Forall_impl; [exact Hf|]. intros y [Hy Ht]. split; [lia | exact Ht].
Qed.

(** X18.  [Mixer.mixed_triggers]: the items come with strictly increasing
    indices from 0 up to the number of ticks; the time of each is its index
    times [time_per_index]; each has triggers, and every trigger is a name
    with the sample of the instrument table under that name. *)
Theorem mixed_triggers_yields (m : Mixer) (tpi : float)
    (items : list (Z * float * list trigger)) (r : option exn) :
  time_per_index m = OK tpi -> mixed_triggers m = (items, r) ->
  StronglySorted (fun a b => tick_of a < tick_of b) items
  /\ Forall (fun item => 0 <= tick_of item < count_ticks (patterns m)
                         /\ triggered (instruments m) tpi item) items.
Proof.
  intros Ht. unfold mixed_triggers. rewrite Ht. intros H.
  destruct (patterns_loop_yields _ _ _ _ _ _ H) as [Hf Hs]. split; [exact Hs|].
  eapply Forall_impl; [exact Hf|]. intros y [Hy Hg]. split; [lia | exact Hg].
Qed.

Lemma mixed_triggers_yields_witness :
  StronglySorted (fun a b => tick_of a < tick_of b) [(0, 0%float, [("kick", mkObject 1 click)])]
  /\ Forall (fun item => 0 <= tick_of item < count_ticks (patterns one_bar)
                         /\ triggered (instruments one_bar) 0.1171875%float item)
            [(0, 0%float, [("kick", mkObject 1 click)])].
Proof.
  apply (mixed_triggers_yields one_bar 0.1171875%float
           [(0, 0%float, [("kick", mkObject 1 click)])] None); reflexivity.
Defined.

Lemma patterns_loop_defined (instruments_ : gmap string object) (ticks_ : Z) (tpi : float)
    (ps : list pattern) (index : Z) :
  (forall p, p ∈ ps -> p <> [] /\ check_bars instruments_ ticks_ 0 p = OK tt) ->
  0 <= index -> index + count_ticks ps < 2 ^ 53 ->
  exists ys, patterns_loop instruments_ tpi ps index = (ys, None).
Proof.
  revert index. induction ps as [|p ps IH]; intros index Hall H0 Hmax; simpl; [eauto|].
  destruct (Hall p) as [Hne Hok]; [left|].
  destruct p as [|[name0 bars0] items]; [congruence|].
  assert (Hc : 0 <= count_ticks ps).
  { clear. induction ps as [|[|[n b] q] ps IH]; simpl; try lia. unfold slen. lia. }
  assert (Hb : 0 <= slen bars0) by (unfold slen; lia).
  simpl in Hmax.
  assert (Hrange : len (seq 0 (String.length bars0)) = slen bars0).
  { unfold len, slen. rewrite length_seq. reflexivity. }
  destruct (ticks_loop_defined instruments_ tpi ((name0, bars0) :: items)
              (seq 0 (String.length bars0)) index) as [ys0 Hys0]; [|lia|lia|].
  { intros i name bars Hi Hin.
    destruct (check_bars_OK _ _ _ _ Hok name bars Hin) as (Hsome & _).
    split; [exact Hsome|].
    apply elem_of_seq in Hi. simpl in Hi.
    apply list_elem_of_lookup in Hin as [j Hj].
    destruct j as [|j].
    - simpl in Hj. injection Hj as <- <-. lia.
    - pose proof (check_bars_lengths _ _ _ _ Hok 0 (S j) (name0, bars0) (name, bars)
                    ltac:(lia) eq_refl Hj) as Hl.
      simpl in Hl. unfold slen in Hl. lia. }
  rewrite Hys0, Hrange.
  destruct (IH (index + slen bars0)) as [zs Hzs]; [|lia|lia|].
  { intros p' Hp'. apply Hall. right. exact Hp'. }
  rewrite Hzs. eauto.
Qed.

(** X19.  [Mixer.mixed_triggers] of a mixer that [Mixer.__init__] made, without an
    empty pattern, with a positive tempo and tick count: the generator ends
    without an exception. *)
Theorem mixed_triggers_of_a_constructed_mixer (patterns_ : list pattern) (bpm_ ticks_ : Z)
    (instruments_ : gmap string object) (m : Mixer) :
  Mixer_init patterns_ bpm_ ticks_ instruments_ = OK m ->
  [] ∉ patterns_ -> 0 < bpm_ < 2 ^ 53 -> 0 < ticks_ < 2 ^ 53 ->
  count_ticks patterns_ < 2 ^ 53 ->
  exists items, mixed_triggers m = (items, None).
Proof.
  intros Hinit Hne Hbpm Hticks Hcount.
  destruct (Mixer_init_OK _ _ _ _ _ Hinit) as [-> Hok].
  unfold mixed_triggers, time_per_index. simpl.
  destruct (float_div_int_small 60%float bpm_) as (a & _ & _ & -> & _); [lia | lia |].
  simpl.
  destruct (float_div_int_small a ticks_) as (tpi & _ & _ & -> & _); [lia | lia |].
  apply (patterns_loop_defined instruments_ ticks_); [|lia|lia].
  intros p Hp. split; [|apply Hok; exact Hp].
  intros ->. contradiction.
Qed.

Lemma mixed_triggers_of_a_constructed_mixer_witness :
  exists items, mixed_triggers one_bar = (items, None).
Proof.
  apply (mixed_triggers_of_a_constructed_mixer [[("kick", "x...")]] 128 4 kit one_bar);
    [reflexivity | | lia | lia | vm_compute; reflexivity].
  intros H. apply list_elem_of_singleton in H. discriminate H.
Defined.

(** ** mixed_samples *)

Lemma max_duration_in (best : object) (best_key : float) (rest : list trigger) (o : object) :
  max_duration best best_key rest = OK o -> o = best \/ exists name, (name, o) ∈ rest.
Proof.
  revert best best_key. induction rest as [|[name s] rest IH]; intros best best_key; simpl.
  - intros H. injection H as <-. left. reflexivity.
  - unfold rbind. destruct (duration (value s)) as [k|]; [|discriminate].
    destruct (best_key <? k)%float; intros H; apply IH in H as [->|[n Hn]].
    + right. exists name. left.
    + right. exists n. right. exact Hn.
    + left. reflexivity.
    + right. exists n. right. exact Hn.
Qed.

Lemma max_duration_defined (best : object) (best_key : float) (rest : list trigger) :
  Forall (fun t : trigger => exists d, duration (value (snd t)) = OK d) rest ->
  exists o, max_duration best best_key rest = OK o.
Proof.
  intros H. revert best best_key.
  induction H as [|[name s] rest [d Hd] _ IH]; intros best best_key; simpl; [eauto|].
  simpl in Hd. rewrite Hd. simpl. destruct (best_key <? d)%float; apply IH.
Qed.

Lemma in_format_duration (rate channels width : Z) (s : Sample) :
  0 < rate < 2 ^ 53 -> 0 < channels < 2 ^ 53 -> 1 <= width <= 4 ->
  in_format rate channels width s -> exists d, duration s = OK d.
Proof.
  intros Hr Hc Hw (Hsr & Hsc & Hsw & f & Hf & Hm & Hlen).
  destruct (duration_OK s f) as (d & Hd & _); try assumption; try lia.
  eauto.
Qed.

Lemma set_frames_set_frames (f g : option bytes) (s : Sample) :
  set_frames f (set_frames g s) = set_frames f s.
Proof. reflexivity. Qed.

(** The loop over the triggers: every sample but the longest is mixed into
    the copy, which grows to the longest of them. *)
Lemma mix_others_Returned (rate channels width : Z) (longest_sample : object)
    (triggers : list trigger) (cur : Sample) (fc : bytes) :
  1 <= width <= 4 ->
  Forall (fun t : trigger => in_format rate channels width (value (snd t))) triggers ->
  locked cur = false -> samplerate cur = rate -> nchannels cur = channels ->
  sampwidth cur = width -> frames cur = Some fc -> len fc mod width = 0 ->
  exists fc',
    mix_others longest_sample triggers cur = Returned tt (set_frames (Some fc') cur)
    /\ len fc' mod width = 0 /\ len fc <= len fc'
    /\ (forall t, t ∈ triggers -> ident (snd t) <> ident longest_sample ->
                  buffer_len (value (snd t)) <= len fc')
    /\ (len fc' = len fc \/ exists t, t ∈ triggers /\ buffer_len (value (snd t)) = len fc').
Proof.
  intros Hw Hall. revert cur fc.
  induction Hall as [|[name s] triggers Hs _ IH]; intros cur fc Hl Hr Hc Hsw Hf Hm.
  - exists fc. simpl. unfold ret. rewrite (set_frames_same cur fc Hf).
    repeat split; [exact Hm | lia | | left; reflexivity].
    intros t Ht. inversion Ht.
  - simpl in Hs. destruct Hs as (Hsr & Hsc & Hssw & f & Hsf & Hsm & Hslen).
    simpl mix_others.
    destruct (Pos.eqb_spec (ident s) (ident longest_sample)) as [Heq|Hne].
    + destruct (IH cur fc Hl Hr Hc Hsw Hf Hm) as (fc' & Hmix & Hm' & Hle & Hothers & Hex).
      exists fc'. unfold bind, ret. split; [exact Hmix|]. split; [exact Hm'|].
      split; [exact Hle|]. split.
      * intros t Ht Hid. apply elem_of_cons in Ht as [->|Ht]; [simpl in Hid; contradiction|].
        apply Hothers; assumption.
      * destruct Hex as [Hex|(t & Ht & Hlen)]; [left; exact Hex|].
        right. exists t. split; [right; exact Ht | exact Hlen].
    + destruct (mix_pad_Returned cur (value s) fc f) as (mixed & _ & Hlen & Hmix);
        try congruence; try (rewrite Hsw; assumption).
      destruct (IH (set_frames (Some mixed) cur) mixed) as (fc' & Hrest & Hm' & Hle & Hothers & Hex);
        try assumption; try reflexivity.
      { rewrite Hlen.
        destruct (Z.max_spec (len fc) (len f)) as [[_ ->]|[_ ->]]; assumption. }
      exists fc'. rewrite (bind_Returned _ _ _ _ _ Hmix), Hrest.
      rewrite set_frames_set_frames.
      split; [reflexivity|]. split; [exact Hm'|]. split; [lia|]. split.
      * intros t Ht Hid. apply elem_of_cons in Ht as [->|Ht].
        -- simpl. unfold buffer_len. rewrite Hsf. lia.
        -- apply Hothers; assumption.
      * destruct Hex as [Hex|(t & Ht & Hlent)].
        -- destruct (Z.max_spec (len fc) (len f)) as [[_ Hmax]|[_ Hmax]].
           ++ right. exists (name, s). split; [left|].
              simpl. unfold buffer_len. rewrite Hsf. lia.
           ++ left. lia.
        -- right. exists t. split; [right; exact Ht | exact Hlent].
Qed.

(** X20.  The sample that [mixed_samples] makes of the triggers of a tick: for
    samples of one format, each with one object under its identity, a
    locked sample of that format, as long as the longest of them. *)
Theorem mix_triggers_mixes_all (triggers : list trigger) (rate channels width : Z) :
  triggers <> [] ->
  0 < rate < 2 ^ 53 -> 0 < channels < 2 ^ 53 -> 1 <= width <= 4 ->
  Forall (fun t : trigger => in_format rate channels width (value (snd t))) triggers ->
  (forall t1 t2, t1 ∈ triggers -> t2 ∈ triggers ->
                 ident (snd t1) = ident (snd t2) -> snd t1 = snd t2) ->
  exists mixed,
    mix_triggers triggers = OK mixed
    /\ locked mixed = true /\ in_format rate channels width mixed
    /\ (forall t, t ∈ triggers -> buffer_len (value (snd t)) <= buffer_len mixed)
    /\ (exists t, t ∈ triggers /\ buffer_len (value (snd t)) = buffer_len mixed).
Proof.
  intros Hne Hr Hc Hw Hall Hid.
  assert (Hdur : Forall (fun t : trigger => exists d, duration (value (snd t)) = OK d) triggers).
  { eapply Forall_impl; [exact Hall|]. intros t Ht.
    exact (in_format_duration rate channels width _ Hr Hc Hw Ht). }
  destruct triggers as [|[name0 s0] rest]; [congruence|].
  assert (Hlongest : exists o name, longest ((name0, s0) :: rest) = OK o
                                    /\ (name, o) ∈ (name0, s0) :: rest).
  { unfold longest. inversion Hdur as [|t l [d Hd] Hrest]; subst. simpl in Hd.
    rewrite Hd. simpl.
    destruct (max_duration_defined s0 d rest Hrest) as [o Ho].
    exists o. destruct (max_duration_in _ _ _ _ Ho) as [->|[n Hn]].
    - exists name0. split; [exact Ho | left].
    - exists n. split; [exact Ho | right; exact Hn]. }
  destruct Hlongest as (o & name & Ho & Hin).
  rewrite Forall_forall in Hall.
  destruct (Hall _ Hin) as (Hor & Hoc & How & fo & Hof & Hom & Holen).
  simpl in Hor, Hoc, How, Hof, Hom, Holen.
  rewrite <- Forall_forall in Hall.
  destruct (mix_others_Returned rate channels width o ((name0, s0) :: rest) (dup (value o)) fo)
    as (fc' & Hmix & Hm' & Hle & Hothers & Hex);
    try assumption; try reflexivity; try (simpl; assumption).
  assert (Hmt : forall trs l, longest trs = OK l ->
                mix_triggers trs
                = match (mix_others l trs ;; lock) (dup (value l)) with
                  | Returned _ mixed => OK mixed
                  | Raised e _ => Raise e
                  end).
  { intros trs l Hl. unfold mix_triggers. rewrite Hl. reflexivity. }
  eexists. split.
  { etransitivity; [exact (Hmt _ _ Ho)|].
    rewrite (bind_Returned _ _ _ _ _ Hmix). unfold lock, update. reflexivity. }
  split; [reflexivity|].
  assert (Hbl : buffer_len (set_locked true (set_frames (Some fc') (dup (value o)))) = len fc')
    by reflexivity.
  assert (Hfc' : len fc' < 2 ^ 53).
  { destruct Hex as [->|(t & Ht & <-)]; [exact Holen|].
    rewrite Forall_forall in Hall. destruct (Hall t Ht) as (_ & _ & _ & f & Hf & _ & Hlen).
    unfold buffer_len. rewrite Hf. exact Hlen. }
  split; [|split].
  - repeat split; try assumption. exists fc'. repeat split; assumption.
  - intros t Ht. rewrite Hbl.
    destruct (Pos.eq_dec (ident (snd t)) (ident o)) as [Heq|Hneq].
    + rewrite (Hid t (name, o) Ht Hin Heq). simpl. unfold buffer_len. rewrite Hof. exact Hle.
    + apply Hothers; assumption.
  - rewrite Hbl. destruct Hex as [Hex|(t & Ht & Hlen)].
    + exists (name, o). split; [exact Hin|]. simpl. unfold buffer_len. rewrite Hof. lia.
    + exists t. split; assumption.
Qed.

Lemma mix_triggers_locked (triggers : list trigger) (mixed : Sample) :
  mix_triggers triggers = OK mixed -> locked mixed = true.
Proof.
  unfold mix_triggers, rbind. destruct (longest triggers) as [o|]; [|discriminate].
  unfold bind, lock, update.
  destruct (mix_others o triggers (dup (value o))) as [a s|e s]; [|discriminate].
  intros H. injection H as <-. reflexivity.
Qed.

Lemma samples_loop_yields (mix_cache : gmap (list string) Sample)
    (items : list (Z * float * list trigger)) (ys : list (Z * float * Sample))
    (r : option exn) :
  map_Forall (fun _ s => locked s = true) mix_cache ->
  samples_loop mix_cache items = (ys, r) ->
  (r = None -> length ys = length items)
  /\ forall (k : nat) index timestamp sample,
       ys !! k = Some (index, timestamp, sample) ->
       exists triggers, items !! k = Some (index, timestamp, triggers)
                        /\ sample_of triggers sample.
Proof.
  revert mix_cache ys r.
  induction items as [|[[index0 timestamp0] triggers0] items IH]; intros mix_cache ys r Hc; simpl.
  - intros H. injection H as <- <-. split; [reflexivity|]. intros k ? ? ? Hk. inversion Hk.
  - assert (Hcons : forall cache' sample0 more r',
               map_Forall (fun _ s => locked s = true) cache' ->
               sample_of triggers0 sample0 ->
               samples_loop cache' items = (more, r') ->
               (r' = None -> length ((index0, timestamp0, sample0) :: more)
                             = S (length items))
               /\ forall (k : nat) index timestamp sample,
                    ((index0, timestamp0, sample0) :: more) !! k = Some (index, timestamp, sample) ->
                    exists triggers,
                      ((index0, timestamp0, triggers0) :: items) !! k
                      = Some (index, timestamp, triggers) /\ sample_of triggers sample).
    { intros cache' sample0 more r' Hc' Hs0 Hl.
      destruct (IH _ _ _ Hc' Hl) as [Hlen Hk]. split.
      - intros Hr. simpl. rewrite (Hlen Hr). reflexivity.
      - intros [|k] index timestamp sample Hl'; simpl in *.
        + injection Hl' as <- <- <-. eauto.
        + apply Hk. exact Hl'. }
    destruct triggers0 as [|[name1 s1] [|t2 rest]].
    + intros H. injection H as <- <-. split; [discriminate|].
      intros k ? ? ? Hk. inversion Hk.
    + destruct (samples_loop mix_cache items) as [more r'] eqn:Hl.
      intros H. injection H as <- <-.
      apply (Hcons mix_cache (value s1) more r' Hc); [reflexivity | exact Hl].
    + match goal with |- context [mix_cache !! ?k] => set (key := k) end.
      destruct (mix_cache !! key) as [mixed|] eqn:Hhit.
      * destruct (samples_loop mix_cache items) as [more r'] eqn:Hl.
        intros H. injection H as <- <-.
        apply (Hcons mix_cache mixed more r' Hc); [|exact Hl].
        exact (Hc key mixed Hhit).
      * match goal with |- context [mix_triggers ?t] =>
          destruct (mix_triggers t) as [mixed|e] eqn:Hmix end.
        -- destruct (samples_loop (<[key:=mixed]> mix_cache) items) as [more r'] eqn:Hl.
           intros H. injection H as <- <-.
           pose proof (mix_triggers_locked _ _ Hmix) as Hlocked.
           apply (Hcons (<[key:=mixed]> mix_cache) mixed more r'); [|exact Hlocked|exact Hl].
           apply map_Forall_insert_2; assumption.
        -- intros H. injection H as <- <-. split; [discriminate|].
           intros k ? ? ? Hk. inversion Hk.
Qed.

(** X21.  [Mixer.mixed_samples]: the items it yields are, one for one and in
    order, the items of [mixed_triggers], with their index and time; the
    sample is the one of the instrument for a tick with one trigger, and a
    locked sample for a tick with several. *)
Theorem mixed_samples_yields (m : Mixer) (items : list (Z * float * list trigger))
    (r : option exn) (ys : list (Z * float * Sample)) (r' : option exn) :
  mixed_triggers m = (items, r) -> mixed_samples m = (ys, r') ->
  (r' = None -> r = None /\ length ys = length items)
  /\ forall (k : nat) index timestamp sample,
       ys !! k = Some (index, timestamp, sample) ->
       exists triggers, items !! k = Some (index, timestamp, triggers)
                        /\ sample_of triggers sample.
Proof.
  intros Ht. unfold mixed_samples. rewrite Ht.
  destruct (samples_loop ∅ items) as [ys0 r0] eqn:Hl.
  intros H. injection H as <- <-.
  destruct (samples_loop_yields ∅ items ys0 r0 (map_Forall_empty _) Hl) as [Hlen Hk].
  split; [|exact Hk].
  destruct r0; [discriminate|]. intros ->. split; [reflexivity | apply Hlen; reflexivity].
Qed.

Lemma mixed_samples_yields_witness :
  (@None exn = None ->
   @None exn = None /\ length [(0, 0%float, click)] = length [(0, 0%float, [("kick", mkObject 1 click)])])
  /\ forall (k : nat) index timestamp sample,
       [(0, 0%float, click)] !! k = Some (index, timestamp, sample) ->
       exists triggers, [(0, 0%float, [("kick", mkObject 1 click)])] !! k
                        = Some (index, timestamp, triggers)
                        /\ sample_of triggers sample.
Proof.
  apply (mixed_samples_yields one_bar [(0, 0%float, [("kick", mkObject 1 click)])] None
           [(0, 0%float, click)] None); reflexivity.
Defined.

Lemma mix_triggers_mixes_all_witness :
  exists mixed,
    mix_triggers [("kick", mkObject 1 click); ("snare", mkObject 2 clack)] = OK mixed
    /\ locked mixed = true /\ in_format 44100 2 4 mixed
    /\ (forall t, t ∈ [("kick", mkObject 1 click); ("snare", mkObject 2 clack)] ->
                  buffer_len (value (snd t)) <= buffer_len mixed)
    /\ (exists t, t ∈ [("kick", mkObject 1 click); ("snare", mkObject 2 clack)]
                  /\ buffer_len (value (snd t)) = buffer_len mixed).
Proof.
  apply (mix_triggers_mixes_all [("kick", mkObject 1 click); ("snare", mkObject 2 clack)]
           44100 2 4); try lia; try discriminate.
  - repeat constructor; simpl; eexists; repeat split; vm_compute; reflexivity.
  - intros t1 t2 H1 H2.
    apply elem_of_cons in H1 as [->|H1]; [|apply list_elem_of_singleton in H1 as ->];
      (apply elem_of_cons in H2 as [->|H2]; [|apply list_elem_of_singleton in H2 as ->]);
      simpl; intros H; try reflexivity; discriminate H.
Defined.

Lemma length_insert_name (x : string) (l : list string) :
  length (insert_name x l) = S (length l).
Proof.
  induction l as [|y l IH]; simpl; [reflexivity|].
  destruct (String.leb x y); simpl; [reflexivity | rewrite IH; reflexivity].
Qed.

Lemma length_sorted (l : list string) : length (sorted l) = length l.
Proof.
  induction l as [|x l IH]; simpl; [reflexivity|].
  unfold sorted in *. simpl. rewrite length_insert_name, IH. reflexivity.
Qed.

Lemma samples_loop_cache (mix_cache : gmap (list string) Sample)
    (items : list (Z * float * list trigger)) (ys : list (Z * float * Sample))
    (r : option exn) :
  samples_loop mix_cache items = (ys, r) ->
  forall (k : nat) index timestamp sample triggers,
    ys !! k = Some (index, timestamp, sample) ->
    items !! k = Some (index, timestamp, triggers) -> (2 <= length triggers)%nat ->
    (forall s0, mix_cache !! sorted (map fst triggers) = Some s0 -> sample = s0)
    /\ forall (k2 : nat) index2 timestamp2 sample2 triggers2,
         (k < k2)%nat -> ys !! k2 = Some (index2, timestamp2, sample2) ->
         items !! k2 = Some (index2, timestamp2, triggers2) ->
         (2 <= length triggers2)%nat ->
         sorted (map fst triggers2) = sorted (map fst triggers) -> sample2 = sample.
Proof.
  revert mix_cache ys r.
  induction items as [|[[index0 timestamp0] triggers0] items IH]; intros mix_cache ys r; simpl.
  - intros _ k ? ? ? ? _ Hk. inversion Hk.
  - (* what a step gives, from the cache it leaves to the rest *)
    assert (Hstep : forall cache' sample0 more r',
               samples_loop cache' items = (more, r') ->
               ((2 <= length triggers0)%nat ->
                cache' !! sorted (map fst triggers0) = Some sample0) ->
               (forall key s0, mix_cache !! key = Some s0 -> cache' !! key = Some s0) ->
               ((2 <= length triggers0)%nat ->
                forall s0, mix_cache !! sorted (map fst triggers0) = Some s0 -> sample0 = s0) ->
               forall (k : nat) index timestamp sample triggers,
                 ((index0, timestamp0, sample0) :: more) !! k = Some (index, timestamp, sample) ->
                 ((index0, timestamp0, triggers0) :: items) !! k
                 = Some (index, timestamp, triggers) ->
                 (2 <= length triggers)%nat ->
                 (forall s0, mix_cache !! sorted (map fst triggers) = Some s0 -> sample = s0)
                 /\ forall (k2 : nat) index2 timestamp2 sample2 triggers2,
                      (k < k2)%nat ->
                      ((index0, timestamp0, sample0) :: more) !! k2
                      = Some (index2, timestamp2, sample2) ->
                      ((index0, timestamp0, triggers0) :: items) !! k2
                      = Some (index2, timestamp2, triggers2) ->
                      (2 <= length triggers2)%nat ->
                      sorted (map fst triggers2) = sorted (map fst triggers) ->
                      sample2 = sample).
    { intros cache' sample0 more r' Hl Hnow Hgrow Hold k index timestamp sample triggers Hy Hi Hlen.
      destruct k as [|k]; simpl in Hy, Hi.
      - injection Hy as <- <- <-. injection Hi as <-. split; [apply Hold; exact Hlen|].
        intros [|k2] index2 timestamp2 sample2 triggers2 Hlt Hy2 Hi2 Hlen2 Hkey; [lia|].
        simpl in Hy2, Hi2.
        destruct (IH _ _ _ Hl k2 _ _ _ _ Hy2 Hi2 Hlen2) as [Hc _].
        apply Hc. rewrite Hkey. apply Hnow. exact Hlen.
      - destruct (IH _ _ _ Hl k _ _ _ _ Hy Hi Hlen) as [Hc Hlater]. split.
        + intros s0 Hs0. apply Hc, Hgrow, Hs0.
        + intros [|k2] index2 timestamp2 sample2 triggers2 Hlt Hy2 Hi2 Hlen2 Hkey; [lia|].
          simpl in Hy2, Hi2. apply (Hlater k2 index2 timestamp2 sample2 triggers2); try assumption.
          lia. }
    destruct triggers0 as [|[name1 s1] [|t2 rest]].
    + intros H. injection H as <- <-. intros k ? ? ? ? Hk. inversion Hk.
    + destruct (samples_loop mix_cache items) as [more r'] eqn:Hl.
      intros H. injection H as <- <-.
      apply (Hstep mix_cache (value s1) more r' Hl); simpl; try lia. auto.
    + match goal with |- context [mix_cache !! ?k] => set (key := k) end.
      destruct (mix_cache !! key) as [mixed|] eqn:Hhit.
      * destruct (samples_loop mix_cache items) as [more r'] eqn:Hl.
        intros H. injection H as <- <-.
        apply (Hstep mix_cache mixed more r' Hl).
        -- intros _. exact Hhit.
        -- auto.
        -- intros _ s0 Hs0. fold key in Hs0. congruence.
      * match goal with |- context [mix_triggers ?t] =>
          destruct (mix_triggers t) as [mixed|e] eqn:Hmix end.
        -- destruct (samples_loop (<[key:=mixed]> mix_cache) items) as [more r'] eqn:Hl.
           intros H. injection H as <- <-.
           apply (Hstep (<[key:=mixed]> mix_cache) mixed more r' Hl).
           ++ intros _. apply lookup_insert_eq.
           ++ intros key' s0 Hs0. rewrite lookup_insert_ne; [exact Hs0|].
              intros <-. congruence.
           ++ intros _ s0 Hs0. fold key in Hs0. congruence.
        -- intros H. injection H as <- <-. intros k ? ? ? ? Hk. inversion Hk.
Qed.

(** X22.  [Mixer.mixed_samples] mixes a set of instruments once: two ticks that
    trigger the same instruments, in whatever order, get the same sample. *)
Theorem mixed_samples_mixes_once (m : Mixer) (items : list (Z * float * list trigger))
    (r : option exn) (ys : list (Z * float * Sample)) (r' : option exn)
    (k1 k2 : nat) (index1 index2 : Z) (timestamp1 timestamp2 : float)
    (sample1 sample2 : Sample) (triggers1 triggers2 : list trigger) :
  mixed_triggers m = (items, r) -> mixed_samples m = (ys, r') ->
  ys !! k1 = Some (index1, timestamp1, sample1) ->
  items !! k1 = Some (index1, timestamp1, triggers1) ->
  ys !! k2 = Some (index2, timestamp2, sample2) ->
  items !! k2 = Some (index2, timestamp2, triggers2) ->
  (2 <= length triggers1)%nat ->
  sorted (map fst triggers1) = sorted (map fst triggers2) ->
  sample1 = sample2.
Proof.
  intros Ht. unfold mixed_samples. rewrite Ht.
  destruct (samples_loop ∅ items) as [ys0 r0] eqn:Hl.
  intros H. injection H as <- _. intros Hy1 Hi1 Hy2 Hi2 Hlen Hkey.
  assert (Hlen2 : (2 <= length triggers2)%nat).
  { pose proof (f_equal length Hkey) as Hk.
    rewrite !length_sorted, !length_map in Hk.
    apply (Nat.le_trans _ _ _ Hlen), Nat.eq_le_incl. exact Hk. }
  destruct (Nat.lt_trichotomy k1 k2) as [Hlt|[->|Hgt]].
  - destruct (samples_loop_cache _ _ _ _ Hl k1 _ _ _ _ Hy1 Hi1 Hlen) as [_ Hlater].
    symmetry. apply (Hlater k2 index2 timestamp2 sample2 triggers2); auto.
  - congruence.
  - destruct (samples_loop_cache _ _ _ _ Hl k2 _ _ _ _ Hy2 Hi2 Hlen2) as [_ Hlater].
    apply (Hlater k1 index1 timestamp1 sample1 triggers1); auto.
Qed.

Lemma mixed_samples_mixes_once_witness :
  exists sample1 sample2 timestamp,
    mixed_samples two_orders = ([(0, 0%float, sample1); (1, timestamp, sample2)], None)
    /\ sample1 = sample2.
Proof.
  eexists _, _, _. split; [vm_compute; reflexivity|].
  eapply (mixed_samples_mixes_once two_orders _ None _ None 0 1);
    [vm_compute; reflexivity | vm_compute; reflexivity
     | reflexivity | reflexivity | reflexivity | reflexivity | simpl; lia | reflexivity].
Defined.

(** ** Mixer.mix: the tempo, empty patterns, rests *)

Lemma count_ticks_nonneg (ps : list pattern) : 0 <= count_ticks ps.
Proof.
  induction ps as [|[|[n b] q] ps IH]; simpl; try lia. unfold slen. lia.
Qed.

Lemma slen_nonneg (s : string) : 0 <= slen s.
Proof. unfold slen. lia. Qed.

Lemma int_mul_float_small (n : Z) (x : float) :
  0 <= n < 2 ^ 53 -> exists y, int_mul_float n x = OK y.
Proof.
  intros Hn. unfold int_mul_float.
  destruct (Z.eq_dec n 0) as [->|Hn0]; [eexists; reflexivity|].
  destruct (float_of_int_small n Hn0 ltac:(lia)) as (f & _ & _ & -> & _).
  simpl. eauto.
Qed.

(** The seconds of one pattern. *)
Lemma bar_seconds_defined (bpm_ ticks_ : Z) (bar : string) :
  0 < bpm_ < 2 ^ 53 -> 0 < ticks_ < 2 ^ 53 -> slen bar < 2 ^ 53 ->
  exists c, (let? a := int_mul_float (slen bar) 60%float in
             let? b := float_div_int a bpm_ in float_div_int b ticks_) = OK c.
Proof.
  intros Hb Ht Hs. pose proof (slen_nonneg bar).
  destruct (int_mul_float_small (slen bar) 60%float) as [a ->]; [lia|]. simpl.
  destruct (float_div_int_small a bpm_) as (b & _ & _ & -> & _); [lia | lia |]. simpl.
  destruct (float_div_int_small b ticks_) as (c & _ & _ & -> & _); [lia | lia |]. eauto.
Qed.

Lemma total_seconds_defined (bpm_ ticks_ : Z) (ps : list pattern) (total : float) :
  0 < bpm_ < 2 ^ 53 -> 0 < ticks_ < 2 ^ 53 -> count_ticks ps < 2 ^ 53 ->
  ([] ∈ ps -> total_seconds bpm_ ticks_ ps total = Raise StopIteration)
  /\ ([] ∉ ps -> exists total', total_seconds bpm_ ticks_ ps total = OK total').
Proof.
  intros Hb Ht. revert total. induction ps as [|p ps IH]; intros total Hc.
  - split; [intros H; inversion H | intros _; simpl; eauto].
  - destruct p as [|[name bar] rest].
    + split; [reflexivity|]. intros H. exfalso. apply H. left.
    + simpl in Hc. pose proof (count_ticks_nonneg ps). pose proof (slen_nonneg bar).
      simpl total_seconds.
      destruct (bar_seconds_defined bpm_ ticks_ bar Hb Ht ltac:(lia)) as [c Hcs].
      unfold rbind in Hcs |- *.
      destruct (int_mul_float (slen bar) 60) as [a|]; [|discriminate].
      destruct (float_div_int a bpm_) as [b|]; [|discriminate].
      rewrite Hcs.
      destruct (IH (total + c)%float ltac:(lia)) as [H1 H2]. split.
      * intros Hin. apply elem_of_cons in Hin as [Hin|Hin]; [discriminate | auto].
      * intros Hnin. apply H2. intros Hin. apply Hnin. right. exact Hin.
Qed.

Lemma sub_zero (x : float) : (x - 0)%float = x.
Proof.
  apply Prim2SF_inj. rewrite sub_spec. change (Prim2SF 0) with (S754_zero false).
  destruct (Prim2SF x) as [[]|[]| |[] m e]; reflexivity.
Qed.

Lemma patterns_loop_rests (instruments_ : gmap string object) (tpi : float)
    (ps : list pattern) (index : Z) :
  (forall p, p ∈ ps -> p <> []) ->
  (forall p name1 bars1 name2 bars2, p ∈ ps -> (name1, bars1) ∈ p -> (name2, bars2) ∈ p ->
     String.length bars1 = String.length bars2) ->
  (forall p name bars, p ∈ ps -> (name, bars) ∈ p -> all_rests bars) ->
  patterns_loop instruments_ tpi ps index = ([], None).
Proof.
  revert index. induction ps as [|p ps IH]; intros index Hne Hlen Hrests; [reflexivity|].
  simpl. destruct p as [|[name0 bars0] items] eqn:Ep.
  - exfalso. apply (Hne []); [left | reflexivity].
  - rewrite ticks_loop_rests.
    + rewrite IH; [reflexivity | | |].
      * intros p' Hp'. apply Hne. right. exact Hp'.
      * intros p' n1 b1 n2 b2 Hp'. apply (Hlen p'). right. exact Hp'.
      * intros p' n b Hp'. apply (Hrests p'). right. exact Hp'.
    + intros i name bars Hi Hin. apply elem_of_seq in Hi. split.
      * rewrite (Hlen _ name bars name0 bars0 ltac:(left) Hin ltac:(left)). lia.
      * apply (Hrests _ name bars ltac:(left) Hin).
Qed.

Section MixEdges.

Variable audioop_mul : bytes -> Z -> float -> result bytes.

(** X23.  [Mixer.mix] with an empty pattern among the patterns raises
    [StopIteration]: the pattern has no first bar to take the length of. *)
Theorem Mixer_mix_of_an_empty_pattern (m : Mixer) (verbose : bool) :
  [] ∈ patterns m -> 0 < bpm m < 2 ^ 53 -> 0 < ticks m < 2 ^ 53 ->
  count_ticks (patterns m) < 2 ^ 53 ->
  Mixer_mix audioop_mul m verbose = Raise StopIteration.
Proof.
  intros Hin Hb Ht Hc. unfold Mixer_mix.
  destruct (patterns m) as [|p ps] eqn:Hp; [inversion Hin|].
  destruct (total_seconds_defined (bpm m) (ticks m) (p :: ps) 0%float Hb Ht Hc) as [H _].
  rewrite (H Hin). reflexivity.
Qed.

(** X24.  [Mixer.mix] of a mixer with a tempo of 0 raises [ZeroDivisionError]. *)
Theorem Mixer_mix_at_tempo_zero (m : Mixer) (verbose : bool) (name bars : string)
    (rest : pattern) (ps : list pattern) :
  patterns m = ((name, bars) :: rest) :: ps -> slen bars < 2 ^ 53 -> bpm m = 0 ->
  Mixer_mix audioop_mul m verbose = Raise ZeroDivisionError.
Proof.
  intros Hp Hs Hb. unfold Mixer_mix. rewrite Hp. simpl total_seconds.
  destruct (int_mul_float_small (slen bars) 60%float) as [a ->];
    [pose proof (slen_nonneg bars); lia|].
  rewrite Hb. reflexivity.
Qed.

(** X25.  [Mixer.mix] of patterns of rests: silence of the total duration, when
    that is positive and has a frame index. *)
Theorem Mixer_mix_of_rests (m : Mixer) (verbose : bool) (total : float) (n : Z) :
  patterns m <> [] -> [] ∉ patterns m ->
  (forall p name1 bars1 name2 bars2, p ∈ patterns m ->
     (name1, bars1) ∈ p -> (name2, bars2) ∈ p -> String.length bars1 = String.length bars2) ->
  (forall p name bars, p ∈ patterns m -> (name, bars) ∈ p -> all_rests bars) ->
  bpm m <> 0 -> ticks m <> 0 -> - 2 ^ 53 < bpm m < 2 ^ 53 -> - 2 ^ 53 < ticks m < 2 ^ 53 ->
  total_seconds (bpm m) (ticks m) (patterns m) 0%float = OK total ->
  (0 <? total)%float = true ->
  frame_idx (mkSample (Some []) 44100 2 4 false None) total = OK n ->
  Mixer_mix audioop_mul m verbose = OK (mkSample (Some (zeros n)) 44100 2 4 false None).
Proof.
  intros Hne Hnoempty Hlen Hrests Hb0 Ht0 Hb Ht Htotal Hpos Hidx.
  set (working := mkSample (Some []) 44100 2 4 false None) in *.
  assert (Htriggers : mixed_triggers m = ([], None)).
  { unfold mixed_triggers, time_per_index.
    destruct (float_div_int_small 60%float (bpm m) Hb0 Hb) as (a & _ & _ & -> & _). simpl.
    destruct (float_div_int_small a (ticks m) Ht0 Ht) as (tpi & _ & _ & -> & _).
    apply patterns_loop_rests; [|exact Hlen | exact Hrests].
    intros p Hp ->. contradiction. }
  assert (Hall : mix_all audioop_mul m verbose total Sample_new = Returned tt working).
  { unfold mix_all. rewrite (bind_Returned _ _ _ _ _ (make_32bit_new audioop_mul)).
    unfold mixed_samples. rewrite Htriggers. reflexivity. }
  apply (Mixer_mix_Returned audioop_mul m verbose total working); try assumption.
  assert (Hd : duration working = OK 0%float) by reflexivity.
  assert (Hn0 : 0 <= n).
  { apply (frame_idx_nonneg working total); simpl; try lia; [|exact Hidx].
    apply ltb_leb_zero, Hpos. }
  rewrite (chop_or_extend_append total working [] 0%float n);
    try reflexivity; try exact Hn0; rewrite sub_zero; assumption.
Qed.

End MixEdges.

Lemma Mixer_mix_of_an_empty_pattern_witness :
  Mixer_mix mul_raises (mkMixer [[("kick", "x...")]; []] 128 4 kit) true = Raise StopIteration.
Proof.
  apply Mixer_mix_of_an_empty_pattern; simpl; try lia; [|vm_compute; reflexivity].
  right. left.
Defined.

Lemma Mixer_mix_at_tempo_zero_witness :
  Mixer_mix mul_raises (mkMixer [[("kick", "x...")]] 0 4 kit) true = Raise ZeroDivisionError.
Proof.
  apply (Mixer_mix_at_tempo_zero mul_raises _ true "kick" "x..." [] []);
    [reflexivity | vm_compute; reflexivity | reflexivity].
Defined.

Lemma all_rests_dots : all_rests "....".
Proof.
  intros i ch. do 4 (destruct i as [|i]; [intros H; injection H as <-; reflexivity|]).
  discriminate.
Qed.

Lemma Mixer_mix_of_rests_witness :
  Mixer_mix mul_raises rests true = OK (mkSample (Some (zeros 165368)) 44100 2 4 false None).
Proof.
  apply (Mixer_mix_of_rests mul_raises rests true 0.46875%float 165368);
    try reflexivity; simpl; try lia; try discriminate.
  - intros H. apply list_elem_of_singleton in H. discriminate H.
  - intros p n1 b1 n2 b2 Hp H1 H2.
    apply list_elem_of_singleton in Hp as ->.
    apply list_elem_of_singleton in H1. apply list_elem_of_singleton in H2.
    injection H1 as -> ->. injection H2 as -> ->. reflexivity.
  - intros p n b Hp H. apply list_elem_of_singleton in Hp as ->.
    apply list_elem_of_singleton in H. injection H as -> ->. exact all_rests_dots.
Defined.

(** ** Song *)

Lemma dict_set_new (k v : string) (d : pattern) :
  k ∉ map fst d -> dict_set k v d = d ++ [(k, v)].
Proof.
  induction d as [|[k' v'] d IH]; simpl; intros Hk; [reflexivity|].
  destruct (String.eqb_spec k' k) as [->|Hne].
  - exfalso. apply Hk. left.
  - rewrite IH; [reflexivity|]. intros Hin. apply Hk. right. exact Hin.
Qed.

(** The loop over a section with distinct keys: the pattern gets the bars
    without their spaces, in the order of the section, and they pass the
    checks of [Mixer.__init__]. *)
Lemma read_bars_OK (instruments_ : gmap string object) (ticks_ : Z) (name : string)
    (bar_length : Z) (items : list (string * string)) (pat0 pat : pattern) :
  NoDup (map fst pat0 ++ map fst items) ->
  read_bars instruments_ ticks_ name bar_length items pat0 = (OK tt, pat) ->
  pat = pat0 ++ map (fun item => (fst item, remove_spaces (snd item))) items
  /\ check_bars instruments_ ticks_ bar_length
       (map (fun item => (fst item, remove_spaces (snd item))) items) = OK tt.
Proof.
  revert bar_length pat0. induction items as [|[instrument bars] items IH];
    intros bar_length pat0 Hnd; simpl.
  - intros H. injection H as <-. rewrite app_nil_r. split; reflexivity.
  - destruct (instruments_ !! instrument) as [o|]; [|discriminate].
    destruct (ticks_ =? 0); [discriminate|].
    destruct (negb (slen (remove_spaces bars) mod ticks_ =? 0)); [discriminate|].
    destruct ((0 <? bar_length) && negb (bar_length =? slen (remove_spaces bars)));
      [discriminate|].
    assert (Hnew : instrument ∉ map fst pat0).
    { intros Hin. apply NoDup_app in Hnd as (_ & Hdisj & _).
      apply (Hdisj instrument Hin). left. }
    rewrite (dict_set_new _ _ _ Hnew). intros H.
    apply IH in H as [-> Hc].
    + rewrite <- app_assoc. split; [reflexivity | exact Hc].
    + rewrite map_app, <- app_assoc. exact Hnd.
Qed.

Lemma read_names_OK (songdef : gmap string (list (string * string))) (names : list string)
    (self self' : Song) :
  (forall name section, songdef !! name = Some section -> NoDup (map fst section)) ->
  read_names songdef names self = (OK tt, self') ->
  song_instruments self' = song_instruments self /\ song_ticks self' = song_ticks self
  /\ song_bpm self' = song_bpm self /\ output_path self' = output_path self
  /\ pattern_sequence self' = pattern_sequence self ++ names
  /\ (forall name, name ∈ names \/ is_Some (song_patterns self !! name) ->
                   is_Some (song_patterns self' !! name))
  /\ (forall name pat, song_patterns self' !! name = Some pat ->
        song_patterns self !! name = Some pat
        \/ check_bars (song_instruments self) (song_ticks self) 0 pat = OK tt).
Proof.
  intros Hnd. revert self. induction names as [|name names IH]; intros self; simpl.
  - intros H. injection H as <-. rewrite app_nil_r.
    repeat split; auto. intros n [Hn|Hn]; [inversion Hn | exact Hn].
  - destruct (songdef !! ("pattern." +:+ name)) as [section|] eqn:Hs; [|discriminate].
    destruct (read_bars _ _ name 0 section []) as [r pat] eqn:Hb.
    destruct r as [[]|e]; [|discriminate].
    apply read_bars_OK in Hb as [Hpat Hcheck]; [|simpl; eapply Hnd; exact Hs].
    simpl in Hpat. intros H. apply IH in H as (Hi & Ht & Hbpm & Ho & Hseq & Hin & Hgood).
    simpl in *. repeat split; try assumption.
    + rewrite Hseq, <- app_assoc. reflexivity.
    + intros n Hn. apply Hin.
      destruct (decide (n = name)) as [->|Hne].
      * right. rewrite lookup_insert_eq. eexists. reflexivity.
      * rewrite lookup_insert_ne by congruence.
        destruct Hn as [Hn|Hn]; [|right; exact Hn].
        apply elem_of_cons in Hn as [Hn|Hn]; [contradiction | left; exact Hn].
    + intros n p Hp. destruct (Hgood n p Hp) as [Hold|Hok]; [|right; exact Hok].
      destruct (decide (n = name)) as [->|Hne].
      * rewrite lookup_insert_eq in Hold. injection Hold as <-. right.
        rewrite Hpat. exact Hcheck.
      * rewrite lookup_insert_ne in Hold by congruence. left. exact Hold.
Qed.

Lemma sequence_patterns_OK (patterns_ : gmap string pattern) (names : list string) :
  (forall name, name ∈ names -> is_Some (patterns_ !! name)) ->
  exists ps, sequence_patterns patterns_ names = OK ps
             /\ forall p, p ∈ ps -> exists name, patterns_ !! name = Some p.
Proof.
  induction names as [|name names IH]; intros Hall; simpl.
  - exists []. split; [reflexivity|]. intros p Hp. inversion Hp.
  - destruct (Hall name) as [p Hp]; [left|]. rewrite Hp.
    destruct IH as (ps & -> & Hps); [intros n Hn; apply Hall; right; exact Hn|].
    simpl. exists (p :: ps). split; [reflexivity|].
    intros q Hq. apply elem_of_cons in Hq as [->|Hq]; [eauto | apply Hps; exact Hq].
Qed.

Lemma check_patterns_all (instruments_ : gmap string object) (ticks_ : Z) (ps : list pattern) :
  (forall p, p ∈ ps -> check_bars instruments_ ticks_ 0 p = OK tt) ->
  check_patterns instruments_ ticks_ ps = OK tt.
Proof.
  induction ps as [|p ps IH]; intros Hall; simpl; [reflexivity|].
  rewrite (Hall p) by left. simpl. apply IH. intros q Hq. apply Hall. right. exact Hq.
Qed.

(** X26.  What [Song.read_patterns] has read is what [Mixer.__init__] takes: when
    it returns, for sections with distinct keys, the pattern sequence is the
    list of names, every name has its pattern, and the [Mixer] that
    [Song.mix] makes of them is constructed without an exception. *)
Theorem read_patterns_then_Mixer_init (songdef : gmap string (list (string * string)))
    (names : list string) (self self' : Song) :
  (forall name section, songdef !! name = Some section -> NoDup (map fst section)) ->
  read_patterns songdef names self = (OK tt, self') ->
  pattern_sequence self' = names
  /\ song_instruments self' = song_instruments self
  /\ exists patterns_,
       sequence_patterns (song_patterns self') (pattern_sequence self') = OK patterns_
       /\ Mixer_init patterns_ (song_bpm self') (song_ticks self') (song_instruments self')
          = OK (mkMixer patterns_ (song_bpm self') (song_ticks self') (song_instruments self')).
Proof.
  intros Hnd Hread. unfold read_patterns in Hread.
  apply (read_names_OK songdef names _ self' Hnd) in Hread
    as (Hi & Ht & Hbpm & Ho & Hseq & Hin & Hgood).
  simpl in *. split; [exact Hseq|]. split; [exact Hi|].
  destruct (sequence_patterns_OK (song_patterns self') names) as (ps & Hps & Hfrom).
  { intros name Hname. apply Hin. left. exact Hname. }
  exists ps. rewrite Hseq. split; [exact Hps|].
  unfold Mixer_init. rewrite check_patterns_all; [reflexivity|].
  intros p Hp. destruct (Hfrom p Hp) as [name Hname].
  destruct (Hgood name p Hname) as [Hold|Hok].
  - rewrite lookup_empty in Hold. discriminate.
  - rewrite Hi, Ht. exact Hok.
Qed.

Lemma NoDup_songdef_one (name : string) (section : list (string * string)) :
  songdef_one !! name = Some section -> NoDup (map fst section).
Proof.
  unfold songdef_one. intros H. apply lookup_singleton_Some in H as [_ <-].
  simpl. apply (bool_decide_unpack _). vm_compute. reflexivity.
Qed.

Lemma read_patterns_then_Mixer_init_witness :
  let self' := mkSong drums (Some "samples") (Some "out") 128 4 ["intro"; "intro"]
                 {[ "intro" := [("kick", "x...x..."); ("snare", "....x...")] ]} in
  pattern_sequence self' = ["intro"; "intro"]
  /\ song_instruments self' = song_instruments song_loaded
  /\ exists patterns_,
       sequence_patterns (song_patterns self') (pattern_sequence self') = OK patterns_
       /\ Mixer_init patterns_ (song_bpm self') (song_ticks self') (song_instruments self')
          = OK (mkMixer patterns_ (song_bpm self') (song_ticks self') (song_instruments self')).
Proof.
  apply (read_patterns_then_Mixer_init songdef_one ["intro"; "intro"] song_loaded).
  - exact NoDup_songdef_one.
  - vm_compute. reflexivity.
Defined.

Lemma read_bars_Raise (instruments_ : gmap string object) (ticks_ : Z) (name : string)
    (bar_length : Z) (items : list (string * string)) (pat0 pat : pattern) (e : exn) :
  read_bars instruments_ ticks_ name bar_length items pat0 = (Raise e, pat) ->
  ticks_ <> 0 -> exists msg, e = ValueError msg.
Proof.
  revert bar_length pat0. induction items as [|[instrument bars] items IH];
    intros bar_length pat0; simpl; [discriminate|].
  intros H Hticks.
  destruct (instruments_ !! instrument); [|injection H as <- _; eauto].
  destruct (Z.eqb_spec ticks_ 0); [contradiction|].
  destruct (negb (slen (remove_spaces bars) mod ticks_ =? 0)); [injection H as <- _; eauto|].
  destruct ((0 <? bar_length) && negb (bar_length =? slen (remove_spaces bars)));
    [injection H as <- _; eauto|].
  eapply IH; eassumption.
Qed.

Lemma read_names_Raise (songdef : gmap string (list (string * string))) (names : list string)
    (self self' : Song) (e : exn) :
  read_names songdef names self = (Raise e, self') ->
  song_ticks self' = song_ticks self
  /\ (exists before name rest,
         names = before ++ name :: rest
         /\ pattern_sequence self' = pattern_sequence self ++ before
         /\ match songdef !! ("pattern." +:+ name) with
            | None => e = ValueError ("pattern definition not found: " +:+ name)
            | Some _ => is_Some (song_patterns self' !! name)
            end)
  /\ (song_ticks self <> 0 -> exists msg, e = ValueError msg).
Proof.
  revert self. induction names as [|name names IH]; intros self; simpl; [discriminate|].
  destruct (songdef !! ("pattern." +:+ name)) as [section|] eqn:Hs.
  - destruct (read_bars _ _ name 0 section []) as [r pat] eqn:Hb.
    destruct r as [[]|e'].
    + intros H. apply IH in H as (Ht & (before & n & rest & Hnames & Hseq & Hn) & He).
      simpl in *. split; [exact Ht|]. split; [|exact He].
      exists (name :: before), n, rest. rewrite Hnames, Hseq, <- app_assoc.
      repeat split. exact Hn.
    + intros H. injection H as <- <-. simpl. split; [reflexivity|]. split.
      * exists [], name, names. rewrite app_nil_r, Hs. repeat split.
        rewrite lookup_insert_eq. eexists. reflexivity.
      * intros Hticks. exact (read_bars_Raise _ _ _ _ _ _ _ _ Hb Hticks).
  - intros H. injection H as <- <-. split; [reflexivity|]. split; [|eauto].
    exists [], name, names. rewrite app_nil_r, Hs. repeat split.
Qed.

(** X27.  [Song.read_patterns] that raises leaves the song half read: the
    pattern sequence holds the names before the one that failed.  A name
    without a section gives [ValueError]; for a section with a bad bar the
    pattern is in [self.patterns] already.  The exception is a [ValueError]
    unless [ticks] is 0. *)
Theorem read_patterns_raising (songdef : gmap string (list (string * string)))
    (names : list string) (self self' : Song) (e : exn) :
  read_patterns songdef names self = (Raise e, self') ->
  (exists name rest,
      names = pattern_sequence self' ++ name :: rest
      /\ match songdef !! ("pattern." +:+ name) with
         | None => e = ValueError ("pattern definition not found: " +:+ name)
         | Some _ => is_Some (song_patterns self' !! name)
         end)
  /\ (song_ticks self <> 0 -> exists msg, e = ValueError msg).
Proof.
  unfold read_patterns. intros H.
  apply read_names_Raise in H as (_ & (before & name & rest & Hnames & Hseq & Hn) & He).
  simpl in *. split; [|exact He].
  exists name, rest. rewrite Hseq. split; [exact Hnames | exact Hn].
Qed.

Lemma read_patterns_raising_witness :
  let self' := mkSong drums (Some "samples") (Some "out") 128 4 ["intro"]
                 {[ "intro" := [("kick", "x...x..."); ("snare", "....x...")] ]} in
  (exists name rest,
      ["intro"; "outro"] = pattern_sequence self' ++ name :: rest
      /\ match songdef_one !! ("pattern." +:+ name) with
         | None => ValueError "pattern definition not found: outro"
                   = ValueError ("pattern definition not found: " +:+ name)
         | Some _ => is_Some (song_patterns self' !! name)
         end)
  /\ (song_ticks song_loaded <> 0 ->
      exists msg, ValueError "pattern definition not found: outro" = ValueError msg).
Proof.
  apply (read_patterns_raising songdef_one ["intro"; "outro"] song_loaded).
  vm_compute. reflexivity.
Defined.

Lemma bind_Returned_inv {A B} (m : method A) (k : A -> method B) (self self' : Sample) (b : B) :
  bind m k self = Returned b self' ->
  exists a s, m self = Returned a s /\ k a s = Returned b self'.
Proof.
  unfold bind. destruct (m self) as [a s|e s]; intros H; [eauto | discriminate].
Qed.

Section SongMixResult.

Variable audioop_mul : bytes -> Z -> float -> result bytes.

Lemma Mixer_mix_header (m : Mixer) (verbose : bool) (result_ : Sample) :
  Mixer_mix audioop_mul m verbose = OK result_ ->
  samplerate result_ = 44100 /\ nchannels result_ = 2 /\ locked result_ = false
  /\ filename result_ = None.
Proof.
  destruct (patterns m) as [|p ps] eqn:Hp.
  - unfold Mixer_mix. rewrite Hp. intros H. injection H as <-. repeat split.
  - intros H.
    destruct (Mixer_mix_OK audioop_mul m verbose result_) as (total & mixed & _ & Hall & Hchop);
      [rewrite Hp; discriminate | exact H |].
    destruct (mix_all_header audioop_mul _ _ _ _ Hall) as [Hh [f Hf]].
    destruct (chop_or_extend_Returned total mixed result_ f Hh Hf Hchop) as (d & _ & Hres).
    unfold working_header, header in Hh. injection Hh as Hr Hc Hw Hl Hfn.
    destruct (0 <? total - d)%float.
    + destruct Hres as (n & _ & _ & ->). repeat split; assumption.
    + destruct (total - d <? 0)%float.
      * destruct Hres as (n & _ & _ & ->). repeat split; assumption.
      * subst result_. repeat split; assumption.
Qed.

(** [make_16bit] leaves 2 byte samples and keeps the rate, the channels,
    the lock and the file name. *)
Lemma make_16bit_header (maximize_amplitude : bool) (self self' : Sample) :
  make_16bit audioop_mul maximize_amplitude self = Returned tt self' ->
  sampwidth self' = 2 /\ samplerate self' = samplerate self
  /\ nchannels self' = nchannels self /\ locked self' = locked self
  /\ filename self' = filename self.
Proof.
  set (P := fun s : Sample =>
              sampwidth s = sampwidth self /\ samplerate s = samplerate self
              /\ nchannels s = nchannels self /\ locked s = locked self
              /\ filename s = filename self).
  assert (Hamp : returns P (if maximize_amplitude then amplify_max audioop_mul else ret tt) P).
  { destruct maximize_amplitude; [|apply returns_ret].
    unfold amplify_max, assert_not_locked, self_frames. unfold P. keeps. }
  unfold make_16bit. intros H.
  apply bind_Returned_inv in H as (a & s & Hs & H).
  apply (quiet_Returned _ _ _ _ quiet_assert_not_locked) in Hs. subst s.
  apply bind_Returned_inv in H as (self0 & s & Hs & H).
  unfold read, id in Hs. injection Hs as <- <-.
  apply bind_Returned_inv in H as (a' & s & Hs & H).
  assert (Hge : 2 <= sampwidth self).
  { unfold assert_ in Hs. destruct (Z.leb_spec 2 (sampwidth self)); [assumption|].
    discriminate Hs. }
  apply (quiet_Returned _ _ _ _ (quiet_assert _)) in Hs. subst s.
  apply bind_Returned_inv in H as (a'' & s & Hs & H).
  assert (HP : P s) by (apply (Hamp self a'' s); [unfold P; repeat split | exact Hs]).
  destruct HP as (Hw & Hr & Hc & Hl & Hfn).
  apply bind_Returned_inv in H as (self1 & s' & Hs' & H).
  unfold read, id in Hs'. injection Hs' as <- <-.
  destruct (Z.ltb_spec 2 (sampwidth s)).
  - apply bind_Returned_inv in H as (f & s1 & Hs1 & H).
    apply (quiet_Returned _ _ _ _ quiet_self_frames) in Hs1. subst s1.
    apply bind_Returned_inv in H as (f' & s1 & Hs1 & H).
    apply (quiet_Returned _ _ _ _ (quiet_eval _)) in Hs1. subst s1.
    unfold bind, update in H. injection H as <-. simpl. repeat split; assumption.
  - unfold ret in H. injection H as <-. repeat split; try assumption. lia.
Qed.

Lemma sequence_patterns_nonempty (patterns_ : gmap string pattern) (names : list string)
    (ps : list pattern) :
  names <> [] -> sequence_patterns patterns_ names = OK ps -> ps <> [].
Proof.
  destruct names as [|name names]; [congruence|]. intros _. simpl.
  destruct (patterns_ !! name); [|discriminate].
  destruct (sequence_patterns patterns_ names); [|discriminate].
  simpl. intros H. injection H as <-. discriminate.
Qed.

(** X28.  [Song.mix]: the sample it writes and returns is an unlocked stereo
    sample of 16 bits at 44100 Hz; there is one only for a song with an
    output path and a pattern sequence that is not empty, and the patterns
    of the sequence are those that [Mixer.__init__] takes. *)
Theorem Song_mix_writes_16_bit (self : Song) (result_ : Sample) :
  Song_mix audioop_mul self = OK result_ ->
  header result_ = (44100, 2, 2, false, None)
  /\ no_path (output_path self) = false /\ pattern_sequence self <> []
  /\ exists patterns_ mixer,
       sequence_patterns (song_patterns self) (pattern_sequence self) = OK patterns_
       /\ Mixer_init patterns_ (song_bpm self) (song_ticks self) (song_instruments self)
          = OK mixer.
Proof.
  unfold Song_mix.
  destruct (no_path (output_path self)) eqn:Hpath; [discriminate|].
  destruct (bool_decide (pattern_sequence self = [])) eqn:Hseq; [discriminate|].
  apply bool_decide_eq_false in Hseq. simpl.
  destruct (sequence_patterns _ _) as [ps|] eqn:Hps; [|discriminate]. simpl.
  destruct (Mixer_init ps _ _ _) as [mixer|] eqn:Hinit; [|discriminate]. simpl.
  destruct (Mixer_mix audioop_mul mixer true) as [mixed|] eqn:Hmix; [|discriminate]. simpl.
  destruct (make_16bit audioop_mul true mixed) as [[] narrow|] eqn:H16; [|discriminate].
  unfold rbind. destruct (duration narrow); [|discriminate].
  intros H. injection H as <-.
  destruct (Mixer_mix_header _ _ _ Hmix) as (Hr & Hc & Hl & Hfn).
  destruct (make_16bit_header _ _ _ H16) as (Hw' & Hr' & Hc' & Hl' & Hfn').
  split; [|split; [reflexivity|split; [exact Hseq|eauto]]].
  unfold header. congruence.
Qed.

End SongMixResult.

Lemma Song_mix_writes_16_bit_witness :
  header (mkSample (Some (zeros 176)) 44100 2 2 false None) = (44100, 2, 2, false, None)
  /\ no_path (output_path song_of_rests) = false /\ pattern_sequence song_of_rests <> []
  /\ exists patterns_ mixer,
       sequence_patterns (song_patterns song_of_rests) (pattern_sequence song_of_rests)
       = OK patterns_
       /\ Mixer_init patterns_ (song_bpm song_of_rests) (song_ticks song_of_rests)
            (song_instruments song_of_rests) = OK mixer.
Proof.
  apply (Song_mix_writes_16_bit mul_raises song_of_rests).
  vm_compute. reflexivity.
Defined.

(** ** Loading samples *)

Section Loaded.

Variable audioop_ratecv : bytes -> Z -> Z -> Z -> Z -> result bytes.
Variable audioop_tostereo : bytes -> Z -> float -> float -> result bytes.
Variable audioop_mul : bytes -> Z -> float -> result bytes.
Variable wave_open : string -> wave_read + io_exn.
Variable path_join : string -> string -> string.

Lemma Sample_from_wave_inl (path : string) (opened : wave_read + io_exn) (sample : Sample) :
  Sample_from_wave path opened = inl sample ->
  locked sample = false /\ (nchannels sample = 1 \/ nchannels sample = 2)
  /\ filename sample = (if String.eqb path "" then None else Some path)
  /\ (String.eqb path "" = false ->
      exists w, opened = inl w /\ 2 <= getsampwidth w <= 4 /\ 1 <= getnchannels w <= 2).
Proof.
  unfold Sample_from_wave, load_wav. destruct (String.eqb path ""); simpl.
  - intros H. injection H as <-. repeat split; [right; reflexivity | discriminate].
  - destruct opened as [w|e]; [|discriminate].
    destruct (Z.leb_spec 2 (getsampwidth w)) as [H1|_]; simpl; [|discriminate].
    destruct (Z.leb_spec (getsampwidth w) 4) as [H2|_]; simpl; [|discriminate].
    destruct (Z.leb_spec 1 (getnchannels w)) as [H3|_]; simpl; [|discriminate].
    destruct (Z.leb_spec (getnchannels w) 2) as [H4|_]; simpl; [|discriminate].
    intros H. injection H as <-. simpl. repeat split; [lia|].
    intros _. exists w. repeat split; assumption.
Qed.

Lemma normalize_filename (fn : option string) :
  returns (fun s => filename s = fn) (normalize audioop_ratecv audioop_tostereo)
          (fun s => filename s = fn).
Proof. unfold normalize, assert_not_locked, self_frames. keeps. Qed.

Lemma make_32bit_Returned (scale_amplitude : bool) (self self' : Sample) :
  make_32bit audioop_mul scale_amplitude self = Returned tt self' ->
  sampwidth self' = 4 /\ samplerate self' = samplerate self
  /\ nchannels self' = nchannels self /\ locked self' = locked self
  /\ filename self' = filename self.
Proof.
  unfold make_32bit. intros H.
  apply bind_Returned_inv in H as (a & s & Hs & H).
  apply (quiet_Returned _ _ _ _ quiet_assert_not_locked) in Hs. subst s.
  apply bind_Returned_inv in H as (f & s & Hs & H).
  apply (quiet_Returned _ _ _ _ (quiet_eval _)) in Hs. subst s.
  unfold bind, update in H. injection H as <-. repeat split.
Qed.

Lemma load_instrument_header (path : string) (sample : Sample) :
  load_instrument audioop_ratecv audioop_tostereo audioop_mul wave_open path = inl sample ->
  header sample = (44100, 2, 4, true, if String.eqb path "" then None else Some path)
  /\ (String.eqb path "" = false ->
      exists w, wave_open path = inl w
                /\ 2 <= getsampwidth w <= 4 /\ 1 <= getnchannels w <= 2).
Proof.
  unfold load_instrument.
  destruct (Sample_from_wave path (wave_open path)) as [s0|] eqn:H0; [|discriminate].
  apply Sample_from_wave_inl in H0 as (Hl0 & Hc0 & Hf0 & Hwave).
  destruct ((normalize audioop_ratecv audioop_tostereo ;; make_32bit audioop_mul false ;; lock) s0)
    as [[] s3|] eqn:H; [|discriminate].
  intros Hs. injection Hs as <-. split; [|exact Hwave].
  apply bind_Returned_inv in H as ([] & s1 & H1 & H).
  apply bind_Returned_inv in H as ([] & s2 & H2 & H).
  unfold lock, update in H. injection H as <-.
  pose proof (normalize_filename _ s0 tt s1 Hf0 H1) as Hf1.
  apply normalize_Returned in H1 as (Hl1 & Hr1 & Hw1 & _ & Hc1).
  apply make_32bit_Returned in H2 as (Hw2 & Hr2 & Hc2 & Hl2 & Hf2).
  unfold header. simpl.
  rewrite Hw2, Hr2, Hc2, Hf2, Hr1, (Hc1 Hc0), Hf1. reflexivity.
Qed.

(** X29.  An instrument as [Song.read_samples] loads it from a file,
    [Sample(wave_file=path).normalize().make_32bit(scale_amplitude=False).lock()]:
    a locked stereo sample of 32 bits at 44100 Hz, the format of the sample
    that [Mixer.mix] mixes into, with the path of its file; the file had 2
    to 4 bytes a sample and 1 or 2 channels, others are refused. *)
Theorem load_instrument_format (path : string) (sample : Sample) :
  String.eqb path "" = false ->
  load_instrument audioop_ratecv audioop_tostereo audioop_mul wave_open path = inl sample ->
  header sample = (44100, 2, 4, true, Some path)
  /\ exists w, wave_open path = inl w
               /\ 2 <= getsampwidth w <= 4 /\ 1 <= getnchannels w <= 2.
Proof.
  intros Hpath Hload. apply load_instrument_header in Hload as [Hh Hw].
  rewrite Hpath in Hh. split; [exact Hh | exact (Hw Hpath)].
Qed.

Lemma read_samples_loop_inl (samples_path : string) (items : list (string * string))
    (fresh : positive) (self self' : Song) :
  read_samples_loop audioop_ratecv audioop_tostereo audioop_mul wave_open path_join
    samples_path items fresh self = (inl tt, self') ->
  pattern_sequence self' = pattern_sequence self /\ song_patterns self' = song_patterns self
  /\ (forall name file, (name, file) ∈ items -> is_Some (song_instruments self' !! name))
  /\ (forall name o, song_instruments self' !! name = Some o ->
        song_instruments self !! name = Some o
        \/ exists file, (name, file) ∈ items
             /\ load_instrument audioop_ratecv audioop_tostereo audioop_mul wave_open
                  (path_join samples_path file) = inl (value o)
             /\ (fresh <= ident o)%positive)
  /\ (forall name o, song_instruments self !! name = Some o ->
        is_Some (song_instruments self' !! name)).
Proof.
  revert fresh self. induction items as [|[name file] items IH]; intros fresh self; simpl.
  - intros H. injection H as <-. repeat split; auto; try solve [eauto].
    intros n f Hin. inversion Hin.
  - destruct (load_instrument _ _ _ _ (path_join samples_path file)) as [sample|] eqn:Hload;
      [|discriminate].
    intros H. apply IH in H as (Hseq & Hpat & Hall & Hfrom & Hkeep). simpl in *.
    repeat split; try assumption.
    + intros n f Hin. apply elem_of_cons in Hin as [Hin|Hin].
      * injection Hin as -> ->. apply (Hkeep name (mkObject fresh sample)).
        apply lookup_insert_eq.
      * apply (Hall n f Hin).
    + intros n o Ho. destruct (Hfrom n o Ho) as [Hold|(f & Hin & Hl & Hid)].
      * destruct (decide (n = name)) as [->|Hne].
        -- rewrite lookup_insert_eq in Hold. injection Hold as <-.
           right. exists file. split; [left|]. split; [exact Hload | simpl; lia].
        -- rewrite lookup_insert_ne in Hold by congruence. left. exact Hold.
      * right. exists f. split; [right; exact Hin|]. split; [exact Hl | lia].
    + intros n o Ho. destruct (decide (n = name)) as [->|Hne].
      * apply (Hkeep name (mkObject fresh sample)). apply lookup_insert_eq.
      * apply (Hkeep n o). rewrite lookup_insert_ne by congruence. exact Ho.
Qed.

Lemma elem_of_insert_item (x y : string * string) (l : list (string * string)) :
  y ∈ insert_item x l <-> y = x \/ y ∈ l.
Proof.
  induction l as [|z l IH]; simpl.
  - rewrite list_elem_of_singleton, elem_of_nil. tauto.
  - destruct (item_leb x z).
    + rewrite elem_of_cons. reflexivity.
    + rewrite !elem_of_cons, IH. tauto.
Qed.

Lemma elem_of_sorted_items (y : string * string) (l : list (string * string)) :
  y ∈ sorted_items l <-> y ∈ l.
Proof.
  induction l as [|x l IH]; simpl; [reflexivity|].
  rewrite elem_of_insert_item, elem_of_cons, IH. reflexivity.
Qed.

(** X30.  [Song.read_samples] that returns has loaded one instrument for every
    name of the section and no other, each in the format of
    [Mixer.mix]: locked, stereo, 32 bits, 44100 Hz; the patterns are left
    alone. *)
Theorem read_samples_loads_the_mix_format (instruments_ : list (string * string))
    (samples_path : string) (self self' : Song) :
  read_samples audioop_ratecv audioop_tostereo audioop_mul wave_open path_join
    instruments_ samples_path self = (inl tt, self') ->
  (forall name file, (name, file) ∈ instruments_ ->
     is_Some (song_instruments self' !! name))
  /\ (forall name o, song_instruments self' !! name = Some o ->
        (exists file, (name, file) ∈ instruments_)
        /\ samplerate (value o) = 44100 /\ nchannels (value o) = 2
        /\ sampwidth (value o) = 4 /\ locked (value o) = true)
  /\ pattern_sequence self' = pattern_sequence self
  /\ song_patterns self' = song_patterns self.
Proof.
  unfold read_samples. intros H.
  apply read_samples_loop_inl in H as (Hseq & Hpat & Hall & Hfrom & _). simpl in *.
  split; [|split; [|split; [exact Hseq | exact Hpat]]].
  - intros name file Hin. apply (Hall name file).
    apply (proj2 (elem_of_sorted_items _ _)). exact Hin.
  - intros name o Ho. destruct (Hfrom name o Ho) as [Hold|(file & Hin & Hload & _)].
    + rewrite lookup_empty in Hold. discriminate.
    + apply (proj1 (elem_of_sorted_items _ _)) in Hin. split; [eauto|].
      apply load_instrument_header in Hload as [Hload _]. unfold header in Hload.
      injection Hload as Hr Hc Hw Hl _. repeat split; assumption.
Qed.

End Loaded.

Lemma load_instrument_format_witness :
  header (mkSample (Some [x00; x00; x01; x00; x00; x00; x02; x00]) 44100 2 4 true
                   (Some "kick.wav"))
  = (44100, 2, 4, true, Some "kick.wav")
  /\ exists w, @inl wave_read io_exn kick_wave = inl w
               /\ 2 <= getsampwidth w <= 4 /\ 1 <= getnchannels w <= 2.
Proof.
  apply (load_instrument_format
           (fun f _ _ _ _ => OK f) (fun f _ _ _ => OK f) (fun f _ _ => OK f)
           (fun _ => inl kick_wave) "kick.wav"); vm_compute; reflexivity.
Defined.

Lemma read_samples_loads_the_mix_format_witness :
  let self' :=
    mkSong {[ "kick" := mkObject 1 (mkSample (Some [x00; x00; x01; x00; x00; x00; x02; x00])
                                             44100 2 4 true (Some "samples/kick.wav")) ]}
           None None 128 4 [] ∅ in
  (forall name file, (name, file) ∈ [("kick", "kick.wav")] ->
     is_Some (song_instruments self' !! name))
  /\ (forall name o, song_instruments self' !! name = Some o ->
        (exists file, (name, file) ∈ [("kick", "kick.wav")])
        /\ samplerate (value o) = 44100 /\ nchannels (value o) = 2
        /\ sampwidth (value o) = 4 /\ locked (value o) = true)
  /\ pattern_sequence self' = pattern_sequence Song_new
  /\ song_patterns self' = song_patterns Song_new.
Proof.
  apply (read_samples_loads_the_mix_format
           (fun f _ _ _ _ => OK f) (fun f _ _ _ => OK f) (fun f _ _ => OK f)
           (fun _ => inl kick_wave) (fun a b => (a +:+ "/" +:+ b)%string)
           [("kick", "kick.wav")] "samples" Song_new).
  vm_compute. reflexivity.
Defined.

(** * Rounding *)

(** ** Powers of two *)

Lemma pow2_pos (e : Z) : (0 < pow2 e)%Q.
Proof. unfold pow2. apply Qpower_0_lt. reflexivity. Qed.

Lemma pow2_add (a b : Z) : (pow2 (a + b) == pow2 a * pow2 b)%Q.
Proof. unfold pow2. apply Qpower_plus. discriminate. Qed.

Lemma pow2_inject (e : Z) : 0 <= e -> (pow2 e == inject_Z (2 ^ e))%Q.
Proof. intros He. unfold pow2. rewrite Zpower_Qpower by exact He. reflexivity. Qed.

Lemma pow2_le (a b : Z) : a <= b -> (pow2 a <= pow2 b)%Q.
Proof. intros H. unfold pow2. apply Qpower_le_compat_l; [exact H | discriminate]. Qed.

Lemma pow2_lt (a b : Z) : a < b -> (pow2 a < pow2 b)%Q.
Proof. intros H. unfold pow2. apply Qpower_lt_compat_l; [exact H | reflexivity]. Qed.

Lemma pow2_lt_inv (a b : Z) : (pow2 a < pow2 b)%Q -> a < b.
Proof. intros H. unfold pow2 in H. apply (Qpower_lt_compat_l_inv 2); [exact H | reflexivity]. Qed.

Lemma pow2_0 : (pow2 0 == 1)%Q.
Proof. reflexivity. Qed.

Lemma pow2_sub (a b : Z) : (pow2 (a - b) * pow2 b == pow2 a)%Q.
Proof. rewrite <- pow2_add. replace (a - b + b) with a by lia. reflexivity. Qed.

(** ** The digits of a mantissa *)

Lemma digits2_pos_upper (p : positive) : Z.pos p < 2 ^ Z.pos (digits2_pos p).
Proof.
  induction p as [p IH|p IH|]; simpl digits2_pos.
  - rewrite Pos2Z.inj_succ, Z.pow_succ_r by lia. lia.
  - rewrite Pos2Z.inj_succ, Z.pow_succ_r by lia. lia.
  - simpl. lia.
Qed.

(** The number of digits is the [k] with [2^(k-1) <= p < 2^k]. *)
Lemma digits2_pos_unique (p : positive) (k : Z) :
  2 ^ (k - 1) <= Z.pos p < 2 ^ k -> Z.pos (digits2_pos p) = k.
Proof.
  intros [Hlo Hhi].
  pose proof (digits2_pos_lower p) as Hl. pose proof (digits2_pos_upper p) as Hu.
  set (d := Z.pos (digits2_pos p)) in *.
  assert (Hk : 0 < k).
  { destruct (Z.lt_ge_cases 0 k) as [|Hk]; [assumption|].
    destruct (Z.eq_dec k 0) as [->|]; [simpl in Hhi; lia|].
    rewrite Z.pow_neg_r in Hhi by lia. lia. }
  destruct (Z.lt_trichotomy d k) as [Hlt|[Heq|Hgt]]; [|exact Heq|].
  - assert (2 ^ d <= 2 ^ (k - 1)) by (apply Z.pow_le_mono_r; lia). lia.
  - assert (2 ^ k <= 2 ^ (d - 1)) by (apply Z.pow_le_mono_r; lia). lia.
Qed.

Lemma digits2_pos_le (p : positive) (k : Z) :
  Z.pos p < 2 ^ k -> Z.pos (digits2_pos p) <= k.
Proof.
  intros Hp. pose proof (digits2_pos_lower p) as Hl.
  destruct (Z.le_gt_cases (Z.pos (digits2_pos p)) k) as [|Hgt]; [assumption|].
  assert (0 <= k).
  { destruct (Z.lt_ge_cases k 0) as [Hk|]; [|assumption].
    rewrite Z.pow_neg_r in Hp by lia. lia. }
  assert (2 ^ k <= 2 ^ (Z.pos (digits2_pos p) - 1)) by (apply Z.pow_le_mono_r; lia).
  lia.
Qed.

(** ** Shifting a mantissa right *)

Lemma inject_Z_xO (p : positive) : (inject_Z (Z.pos p~0) == 2 * inject_Z (Z.pos p))%Q.
Proof. rewrite Pos2Z.inj_xO, inject_Z_mult. reflexivity. Qed.

Lemma inject_Z_xI (p : positive) : (inject_Z (Z.pos p~1) == 2 * inject_Z (Z.pos p) + 1)%Q.
Proof. rewrite Pos2Z.inj_xI, inject_Z_plus, inject_Z_mult. reflexivity. Qed.

(** One shift halves the number that the record locates. *)
Lemma shr_1_inb (mrs : shr_record) (t : Q) :
  0 <= shr_m mrs -> inb mrs t ->
  inb (shr_1 mrs) (t * (1 # 2)) /\ shr_m (shr_1 mrs) = shr_m mrs / 2.
Proof.
  destruct mrs as [m r s]. unfold inb. simpl shr_m. intros Hm H.
  destruct m as [|[p|p|]|p]; [| | | |lia].
  - split; [|reflexivity].
    destruct r, s; simpl in *; change (inject_Z 0) with 0%Q in *; lra.
  - split; [|simpl; apply Z.div_unique with 1; lia].
    pose proof (inject_Z_xI p) as Hp.
    destruct r, s; simpl in *; lra.
  - split; [|simpl; apply Z.div_unique with 0; lia].
    pose proof (inject_Z_xO p) as Hp.
    destruct r, s; simpl in *; lra.
  - split; [|reflexivity].
    destruct r, s; simpl in *; change (inject_Z 1) with 1%Q in *;
      change (inject_Z 0) with 0%Q in *; lra.
Qed.

Lemma iter_pos_invariant {A} (f : A -> A) (P : Z -> A -> Prop) :
  (forall k x, 0 <= k -> P k x -> P (k + 1) (f x)) ->
  forall p k x, 0 <= k -> P k x -> P (k + Z.pos p) (SpecFloat.iter_pos f p x).
Proof.
  intros Hf. induction p as [p IH|p IH|]; intros k x Hk HP; simpl.
  - replace (k + Z.pos p~1) with (k + 1 + Z.pos p + Z.pos p) by lia.
    apply IH; [lia|]. apply IH; [lia|]. apply Hf; assumption.
  - replace (k + Z.pos p~0) with (k + Z.pos p + Z.pos p) by lia.
    apply IH; [lia|]. apply IH; assumption.
  - apply Hf; assumption.
Qed.

Lemma iter_pos_shr_1_inb (p : positive) (mrs : shr_record) (t : Q) :
  0 <= shr_m mrs -> inb mrs t ->
  inb (SpecFloat.iter_pos shr_1 p mrs) (t * pow2 (- Z.pos p))
  /\ shr_m (SpecFloat.iter_pos shr_1 p mrs) = shr_m mrs / 2 ^ Z.pos p.
Proof.
  intros Hm H.
  pose (P := fun (k : Z) (x : shr_record) =>
               0 <= shr_m x /\ inb x (t * pow2 (- k)) /\ shr_m x = shr_m mrs / 2 ^ k).
  assert (HP : P (0 + Z.pos p) (SpecFloat.iter_pos shr_1 p mrs)).
  { apply (iter_pos_invariant shr_1 P).
    - intros k x Hk (Hx & Hin & Heq).
      destruct (shr_1_inb x _ Hx Hin) as [Hin' Heq'].
      split; [rewrite Heq'; apply Z.div_pos; lia|]. split.
      + assert (E : (t * pow2 (- (k + 1)) == t * pow2 (- k) * (1 # 2))%Q).
        { replace (- (k + 1)) with (- k + - 1) by lia. rewrite pow2_add.
          change (pow2 (-1)) with (1 # 2)%Q. ring. }
        unfold inb in *. destruct (shr_r (shr_1 x)), (shr_s (shr_1 x)); rewrite E; exact Hin'.
      + rewrite Heq', Heq, Z.pow_add_r, Z.div_div by lia. reflexivity.
    - lia.
    - split; [exact Hm|]. split.
      + assert (E : (t * pow2 (- 0) == t)%Q) by (change (pow2 (- 0)) with 1%Q; ring).
        unfold inb in *. destruct (shr_r mrs), (shr_s mrs); rewrite E; exact H.
      + rewrite Z.div_1_r. reflexivity. }
  destruct HP as (_ & Hin & Heq). simpl in Hin, Heq. split; assumption.
Qed.

(** ** Rounding to nearest *)

Lemma fexp_eq (e : Z) : fexp prec emax e = Z.max (e - 53) (-1074).
Proof. reflexivity. Qed.

Lemma Zdigits2_pos (p : positive) : Zdigits2 (Z.pos p) = Z.pos (digits2_pos p).
Proof. reflexivity. Qed.

(** The first shift of [binary_round_aux]. *)
Lemma shr_fexp_inb (m e : Z) (l : location) (t : Q) :
  0 < m -> inb (shr_record_of_loc m l) t ->
  let n := Z.max 0 (fexp prec emax (Zdigits2 m + e) - e) in
  exists mrs, shr_fexp prec emax m e l = (mrs, e + n)
    /\ inb mrs (t * pow2 (- n)) /\ shr_m mrs = m / 2 ^ n
    /\ (n = 0 -> mrs = shr_record_of_loc m l).
Proof.
  intros Hm Hin n. unfold shr_fexp, shr.
  assert (Hm0 : shr_m (shr_record_of_loc m l) = m) by (destruct l as [|[]]; reflexivity).
  subst n. destruct (fexp prec emax (Zdigits2 m + e) - e) as [|p|p] eqn:Hn.
  - exists (shr_record_of_loc m l). rewrite Z.add_0_r. simpl Z.max.
    split; [reflexivity|]. split; [|split; [rewrite Hm0, Z.div_1_r; reflexivity | reflexivity]].
    unfold inb in *. destruct (shr_r _), (shr_s _);
      change (pow2 (- 0)) with 1%Q; rewrite Qmult_1_r; exact Hin.
  - exists (SpecFloat.iter_pos shr_1 p (shr_record_of_loc m l)).
    replace (Z.max 0 (Z.pos p)) with (Z.pos p) by lia.
    split; [reflexivity|].
    destruct (iter_pos_shr_1_inb p (shr_record_of_loc m l) t) as [H1 H2];
      [rewrite Hm0; lia | exact Hin |].
    rewrite Hm0 in H2. split; [exact H1|]. split; [exact H2 | lia].
  - exists (shr_record_of_loc m l). replace (Z.max 0 (Z.neg p)) with 0 by lia.
    rewrite Z.add_0_r.
    split; [reflexivity|]. split; [|split; [rewrite Hm0, Z.div_1_r; reflexivity | reflexivity]].
    unfold inb in *. destruct (shr_r _), (shr_s _);
      change (pow2 (- 0)) with 1%Q; rewrite Qmult_1_r; exact Hin.
Qed.

(** Rounding the located number to the nearest mantissa, ties to even. *)
Lemma round_nearest_even_inb (mrs : shr_record) (t : Q) :
  inb mrs t ->
  let mr := round_nearest_even (shr_m mrs) (loc_of_shr_record mrs) in
  shr_m mrs <= mr <= shr_m mrs + 1
  /\ (inject_Z mr - (1 # 2) <= t <= inject_Z mr + (1 # 2))%Q
  /\ (inject_Z (shr_m mrs) <= t)%Q
  /\ (loc_of_shr_record mrs = loc_Exact -> mr = shr_m mrs /\ (t == inject_Z mr)%Q).
Proof.
  destruct mrs as [m r s]. unfold inb. simpl shr_m. simpl shr_r. simpl shr_s.
  intros H. cbv zeta.
  pose proof (inject_Z_plus m 1) as H1. change (inject_Z 1) with 1%Q in H1.
  destruct r, s; simpl loc_of_shr_record; simpl round_nearest_even;
    try destruct (Z.even m); rewrite ?H1; repeat split; try lia; try lra; try discriminate;
    try (intros _; lra).
Qed.

Lemma div_pow2_lt (m n k : Z) : 0 <= n -> 0 <= k -> m < 2 ^ (n + k) -> m / 2 ^ n < 2 ^ k.
Proof.
  intros Hn Hk Hm. apply Z.div_lt_upper_bound; [apply Z.pow_pos_nonneg; lia|].
  rewrite <- Z.pow_add_r by lia. exact Hm.
Qed.

Lemma div_pow2_le (m n k : Z) : 0 <= n -> 0 <= k -> 2 ^ (n + k) <= m -> 2 ^ k <= m / 2 ^ n.
Proof.
  intros Hn Hk Hm. apply Z.div_le_lower_bound; [apply Z.pow_pos_nonneg; lia|].
  rewrite <- Z.pow_add_r by lia. exact Hm.
Qed.

(** The second shift of [binary_round_aux]: only a mantissa of 54 bits,
    which is [2^53], is shifted. *)
Lemma shr_fexp_pack (s : bool) (mr e : Z) :
  0 <= mr <= 2 ^ 53 -> -1074 <= e ->
  (let '(mrs, e') := shr_fexp prec emax mr e loc_Exact in
   match shr_m mrs with
   | Z0 => S754_zero s
   | Z.pos m => if e' <=? emax - prec then S754_finite s m e' else S754_infinity s
   | Z.neg _ => S754_nan
   end) = pack s mr e.
Proof.
  intros Hmr He. unfold shr_fexp, shr. rewrite fexp_eq.
  destruct mr as [|p|p]; [| |lia].
  - simpl Zdigits2. replace (Z.max (0 + e - 53) (-1074) - e) with (Z.max (-53) (-1074 - e)) by lia.
    destruct (Z.max (-53) (-1074 - e)) eqn:Hn; try lia; reflexivity.
  - rewrite Zdigits2_pos. unfold pack.
    destruct (Z.eqb_spec (Z.pos p) (2 ^ 53)) as [Heq|Hne].
    + assert (Hd : Z.pos (digits2_pos p) = 54).
      { apply digits2_pos_unique. rewrite Heq. simpl. lia. }
      rewrite Hd. replace (Z.max (54 + e - 53) (-1074) - e) with 1 by lia.
      injection Heq as ->. reflexivity.
    + assert (Hd : Z.pos (digits2_pos p) <= 53) by (apply digits2_pos_le; lia).
      destruct (Z.max (Z.pos (digits2_pos p) + e - 53) (-1074) - e) eqn:Hn; try lia; reflexivity.
Qed.

(** [binary_round_aux] on the mantissa [m], located at [t] by [l], with the
    exponent [e]: the mantissa is shifted right by [n] bits, rounded to
    the nearest, and packed. *)
Lemma binary_round_aux_pack (s : bool) (m e : Z) (l : location) (t : Q) :
  0 < m -> inb (shr_record_of_loc m l) t ->
  let n := Z.max 0 (fexp prec emax (Zdigits2 m + e) - e) in
  exists mr : Z,
    binary_round_aux prec emax s m e l = pack s mr (e + n)
    /\ m / 2 ^ n <= mr <= m / 2 ^ n + 1
    /\ (inject_Z mr - (1 # 2) <= t * pow2 (- n) <= inject_Z mr + (1 # 2))%Q
    /\ (inject_Z (m / 2 ^ n) <= t * pow2 (- n))%Q
    /\ (l = loc_Exact -> n = 0 -> mr = m)
    /\ mr <= 2 ^ 53
    /\ -1074 <= e + n.
Proof.
  intros Hm Hin n.
  destruct (shr_fexp_inb m e l t Hm Hin) as (mrs & Hshr & Hin' & Hm1 & Hn0).
  fold n in Hshr, Hin', Hm1, Hn0.
  destruct (round_nearest_even_inb mrs _ Hin') as (Hmr & Hnear & Hfloor & Hexact).
  set (mr := round_nearest_even (shr_m mrs) (loc_of_shr_record mrs)) in *.
  assert (Hd : exists d, Zdigits2 m = d /\ m < 2 ^ d /\ 0 < d).
  { destruct m as [|p|p]; try lia. exists (Z.pos (digits2_pos p)).
    split; [reflexivity|]. split; [apply digits2_pos_upper | lia]. }
  destruct Hd as (d & Hd & Hup & Hd0).
  assert (Hnv : n = Z.max 0 (Z.max (d + e - 53) (-1074) - e)).
  { subst n. rewrite Hd, fexp_eq. reflexivity. }
  clearbody n.
  assert (Hn : 0 <= n) by lia.
  assert (Hlt : shr_m mrs < 2 ^ 53).
  { rewrite Hm1. apply div_pow2_lt; [exact Hn | lia |].
    eapply Z.lt_le_trans; [exact Hup|]. apply Z.pow_le_mono_r; lia. }
  assert (Hge : 0 <= shr_m mrs) by (rewrite Hm1; apply Z.div_pos; [lia | apply Z.pow_pos_nonneg; lia]).
  assert (He : -1074 <= e + n) by lia.
  exists mr. split.
  - unfold binary_round_aux. rewrite Hshr. fold mr.
    apply shr_fexp_pack; [lia | exact He].
  - rewrite <- Hm1. split; [exact Hmr|]. split; [exact Hnear|]. split; [exact Hfloor|].
    split; [|split; [lia | exact He]].
    intros -> Hz. specialize (Hn0 Hz). subst mrs. subst mr. reflexivity.
Qed.

(** ** The value of a rounded mantissa *)

Lemma pack_finite (s : bool) (mr e : Z) :
  0 < mr <= 2 ^ 53 -> (if mr =? 2 ^ 53 then e + 1 else e) <= 971 ->
  exists m' e', pack s mr e = S754_finite s m' e'
    /\ (inject_Z (Z.pos m') * pow2 e' == inject_Z mr * pow2 e)%Q.
Proof.
  intros Hmr He. unfold pack. destruct mr as [|p|p]; try lia.
  destruct (Z.eqb_spec (Z.pos p) (2 ^ 53)) as [Heq|Hne].
  - replace (e + 1 <=? 971) with true by (symmetry; apply Z.leb_le; lia).
    eexists. eexists. split; [reflexivity|].
    rewrite Heq, pow2_add. change (pow2 1) with 2%Q.
    change (inject_Z (2 ^ 53)) with (2 * inject_Z 4503599627370496)%Q. ring.
  - replace (e <=? 971) with true by (symmetry; apply Z.leb_le; lia).
    eexists. eexists. split; reflexivity.
Qed.

Lemma inject_Z_pow2 (k : Z) : 0 <= k -> (inject_Z (2 ^ k) == pow2 k)%Q.
Proof. intros Hk. symmetry. apply pow2_inject. exact Hk. Qed.

(** A rounded mantissa of at least 53 bits whose value is below [2^1024]
    does not overflow. *)
Lemma pack_no_overflow (mr e : Z) :
  2 ^ 52 <= mr <= 2 ^ 53 -> (inject_Z mr * pow2 e < pow2 1024)%Q ->
  (if mr =? 2 ^ 53 then e + 1 else e) <= 971.
Proof.
  intros Hmr Hv.
  destruct (Z.eqb_spec mr (2 ^ 53)) as [Heq|Hne].
  - rewrite Heq, inject_Z_pow2, <- pow2_add in Hv by lia.
    apply pow2_lt_inv in Hv. lia.
  - assert (H : (pow2 (52 + e) <= inject_Z mr * pow2 e)%Q).
    { rewrite pow2_add. apply Qmult_le_compat_r; [|apply Qlt_le_weak, pow2_pos].
      rewrite <- inject_Z_pow2 by lia. rewrite <- Zle_Qle. lia. }
    assert (H' : (pow2 (52 + e) < pow2 1024)%Q) by (eapply Qle_lt_trans; eassumption).
    apply pow2_lt_inv in H'. lia.
Qed.

Lemma pow2_half (e : Z) : (pow2 (e - 1) == pow2 e * (1 # 2))%Q.
Proof.
  replace (e - 1) with (e + -1) by lia. rewrite pow2_add. reflexivity.
Qed.

(** [binary_round_aux], by values: the result is the packed mantissa [mr]
    at the exponent [e1]; its value is within half a unit of [x]; it is
    [x] when the mantissa needs no rounding, and [x] up to [2^-53] when
    the mantissa has 53 bits and the result is not subnormal. *)
Lemma binary_round_aux_value (s : bool) (m e : Z) (l : location) (t x : Q) :
  0 < m -> inb (shr_record_of_loc m l) t -> (x == t * pow2 e)%Q ->
  exists mr e1,
    binary_round_aux prec emax s m e l = pack s mr e1
    /\ 0 <= mr <= 2 ^ 53 /\ -1074 <= e1 /\ e <= e1
    /\ e1 = e + Z.max 0 (fexp prec emax (Zdigits2 m + e) - e)
    /\ (inject_Z mr * pow2 e1 - pow2 (e1 - 1) <= x
        /\ x <= inject_Z mr * pow2 e1 + pow2 (e1 - 1))%Q
    /\ (l = loc_Exact -> Zdigits2 m <= 53 -> -1074 <= e -> mr = m /\ e1 = e)
    /\ (2 ^ 52 <= m -> -1074 <= Zdigits2 m + e - 53 ->
        2 ^ 52 <= mr /\ near x (inject_Z mr * pow2 e1)).
Proof.
  intros Hm Hin Hx.
  destruct (binary_round_aux_pack s m e l t Hm Hin) as (mr & Hr & Hmr & Hnear & Hfloor & Hexact & Hle & He1).
  set (n := Z.max 0 (fexp prec emax (Zdigits2 m + e) - e)) in *.
  assert (Hn : 0 <= n) by (subst n; lia).
  assert (Hdiv : 0 <= m / 2 ^ n) by (apply Z.div_pos; [lia | apply Z.pow_pos_nonneg; lia]).
  assert (Hxe : (x == t * pow2 (- n) * pow2 (e + n))%Q).
  { rewrite Hx. rewrite <- Qmult_assoc, <- pow2_add.
    replace (- n + (e + n)) with e by lia. reflexivity. }
  pose proof (pow2_pos (e + n)) as Hpos.
  assert (Hhalf : (inject_Z mr * pow2 (e + n) - pow2 (e + n - 1) <= x
                   /\ x <= inject_Z mr * pow2 (e + n) + pow2 (e + n - 1))%Q).
  { rewrite pow2_half, Hxe. destruct Hnear as [H1 H2].
    apply (Qmult_le_compat_r _ _ (pow2 (e + n))) in H1; [|lra].
    apply (Qmult_le_compat_r _ _ (pow2 (e + n))) in H2; [|lra].
    split; lra. }
  exists mr, (e + n). split; [exact Hr|]. split; [lia|]. split; [exact He1|].
  split; [lia|]. split; [reflexivity|]. split; [exact Hhalf|]. split.
  - intros Hl Hd He. assert (Hn0 : n = 0).
    { subst n. rewrite fexp_eq. lia. }
    split; [apply Hexact; assumption | lia].
  - intros Hm52 Hnorm.
    assert (Hd : exists d, Zdigits2 m = d /\ 2 ^ (d - 1) <= m /\ 53 <= d).
    { destruct m as [|p|p]; try lia. exists (Z.pos (digits2_pos p)).
      split; [reflexivity|]. split; [apply digits2_pos_lower|].
      pose proof (digits2_pos_upper p) as Hu.
      destruct (Z.le_gt_cases 53 (Z.pos (digits2_pos p))) as [|Hlt]; [assumption|].
      assert (2 ^ Z.pos (digits2_pos p) <= 2 ^ 52) by (apply Z.pow_le_mono_r; lia). lia. }
    destruct Hd as (d & Hd & Hlow & Hd53).
    assert (Hnv : n = d - 53) by (subst n; rewrite Hd, fexp_eq; lia).
    assert (Hfl : 2 ^ 52 <= m / 2 ^ n).
    { apply div_pow2_le; [lia | lia |]. replace (n + 52) with (d - 1) by lia. exact Hlow. }
    split; [lia|].
    assert (Hx52 : (pow2 52 * pow2 (e + n) <= x)%Q).
    { rewrite Hxe. apply Qmult_le_compat_r; [|lra].
      eapply Qle_trans; [|exact Hfloor]. rewrite <- inject_Z_pow2 by lia.
      rewrite <- Zle_Qle. exact Hfl. }
    assert (Hu : (pow2 (e + n - 1) == u53 * (pow2 52 * pow2 (e + n)))%Q).
    { rewrite pow2_half. change (pow2 52) with (4503599627370496 # 1)%Q. unfold u53. ring. }
    unfold near. rewrite Hu in Hhalf.
    assert (Hux : (u53 * (pow2 52 * pow2 (e + n)) <= u53 * x)%Q).
    { rewrite (Qmult_comm u53), (Qmult_comm u53 x).
      apply Qmult_le_compat_r; [exact Hx52 | discriminate]. }
    destruct Hhalf as [H1 H2]. split; lra.
Qed.

(** ** Floats as the machine has them *)

Lemma bounded_spec (m : positive) (e : Z) :
  bounded prec emax m e = true ->
  Z.pos (digits2_pos m) <= 53 /\ -1074 <= e <= 971
  /\ (Z.pos (digits2_pos m) = 53 \/ e = -1074).
Proof.
  unfold bounded, canonical_mantissa. rewrite fexp_eq. intros H.
  apply andb_prop in H as [H1 H2]. apply Z.eqb_eq in H1. apply Z.leb_le in H2.
  change (emax - prec) with 971 in H2. lia.
Qed.

Lemma Prim2SF_finite (x : float) (s : bool) (m : positive) (e : Z) :
  Prim2SF x = S754_finite s m e ->
  Z.pos (digits2_pos m) <= 53 /\ -1074 <= e <= 971
  /\ (Z.pos (digits2_pos m) = 53 \/ e = -1074).
Proof.
  intros H. pose proof (Prim2SF_valid x) as Hv. rewrite H in Hv. apply bounded_spec, Hv.
Qed.

Lemma near_refl (x y : Q) : (0 <= x)%Q -> (y == x)%Q -> near x y.
Proof. intros Hx Hy. unfold near, u53. split; lra. Qed.

Lemma near_scale (x y k : Q) : (0 <= k)%Q -> near x y -> near (x * k) (y * k).
Proof.
  intros Hk [H1 H2]. unfold near, u53 in *.
  apply (Qmult_le_compat_r _ _ k) in H1; [|exact Hk].
  apply (Qmult_le_compat_r _ _ k) in H2; [|exact Hk].
  split; lra.
Qed.

Lemma near_eq (x x' y y' : Q) : (x == x')%Q -> (y == y')%Q -> near x y -> near x' y'.
Proof. intros Hx Hy [H1 H2]. unfold near, u53 in *. split; lra. Qed.

Lemma near_pos (x y : Q) : (0 < x)%Q -> near x y -> (0 < y)%Q.
Proof. intros Hx [H1 _]. unfold u53 in H1. lra. Qed.

Lemma Pos_iter_xO (p k : positive) : Z.pos (Pos.iter xO p k) = Z.pos p * 2 ^ Z.pos k.
Proof.
  induction k as [|k IH] using Pos.peano_ind.
  - simpl. lia.
  - rewrite Pos.iter_succ, Pos2Z.inj_xO, IH, Pos2Z.inj_succ, Z.pow_succ_r by lia. lia.
Qed.

(** [shl_align] to a smaller exponent keeps the value. *)
Lemma shl_align_value (m : positive) (e e' : Z) :
  let '(mz, ez) := shl_align m e e' in
  ez = Z.min e e' /\ Z.pos mz = Z.pos m * 2 ^ (e - ez).
Proof.
  unfold shl_align. destruct (e' - e) as [|k|k] eqn:Hk.
  - split; [lia|]. replace (e - e) with 0 by lia. lia.
  - split; [lia|]. replace (e - e) with 0 by lia. lia.
  - split; [lia|]. rewrite Pos_iter_xO. f_equal. f_equal. lia.
Qed.

Lemma digits2_pos_shift (m : positive) (k : Z) (mz : positive) :
  0 <= k -> Z.pos mz = Z.pos m * 2 ^ k ->
  Z.pos (digits2_pos mz) = Z.pos (digits2_pos m) + k.
Proof.
  intros Hk Hmz. apply digits2_pos_unique. rewrite Hmz.
  pose proof (digits2_pos_lower m) as Hl. pose proof (digits2_pos_upper m) as Hu.
  assert (H2 : 0 < 2 ^ k) by (apply Z.pow_pos_nonneg; lia).
  replace (Z.pos (digits2_pos m) + k - 1) with (Z.pos (digits2_pos m) - 1 + k) by lia.
  rewrite !Z.pow_add_r by lia. split; nia.
Qed.

Lemma value_shift (m k e : Z) :
  0 <= k -> (inject_Z (m * 2 ^ k) * pow2 (e - k) == inject_Z m * pow2 e)%Q.
Proof.
  intros Hk. rewrite inject_Z_mult, inject_Z_pow2 by exact Hk.
  rewrite <- (pow2_sub e k). ring.
Qed.

Lemma pow2_1023_1024 (v x : Q) :
  (x <= pow2 1023)%Q -> near x v -> (v < pow2 1024)%Q.
Proof.
  intros Hx [_ H]. unfold u53 in H.
  change (pow2 1024) with (2 * pow2 1023)%Q.
  pose proof (pow2_pos 1023). lra.
Qed.

(** [binary_round] of a positive mantissa with an exponent that is not
    below the least one: the value up to [2^-53], and the value itself
    when the mantissa has no more than 53 bits. *)
Lemma binary_round_value (s : bool) (m : positive) (e : Z) (x : Q) :
  -1074 <= e -> (x == inject_Z (Z.pos m) * pow2 e)%Q -> (x <= pow2 1023)%Q ->
  exists m' e', binary_round prec emax s m e = S754_finite s m' e'
    /\ near x (inject_Z (Z.pos m') * pow2 e')
    /\ (Z.pos m < 2 ^ 53 -> (inject_Z (Z.pos m') * pow2 e' == x)%Q)
    /\ (-1021 <= e + Z.pos (digits2_pos m) -> 2 ^ 52 <= Z.pos m').
Proof.
  intros He Hx Hmax. unfold binary_round.
  pose proof (shl_align_value m e (fexp prec emax (Z.pos (digits2_pos m) + e))) as Hal.
  destruct (shl_align m e _) as [mz ez]. destruct Hal as [Hez Hmz].
  rewrite fexp_eq in Hez.
  set (d := Z.pos (digits2_pos m)) in *.
  assert (Hk : 0 <= e - ez) by lia.
  pose proof (digits2_pos_shift m (e - ez) mz Hk Hmz) as Hdz. fold d in Hdz.
  assert (Hxz : (x == inject_Z (Z.pos mz) * pow2 ez)%Q).
  { rewrite Hx, Hmz. replace ez with (e - (e - ez)) at 2 by lia.
    rewrite value_shift by exact Hk. reflexivity. }
  assert (Hx0 : (0 < x)%Q).
  { rewrite Hx. apply Qmult_lt_0_compat; [|apply pow2_pos].
    change 0%Q with (inject_Z 0). rewrite <- Zlt_Qlt. lia. }
  destruct (binary_round_aux_value s (Z.pos mz) ez loc_Exact (inject_Z (Z.pos mz)) x)
    as (mr & e1 & Hr & Hmr & He1 & Hee & He1v & Hhalf & Hexact & Hnormal);
    [lia | reflexivity | exact Hxz |].
  rewrite Hr. rewrite Zdigits2_pos in *.
  destruct (Z.le_gt_cases (Z.pos (digits2_pos mz)) 53) as [Hsmall|Hbig].
  - destruct (Hexact eq_refl Hsmall ltac:(lia)) as [-> ->].
    assert (Hfit : (if Z.pos mz =? 2 ^ 53 then ez + 1 else ez) <= 971).
    { pose proof (digits2_pos_upper mz) as Hup.
      assert (2 ^ Z.pos (digits2_pos mz) <= 2 ^ 53) by (apply Z.pow_le_mono_r; lia).
      destruct (Z.eqb_spec (Z.pos mz) (2 ^ 53)) as [|_]; [lia|].
      destruct (Z.le_gt_cases ez 971) as [|Hgt]; [assumption|].
      assert (Hd53 : Z.pos (digits2_pos mz) = 53) by lia.
      pose proof (digits2_pos_lower mz) as Hlow. rewrite Hd53 in Hlow.
      assert (H1 : (pow2 (52 + ez) <= x)%Q).
      { rewrite Hxz, pow2_add. apply Qmult_le_compat_r; [|apply Qlt_le_weak, pow2_pos].
        rewrite <- inject_Z_pow2 by lia. rewrite <- Zle_Qle. exact Hlow. }
      assert (H2 : (pow2 1023 < pow2 (52 + ez))%Q) by (apply pow2_lt; lia).
      lra. }
    destruct (pack_finite s (Z.pos mz) ez ltac:(lia) Hfit) as (m' & e' & Hp & Hv).
    exists m', e'. split; [exact Hp|].
    split; [apply near_refl; [lra | rewrite Hv, Hxz; reflexivity]|].
    split; [intros _; rewrite Hv, Hxz; reflexivity|].
    intros Hnorm. unfold pack in Hp.
    destruct (Z.eqb_spec (Z.pos mz) (2 ^ 53)) as [Heq|Hne].
    + destruct (ez + 1 <=? 971); inversion Hp. lia.
    + destruct (ez <=? 971); inversion Hp; subst.
      assert (Hd53 : Z.pos (digits2_pos m') = 53) by lia.
      pose proof (digits2_pos_lower m') as Hlow. rewrite Hd53 in Hlow. exact Hlow.
  - assert (Hm52 : 2 ^ 52 <= Z.pos mz).
    { pose proof (digits2_pos_lower mz) as Hlow.
      assert (2 ^ 52 <= 2 ^ (Z.pos (digits2_pos mz) - 1)) by (apply Z.pow_le_mono_r; lia).
      lia. }
    destruct (Hnormal Hm52 ltac:(lia)) as [Hmr52 Hnear].
    assert (Hfit : (if mr =? 2 ^ 53 then e1 + 1 else e1) <= 971).
    { apply pack_no_overflow; [lia|]. apply (pow2_1023_1024 _ x); assumption. }
    destruct (pack_finite s mr e1 ltac:(lia) Hfit) as (m' & e' & Hp & Hv).
    exists m', e'. split; [exact Hp|].
    split; [apply (near_eq x x (inject_Z mr * pow2 e1)); [reflexivity | symmetry; exact Hv | exact Hnear]|].
    split.
    + intros Hm53. exfalso.
      assert (Z.pos (digits2_pos mz) <= 53); [|lia].
      rewrite Hdz. assert (d <= 53) by (apply digits2_pos_le; exact Hm53). lia.
    + intros _. unfold pack in Hp. destruct mr as [|pr|pr]; try lia.
      destruct (Z.eqb_spec (Z.pos pr) (2 ^ 53)) as [Heq|Hne].
      * destruct (e1 + 1 <=? 971); inversion Hp. lia.
      * destruct (e1 <=? 971); inversion Hp; subst. exact Hmr52.
Qed.

Lemma value_finite (x : float) (s : bool) (m : positive) (e : Z) :
  Prim2SF x = S754_finite s m e ->
  F2Q x = if s then (- (inject_Z (Z.pos m) * pow2 e))%Q else (inject_Z (Z.pos m) * pow2 e)%Q.
Proof. intros H. unfold F2Q. rewrite H. reflexivity. Qed.

Lemma value_zero (x : float) (s : bool) : Prim2SF x = S754_zero s -> F2Q x = 0%Q.
Proof. intros H. unfold F2Q. rewrite H. reflexivity. Qed.

Lemma mantissa_pos (m : positive) (e : Z) : (0 < inject_Z (Z.pos m) * pow2 e)%Q.
Proof.
  apply Qmult_lt_0_compat; [|apply pow2_pos].
  change 0%Q with (inject_Z 0). rewrite <- Zlt_Qlt. lia.
Qed.

Lemma pos_or_zero_value (x : float) : pos_or_zero x -> (0 <= F2Q x)%Q.
Proof.
  intros [[s H]|(m & e & H)].
  - rewrite (value_zero _ _ H). lra.
  - rewrite (value_finite _ _ _ _ H). apply Qlt_le_weak, mantissa_pos.
Qed.

Lemma pos_or_zero_fin (x : float) : pos_or_zero x -> fin x.
Proof. unfold fin. intros [[s H]|(m & e & H)]; rewrite H; exact I. Qed.

(** ** Ints as floats *)

(** [float(n)] for a positive int below [2^63]: finite and positive, [n]
    up to [2^-53], and [n] itself below [2^53]. *)
Lemma float_of_int_value (n : Z) :
  0 < n < 2 ^ 63 ->
  exists f m e, float_of_int n = OK f /\ Prim2SF f = S754_finite false m e
    /\ near (inject_Z n) (F2Q f)
    /\ (n < 2 ^ 53 -> (F2Q f == inject_Z n)%Q)
    /\ 2 ^ 52 <= Z.pos m.
Proof.
  intros Hn. destruct n as [|p|p]; try lia.
  destruct (binary_round_value false p 0 (inject_Z (Z.pos p)))
    as (m & e & Hr & Hnear & Hexact & Hnormal).
  - lia.
  - change (pow2 0) with 1%Q. ring.
  - rewrite <- inject_Z_pow2 by lia. rewrite <- Zle_Qle.
    apply Z.le_trans with (2 ^ 63); [lia | apply Z.pow_le_mono_r; lia].
  - assert (Hsf : Prim2SF (of_uint63 (Uint63.of_Z (Z.pos p))) = S754_finite false m e).
    { assert (Hn' : 0 <= Z.pos p < 2 ^ 63) by lia.
      rewrite of_uint63_spec, Uint63.of_Z_spec, Z.mod_small by exact Hn'. exact Hr. }
    exists (of_uint63 (Uint63.of_Z (Z.pos p))), m, e.
    split.
    { rewrite float_of_int_prim by lia. cbv zeta.
      rewrite (is_infinity_finite _ _ _ _ Hsf). reflexivity. }
    split; [exact Hsf|]. rewrite (value_finite _ _ _ _ Hsf).
    split; [exact Hnear|]. split; [exact Hexact|].
    apply Hnormal. pose proof (Pos2Z.is_pos (digits2_pos p)). lia.
Qed.

(** ** Comparison with zero *)

Lemma ltb_0_value (x : float) : fin x -> (0 <? x)%float = true -> (0 < F2Q x)%Q.
Proof.
  unfold fin, F2Q. rewrite FloatAxioms.ltb_spec. change (Prim2SF 0) with (S754_zero false).
  destruct (Prim2SF x) as [s|s| |[] m e]; simpl; try contradiction; try discriminate.
  intros _ _. apply mantissa_pos.
Qed.

Lemma ltb_0_pos (x : float) : fin x -> (0 <? x)%float = true ->
  exists m e, Prim2SF x = S754_finite false m e.
Proof.
  unfold fin. rewrite FloatAxioms.ltb_spec. change (Prim2SF 0) with (S754_zero false).
  destruct (Prim2SF x) as [s|s| |[] m e]; simpl; try contradiction; try discriminate.
  intros _ _. eauto.
Qed.

Lemma ltb_value_0 (x : float) : fin x -> (x <? 0)%float = true -> (F2Q x < 0)%Q.
Proof.
  unfold fin, F2Q. rewrite FloatAxioms.ltb_spec. change (Prim2SF 0) with (S754_zero false).
  destruct (Prim2SF x) as [s|s| |[] m e]; simpl; try contradiction; try discriminate.
  intros _ _. pose proof (mantissa_pos m e). lra.
Qed.

Lemma not_ltb_value (x : float) :
  fin x -> (0 <? x)%float = false -> (x <? 0)%float = false -> (F2Q x == 0)%Q.
Proof.
  unfold fin, F2Q. rewrite !FloatAxioms.ltb_spec. change (Prim2SF 0) with (S754_zero false).
  destruct (Prim2SF x) as [s|s| |[] m e]; simpl; try contradiction; try discriminate;
    reflexivity.
Qed.

(** ** [int()] of a float *)

Lemma int_of_float_floor (x : float) :
  pos_or_zero x ->
  exists k, int_of_float x = OK k /\ 0 <= k
            /\ (inject_Z k <= F2Q x)%Q /\ (F2Q x < inject_Z k + 1)%Q.
Proof.
  intros [[s H]|(m & e & H)]; unfold int_of_float, F2Q; rewrite H.
  - exists 0. split; [reflexivity|]. split; [lia|].
    change (inject_Z 0) with 0%Q. simpl. split; lra.
  - exists (Z.shiftl (Z.pos m) e). split; [reflexivity|].
    pose proof (pow2_pos e) as Hpos. simpl SF2Q.
    destruct (Z.le_gt_cases 0 e) as [He|He].
    + rewrite Z.shiftl_mul_pow2 by exact He.
      assert (0 < 2 ^ e) by (apply Z.pow_pos_nonneg; lia).
      split; [nia|]. rewrite inject_Z_mult, inject_Z_pow2 by exact He. split; lra.
    + rewrite Z.shiftl_div_pow2 by lia.
      assert (Hp : 0 < 2 ^ (- e)) by (apply Z.pow_pos_nonneg; lia).
      set (k := Z.pos m / 2 ^ (- e)).
      assert (Hk : 0 <= k) by (apply Z.div_pos; lia).
      assert (Hlo : k * 2 ^ (- e) <= Z.pos m) by (rewrite Z.mul_comm; apply Z.mul_div_le; lia).
      assert (Hhi : Z.pos m < (k + 1) * 2 ^ (- e)).
      { rewrite Z.mul_comm. apply Z.mul_succ_div_gt. lia. }
      split; [exact Hk|].
      assert (E : (pow2 (- e) * pow2 e == 1)%Q).
      { rewrite <- pow2_add. replace (- e + e) with 0 by lia. reflexivity. }
      rewrite Zle_Qle in Hlo. rewrite Zlt_Qlt in Hhi.
      rewrite inject_Z_mult, inject_Z_pow2 in Hlo, Hhi by lia.
      rewrite inject_Z_plus in Hhi. change (inject_Z 1) with 1%Q in Hhi.
      apply (Qmult_le_compat_r _ _ (pow2 e)) in Hlo; [|lra].
      apply (proj2 (Qmult_lt_r _ _ (pow2 e) Hpos)) in Hhi.
      rewrite <- Qmult_assoc, E, Qmult_1_r in Hlo, Hhi.
      split; lra.
Qed.

(** ** Multiplication *)

Lemma inject_Z_lt_pow2 (m d : Z) : 0 <= d -> m < 2 ^ d -> (inject_Z m < pow2 d)%Q.
Proof. intros Hd H. rewrite <- inject_Z_pow2 by exact Hd. rewrite <- Zlt_Qlt. exact H. Qed.

Lemma inject_Z_ge_pow2 (m d : Z) : 0 <= d -> 2 ^ d <= m -> (pow2 d <= inject_Z m)%Q.
Proof. intros Hd H. rewrite <- inject_Z_pow2 by exact Hd. rewrite <- Zle_Qle. exact H. Qed.

(** The product of two positive floats, one of them normal: it is the
    product of the values up to [2^-53] and [2^-1075], and up to [2^-53]
    alone when it is no less than [2^-1022]. *)
Lemma mul_value (a b : float) (ma mb : positive) (ea eb : Z) :
  Prim2SF a = S754_finite false ma ea -> Prim2SF b = S754_finite false mb eb ->
  2 ^ 52 <= Z.pos ma \/ 2 ^ 52 <= Z.pos mb ->
  (F2Q a * F2Q b <= pow2 1023)%Q ->
  pos_or_zero (a * b)
  /\ (F2Q a * F2Q b - u53 * (F2Q a * F2Q b) - pow2 (-1075) <= F2Q (a * b)
      /\ F2Q (a * b) <= F2Q a * F2Q b + u53 * (F2Q a * F2Q b) + pow2 (-1075))%Q
  /\ ((pow2 (-1022) <= F2Q a * F2Q b)%Q ->
      near (F2Q a * F2Q b) (F2Q (a * b))
      /\ exists m e, Prim2SF (a * b) = S754_finite false m e).
Proof.
  intros Ha Hb Hnorm Hmax.
  rewrite (value_finite _ _ _ _ Ha), (value_finite _ _ _ _ Hb) in *.
  set (x := (inject_Z (Z.pos ma) * pow2 ea * (inject_Z (Z.pos mb) * pow2 eb))%Q) in *.
  assert (Hsf : Prim2SF (a * b) = binary_round_aux prec emax false (Z.pos (ma * mb)) (ea + eb) loc_Exact).
  { rewrite mul_spec, Ha, Hb. reflexivity. }
  unfold pos_or_zero, F2Q. rewrite Hsf. clear Hsf.
  assert (Hx : (x == inject_Z (Z.pos (ma * mb)) * pow2 (ea + eb))%Q).
  { subst x. rewrite Pos2Z.inj_mul, inject_Z_mult, pow2_add. ring. }
  assert (Hx0 : (0 < x)%Q) by (rewrite Hx; apply mantissa_pos).
  assert (Hm52 : 2 ^ 52 <= Z.pos (ma * mb)) by (rewrite Pos2Z.inj_mul; nia).
  destruct (binary_round_aux_value false (Z.pos (ma * mb)) (ea + eb) loc_Exact
              (inject_Z (Z.pos (ma * mb))) x)
    as (mr & e1 & Hr & Hmr & He1 & Hee & He1v & Hhalf & _ & Hnormal);
    [lia | reflexivity | exact Hx |].
  rewrite Hr. rewrite Zdigits2_pos, fexp_eq in *.
  set (m := (ma * mb)%positive) in *. set (e := ea + eb) in *.
  set (d := Z.pos (digits2_pos m)) in *.
  pose proof (pow2_pos (-1075)) as Heta.
  destruct (Z.le_gt_cases (-1074) (d + e - 53)) as [Hn|Hsub].
  - destruct (Hnormal Hm52 Hn) as [Hmr52 Hnear].
    assert (Hfit : (if mr =? 2 ^ 53 then e1 + 1 else e1) <= 971).
    { apply pack_no_overflow; [lia|]. apply (pow2_1023_1024 _ x); assumption. }
    destruct (pack_finite false mr e1 ltac:(lia) Hfit) as (m' & e' & Hp & Hv).
    rewrite Hp. simpl SF2Q. unfold near in Hnear. rewrite <- Hv in Hnear.
    split; [right; eauto|]. split; [destruct Hnear; split; lra|].
    intros _. split; [exact Hnear | eauto].
  - assert (Hd53 : 53 <= d).
    { pose proof (digits2_pos_upper m) as Hu. fold d in Hu.
      destruct (Z.le_gt_cases 53 d) as [|Hlt]; [assumption|].
      assert (2 ^ d <= 2 ^ 52) by (apply Z.pow_le_mono_r; lia). lia. }
    assert (He1' : e1 = -1074) by lia.
    assert (Hsmall : (x < pow2 (-1022))%Q).
    { rewrite Hx. apply Qlt_le_trans with (pow2 d * pow2 e)%Q.
      - apply Qmult_lt_r; [apply pow2_pos|]. apply inject_Z_lt_pow2; [lia|].
        apply digits2_pos_upper.
      - rewrite <- pow2_add. apply pow2_le. lia. }
    rewrite He1' in *. change (pow2 (-1074 - 1)) with (pow2 (-1075)) in Hhalf.
    assert (Hux : (0 <= u53 * x)%Q) by (unfold u53; lra).
    destruct mr as [|pr|pr]; [| |lia].
    + simpl pack. simpl SF2Q. change (inject_Z 0) with 0%Q in Hhalf.
      split; [left; exists false; reflexivity|]. split; [split; lra|]. intros Hge. lra.
    + assert (Hfit : (if Z.pos pr =? 2 ^ 53 then -1074 + 1 else -1074) <= 971)
        by (destruct (Z.pos pr =? 2 ^ 53); lia).
      destruct (pack_finite false (Z.pos pr) (-1074) ltac:(lia) Hfit) as (m' & e' & Hp & Hv).
      rewrite Hp. simpl SF2Q. rewrite <- Hv in Hhalf.
      split; [right; eauto|]. split; [split; lra|]. intros Hge. lra.
Qed.

(** ** Division *)

Lemma new_location_inb (a b q r : Z) (t : Q) :
  0 < b -> 0 <= a -> Z.div_eucl a b = (q, r) -> (t * inject_Z b == inject_Z a)%Q ->
  inb (shr_record_of_loc q (new_location b r)) t.
Proof.
  intros Hb Ha Hdiv Ht.
  pose proof (Z.div_eucl_eq a b ltac:(lia)) as Heq.
  pose proof (Z.mod_pos_bound a b Hb) as Hmod.
  unfold Z.modulo in Hmod. rewrite Hdiv in Heq, Hmod.
  assert (HB : (0 < inject_Z b)%Q) by (change 0%Q with (inject_Z 0); rewrite <- Zlt_Qlt; exact Hb).
  assert (HtB : (t * inject_Z b == inject_Z q * inject_Z b + inject_Z r)%Q).
  { rewrite Ht, Heq, inject_Z_plus, inject_Z_mult. ring. }
  assert (Hlt : forall c d : Q, (c * inject_Z b < d * inject_Z b)%Q -> (c < d)%Q).
  { intros c d H. exact (proj1 (Qmult_lt_r c d _ HB) H). }
  assert (Heqv : forall c d : Q, (c * inject_Z b == d * inject_Z b)%Q -> (c == d)%Q).
  { intros c d H. apply (Qmult_inj_r c d (inject_Z b)); [lra | exact H]. }
  assert (Hr0 : (0 <= inject_Z r)%Q) by (change 0%Q with (inject_Z 0); rewrite <- Zle_Qle; lia).
  assert (Hcmp : forall c, (2 * r ?= b) = c \/ (2 * r + 1 ?= b) = c -> True) by auto.
  unfold new_location.
  assert (Hexact : r = 0 -> inb (shr_record_of_loc q loc_Exact) t).
  { intros ->. unfold inb. simpl. apply Heqv. rewrite HtB. change (inject_Z 0) with 0%Q. ring. }
  assert (Hpos : r <> 0 -> (0 < inject_Z r)%Q).
  { intros Hr. change 0%Q with (inject_Z 0). rewrite <- Zlt_Qlt. lia. }
  assert (HLt : r <> 0 -> 2 * r < b -> inb (shr_record_of_loc q (loc_Inexact Lt)) t).
  { intros Hr H. specialize (Hpos Hr). rewrite Zlt_Qlt, inject_Z_mult in H.
    change (inject_Z 2) with 2%Q in H. unfold inb. simpl. split; apply Hlt; rewrite HtB; lra. }
  assert (HEq : 2 * r = b -> inb (shr_record_of_loc q (loc_Inexact Eq)) t).
  { intros H. assert (H' : (2 * inject_Z r == inject_Z b)%Q).
    { rewrite <- H, inject_Z_mult. reflexivity. }
    unfold inb. simpl. apply Heqv. rewrite HtB. lra. }
  assert (HGt : b < 2 * r -> inb (shr_record_of_loc q (loc_Inexact Gt)) t).
  { intros H. rewrite Zlt_Qlt, inject_Z_mult in H. change (inject_Z 2) with 2%Q in H.
    assert (H' : (inject_Z r < inject_Z b)%Q) by (rewrite <- Zlt_Qlt; lia).
    unfold inb. simpl. split; apply Hlt; rewrite HtB; lra. }
  destruct (Z.even b) eqn:Heven.
  - unfold new_location_even. destruct (Z.eqb_spec r 0) as [Hr|Hr]; [auto|].
    destruct (Z.compare_spec (2 * r) b); auto.
  - unfold new_location_odd. destruct (Z.eqb_spec r 0) as [Hr|Hr]; [auto|].
    assert (Hodd : Z.odd b = true) by (rewrite <- Z.negb_even, Heven; reflexivity).
    apply Z.odd_spec in Hodd as [k Hk].
    destruct (Z.compare_spec (2 * r + 1) b); [apply HLt | apply HLt | apply HGt]; lia.
Qed.

(** The quotient of two positive floats that is neither subnormal nor
    infinite: the quotient of the values up to [2^-53]. *)
Lemma div_value (a b : float) (ma mb : positive) (ea eb : Z) :
  Prim2SF a = S754_finite false ma ea -> Prim2SF b = S754_finite false mb eb ->
  (pow2 (-1020) * F2Q b <= F2Q a)%Q -> (F2Q a <= pow2 1023 * F2Q b)%Q ->
  (exists m e, Prim2SF (a / b) = S754_finite false m e)
  /\ near (F2Q a) (F2Q (a / b) * F2Q b).
Proof.
  intros Ha Hb Hlo Hhi.
  destruct (Prim2SF_finite _ _ _ _ Ha) as (Hda & Hea & _).
  destruct (Prim2SF_finite _ _ _ _ Hb) as (Hdb & Heb & _).
  rewrite (value_finite _ _ _ _ Ha), (value_finite _ _ _ _ Hb) in *.
  set (A := (inject_Z (Z.pos ma) * pow2 ea)%Q) in *.
  set (B := (inject_Z (Z.pos mb) * pow2 eb)%Q) in *.
  assert (HB : (0 < B)%Q) by apply mantissa_pos.
  assert (HA : (0 < A)%Q) by apply mantissa_pos.
  set (d1 := Z.pos (digits2_pos ma)) in *. set (d2 := Z.pos (digits2_pos mb)) in *.
  assert (Hd1 : 0 < d1) by (subst d1; lia). assert (Hd2 : 0 < d2) by (subst d2; lia).
  pose proof (digits2_pos_upper ma) as Hua. pose proof (digits2_pos_lower ma) as Hla.
  pose proof (digits2_pos_upper mb) as Hub. pose proof (digits2_pos_lower mb) as Hlb.
  fold d1 in Hua, Hla. fold d2 in Hub, Hlb.
  (* the exponents of a quotient that is not subnormal *)
  assert (Hexp : -1020 <= d1 + ea - (d2 + eb)).
  { assert (H1 : (A < pow2 (d1 + ea))%Q).
    { subst A. rewrite pow2_add. apply Qmult_lt_r; [apply pow2_pos|].
      apply inject_Z_lt_pow2; [lia | exact Hua]. }
    assert (H2 : (pow2 (d2 - 1 + eb) <= B)%Q).
    { subst B. rewrite pow2_add. apply Qmult_le_compat_r; [|apply Qlt_le_weak, pow2_pos].
      apply inject_Z_ge_pow2; [lia | exact Hlb]. }
    assert (H3 : (pow2 (-1020 + (d2 - 1 + eb)) < pow2 (d1 + ea))%Q).
    { rewrite pow2_add. pose proof (pow2_pos (-1020)) as Hp.
      apply (Qmult_le_l _ _ _ Hp) in H2. lra. }
    apply pow2_lt_inv in H3. lia. }
  set (e' := d1 + ea - (d2 + eb) - 53).
  set (s := 53 - d1 + d2).
  assert (Hs : 0 < s) by (subst s; lia).
  assert (Hcore : SFdiv_core_binary prec emax (Z.pos ma) ea (Z.pos mb) eb
                  = let '(q, r) := Z.div_eucl (Z.pos ma * 2 ^ s) (Z.pos mb) in
                    (q, e', new_location (Z.pos mb) r)).
  { unfold SFdiv_core_binary. rewrite !Zdigits2_pos, fexp_eq. fold d1 d2.
    replace (Z.min (Z.max (d1 + ea - (d2 + eb) - 53) (-1074)) (ea - eb)) with e' by (subst e'; lia).
    replace (ea - eb - e') with s by (subst s e'; lia).
    destruct s as [|ps|ps] eqn:Hsv; try lia.
    rewrite Z.shiftl_mul_pow2 by lia. reflexivity. }
  assert (Hsf : Prim2SF (a / b)
                = let '(mz, ez, lz) := SFdiv_core_binary prec emax (Z.pos ma) ea (Z.pos mb) eb in
                  binary_round_aux prec emax false mz ez lz).
  { rewrite div_spec, Ha, Hb. reflexivity. }
  rewrite Hcore in Hsf. unfold F2Q. rewrite Hsf. clear Hsf Hcore.
  destruct (Z.div_eucl (Z.pos ma * 2 ^ s) (Z.pos mb)) as [q r] eqn:Hdiv.
  assert (H2s : 0 < 2 ^ s) by (apply Z.pow_pos_nonneg; lia).
  set (t := (inject_Z (Z.pos ma * 2 ^ s) / inject_Z (Z.pos mb))%Q).
  assert (HmbQ : (0 < inject_Z (Z.pos mb))%Q).
  { change 0%Q with (inject_Z 0). rewrite <- Zlt_Qlt. lia. }
  assert (Ht : (t * inject_Z (Z.pos mb) == inject_Z (Z.pos ma * 2 ^ s))%Q).
  { subst t. field. lra. }
  pose proof (new_location_inb (Z.pos ma * 2 ^ s) (Z.pos mb) q r t ltac:(lia) ltac:(nia) Hdiv Ht) as Hin.
  (* the quotient has 53 or 54 bits *)
  pose proof (Z.div_eucl_eq (Z.pos ma * 2 ^ s) (Z.pos mb) ltac:(lia)) as Heq.
  pose proof (Z.mod_pos_bound (Z.pos ma * 2 ^ s) (Z.pos mb) ltac:(lia)) as Hmod.
  unfold Z.modulo in Hmod. rewrite Hdiv in Heq, Hmod.
  assert (Hq52 : 2 ^ 52 <= q).
  { assert (H1 : 2 ^ (52 + d2) <= Z.pos ma * 2 ^ s).
    { replace (52 + d2) with (d1 - 1 + s) by (subst s; lia).
      rewrite Z.pow_add_r by lia. nia. }
    rewrite Z.pow_add_r in H1 by lia.
    assert (H2 : 0 < 2 ^ 52) by (apply Z.pow_pos_nonneg; lia).
    assert (H3 : 2 ^ 52 * Z.pos mb < Z.pos mb * (q + 1)) by nia.
    nia. }
  assert (Hx : (A == t * pow2 e' * B)%Q).
  { subst A B t. rewrite inject_Z_mult, inject_Z_pow2 by lia.
    assert (E : (pow2 ea == pow2 s * pow2 e' * pow2 eb)%Q).
    { rewrite <- !pow2_add. replace (s + e' + eb) with ea by (subst s e'; lia). reflexivity. }
    rewrite E. field. lra. }
  destruct (binary_round_aux_value false q e' (new_location (Z.pos mb) r) t (t * pow2 e'))
    as (mr & e1 & Hr & Hmr & He1 & Hee & He1v & Hhalf & _ & Hnormal);
    [lia | exact Hin | reflexivity |].
  assert (Hdq : 53 <= Zdigits2 q).
  { destruct q as [|pq|pq]; try lia. rewrite Zdigits2_pos.
    pose proof (digits2_pos_upper pq) as Hu.
    destruct (Z.le_gt_cases 53 (Z.pos (digits2_pos pq))) as [|Hlt]; [assumption|].
    assert (2 ^ Z.pos (digits2_pos pq) <= 2 ^ 52) by (apply Z.pow_le_mono_r; lia). lia. }
  destruct (Hnormal Hq52 ltac:(subst e'; lia)) as [Hmr52 Hnear].
  assert (Hxmax : (t * pow2 e' <= pow2 1023)%Q).
  { apply (Qmult_le_r _ _ B HB). rewrite <- Hx. exact Hhi. }
  assert (Hfit : (if mr =? 2 ^ 53 then e1 + 1 else e1) <= 971).
  { apply pack_no_overflow; [lia|]. apply (pow2_1023_1024 _ (t * pow2 e')%Q); assumption. }
  destruct (pack_finite false mr e1 ltac:(lia) Hfit) as (m' & e'' & Hp & Hv).
  rewrite Hr, Hp. simpl SF2Q. split; [eauto|].
  apply (near_eq (t * pow2 e' * B) A (inject_Z mr * pow2 e1 * B)%Q).
  - symmetry. exact Hx.
  - rewrite Hv. reflexivity.
  - apply near_scale; [lra | exact Hnear].
Qed.

(** ** Subtraction *)

Lemma shl_align_fst (m : positive) (e ez : Z) :
  ez <= e ->
  (inject_Z (Z.pos (fst (shl_align m e ez))) * pow2 ez == inject_Z (Z.pos m) * pow2 e)%Q.
Proof.
  intros He. pose proof (shl_align_value m e ez) as H.
  destruct (shl_align m e ez) as [mz ez']. destruct H as [Hez Hmz]. simpl fst.
  replace ez' with ez in Hmz by lia. rewrite Hmz.
  replace ez with (e - (e - ez)) at 2 by lia. apply value_shift. lia.
Qed.

Lemma SF2Q_finite (s : bool) (m : positive) (e : Z) :
  (SF2Q (S754_finite s m e) == inject_Z (cond_Zopp s (Z.pos m)) * pow2 e)%Q.
Proof.
  destruct s; simpl; [|reflexivity].
  change (Z.neg m) with (- Z.pos m). rewrite inject_Z_opp. ring.
Qed.

(** The difference of two floats: the difference of the values up to
    [2^-53], with its sign, and zero only when the values are equal. *)
Lemma sub_value (a b : float) :
  fin a -> fin b ->
  (F2Q a - F2Q b <= pow2 1023)%Q -> (F2Q b - F2Q a <= pow2 1023)%Q ->
  fin (a - b)
  /\ ((0 < F2Q a - F2Q b)%Q -> near (F2Q a - F2Q b) (F2Q (a - b)))
  /\ ((F2Q a - F2Q b < 0)%Q -> near (F2Q b - F2Q a) (- F2Q (a - b)))
  /\ ((F2Q a - F2Q b == 0)%Q -> (F2Q (a - b) == 0)%Q).
Proof.
  unfold fin at 1 2. intros Ha Hb Hmax Hmin.
  assert (Hsf : Prim2SF (a - b) = SFsub prec emax (Prim2SF a) (Prim2SF b)) by apply sub_spec.
  assert (Hexact : (F2Q (a - b) == F2Q a - F2Q b)%Q -> fin (a - b) ->
    fin (a - b)
    /\ ((0 < F2Q a - F2Q b)%Q -> near (F2Q a - F2Q b) (F2Q (a - b)))
    /\ ((F2Q a - F2Q b < 0)%Q -> near (F2Q b - F2Q a) (- F2Q (a - b)))
    /\ ((F2Q a - F2Q b == 0)%Q -> (F2Q (a - b) == 0)%Q)).
  { intros Hv Hfin. split; [exact Hfin|]. split; [|split].
    - intros Hx. apply near_refl; lra.
    - intros Hx. apply near_refl; lra.
    - intros Hx. lra. }
  unfold F2Q in Hmax, Hmin.
  destruct (Prim2SF a) as [sa|sa| |sa ma ea] eqn:Hpa; try contradiction;
    destruct (Prim2SF b) as [sb|sb| |sb mb eb] eqn:Hpb; try contradiction.
  - apply Hexact; unfold fin, F2Q; rewrite Hsf, ?Hpa, ?Hpb;
      destruct sa, sb; simpl; try exact I; lra.
  - apply Hexact; unfold fin, F2Q; rewrite Hsf, ?Hpa, ?Hpb; [|exact I].
    destruct sb; simpl; lra.
  - apply Hexact; unfold fin, F2Q; rewrite Hsf, ?Hpa, ?Hpb; [|exact I].
    destruct sa; simpl; lra.
  - destruct (Prim2SF_finite _ _ _ _ Hpa) as (_ & Hea & _).
    destruct (Prim2SF_finite _ _ _ _ Hpb) as (_ & Heb & _).
    simpl SFsub in Hsf.
    set (ez := Z.min ea eb) in *.
    set (z := cond_Zopp sa (Z.pos (fst (shl_align ma ea ez)))
              - cond_Zopp sb (Z.pos (fst (shl_align mb eb ez)))) in *.
    assert (Hza : (SF2Q (S754_finite sa ma ea)
                   == inject_Z (cond_Zopp sa (Z.pos (fst (shl_align ma ea ez)))) * pow2 ez)%Q).
    { pose proof (shl_align_fst ma ea ez ltac:(subst ez; lia)) as H.
      destruct sa; simpl in *; [|lra].
      change (Z.neg (fst (shl_align ma ea ez))) with (- Z.pos (fst (shl_align ma ea ez))).
      rewrite inject_Z_opp. lra. }
    assert (Hzb : (SF2Q (S754_finite sb mb eb)
                   == inject_Z (cond_Zopp sb (Z.pos (fst (shl_align mb eb ez)))) * pow2 ez)%Q).
    { pose proof (shl_align_fst mb eb ez ltac:(subst ez; lia)) as H.
      destruct sb; simpl in *; [|lra].
      change (Z.neg (fst (shl_align mb eb ez))) with (- Z.pos (fst (shl_align mb eb ez))).
      rewrite inject_Z_opp. lra. }
    assert (Hx : (F2Q a - F2Q b == inject_Z z * pow2 ez)%Q).
    { unfold F2Q. rewrite Hpa, Hpb, Hza, Hzb. subst z.
      unfold Z.sub. rewrite inject_Z_plus, inject_Z_opp. ring. }
    clear Hza Hzb.
    clear Hexact.
    assert (Hva : F2Q a = SF2Q (S754_finite sa ma ea)) by (unfold F2Q; rewrite Hpa; reflexivity).
    assert (Hvb : F2Q b = SF2Q (S754_finite sb mb eb)) by (unfold F2Q; rewrite Hpb; reflexivity).
    rewrite <- Hva, <- Hvb in Hmax, Hmin.
    set (x := (F2Q a - F2Q b)%Q) in *.
    assert (Hxb : (F2Q b - F2Q a == - x)%Q) by (subst x; ring).
    assert (Hvc : F2Q (a - b) = SF2Q (binary_normalize prec emax z ez false))
      by (unfold F2Q; rewrite Hsf; reflexivity).
    unfold fin. rewrite !Hvc, Hsf. clearbody z. clear Hsf Hvc.
    destruct z as [|p|p]; simpl binary_normalize.
    + change (inject_Z 0) with 0%Q in Hx. simpl.
      split; [exact I|].
      split; [intros Hc; exfalso; lra|]. split; [intros Hc; exfalso; lra | intros _; reflexivity].
    + destruct (binary_round_value false p ez x) as (m' & e' & Hr & Hnear & _);
        [subst ez; lia | exact Hx | exact Hmax |].
      rewrite Hr. pose proof (mantissa_pos p ez) as Hp. simpl SF2Q.
      split; [exact I|]. split; [intros _; exact Hnear|].
      split; intros Hc; exfalso; lra.
    + assert (Hx' : (- x == inject_Z (Z.pos p) * pow2 ez)%Q).
      { rewrite Hx. change (Z.neg p) with (- Z.pos p). rewrite inject_Z_opp. ring. }
      destruct (binary_round_value true p ez (- x)%Q) as (m' & e' & Hr & Hnear & _);
        [subst ez; lia | exact Hx' | lra |].
      rewrite Hr. pose proof (mantissa_pos p ez) as Hp. simpl SF2Q.
      split; [exact I|]. split; [intros Hc; exfalso; lra|]. split; [|intros Hc; exfalso; lra].
      intros _. apply (near_eq (- x) _ (inject_Z (Z.pos m') * pow2 e')%Q _); try exact Hnear.
      * symmetry. exact Hxb.
      * ring.
Qed.

(** ** The duration of a buffer, and the frame index of a duration *)

Lemma scale_bounds (v y K : Q) :
  (0 <= v)%Q -> (1 <= y)%Q -> (y <= K)%Q -> (v <= v * y /\ v * y <= v * K)%Q.
Proof.
  intros Hv Hy HK.
  pose proof (Qmult_le_compat_r 1 y v Hy Hv) as H1.
  pose proof (Qmult_le_compat_r y K v HK Hv) as H2.
  split; lra.
Qed.

Lemma inject_Z_range (n : Z) :
  0 < n < 2 ^ 53 -> (1 <= inject_Z n)%Q /\ (inject_Z n <= 9007199254740992)%Q.
Proof.
  intros Hn. split.
  - change 1%Q with (inject_Z 1). rewrite <- Zle_Qle. lia.
  - change 9007199254740992%Q with (inject_Z (2 ^ 53)). rewrite <- Zle_Qle. lia.
Qed.

(** [2^-1020] times a number up to [2^53] is tiny, and [2^1023] times a
    number from 1 is huge. *)
Lemma tiny_times (w : Q) :
  (0 <= w)%Q -> (w <= 9007199254740992)%Q ->
  (pow2 (-1020) * w <= 1 # 1606938044258990275541962092341162602522202993782792835301376)%Q.
Proof.
  intros H0 Hw. apply Qle_trans with (pow2 (-1020) * pow2 53)%Q.
  - rewrite !(Qmult_comm (pow2 (-1020))). apply Qmult_le_compat_r; [exact Hw|].
    apply Qlt_le_weak, pow2_pos.
  - rewrite <- pow2_add. apply (pow2_le _ (-200)). lia.
Qed.

Lemma huge_times (w : Q) :
  (1 <= w)%Q -> (1606938044258990275541962092341162602522202993782792835301376 <= pow2 1023 * w)%Q.
Proof.
  intros Hw. apply Qle_trans with (pow2 1023 * 1)%Q.
  - rewrite Qmult_1_r. apply (pow2_le 200). lia.
  - rewrite !(Qmult_comm (pow2 1023)). apply Qmult_le_compat_r; [exact Hw|].
    apply Qlt_le_weak, pow2_pos.
Qed.

Lemma huge_1023 : (1606938044258990275541962092341162602522202993782792835301376 <= pow2 1023)%Q.
Proof. apply (pow2_le 200). lia. Qed.

Lemma tiny_1022 : (pow2 (-1022) <= 1 # 1606938044258990275541962092341162602522202993782792835301376)%Q.
Proof. apply (pow2_le _ (-200)). lia. Qed.

(** Division of a positive float by a positive int below [2^53]. *)
Lemma float_div_int_value (x : float) (n : Z) :
  0 < n < 2 ^ 53 -> (exists m e, Prim2SF x = S754_finite false m e) ->
  (1 # 1606938044258990275541962092341162602522202993782792835301376 <= F2Q x)%Q ->
  (F2Q x <= 1606938044258990275541962092341162602522202993782792835301376)%Q ->
  exists q, float_div_int x n = OK q
    /\ (exists m e, Prim2SF q = S754_finite false m e)
    /\ near (F2Q x) (F2Q q * inject_Z n).
Proof.
  intros Hn (m & e & Hx) Hlo Hhi.
  destruct (float_of_int_value n ltac:(lia)) as (f & mf & ef & Hf & Hsf & _ & Hexact & _).
  specialize (Hexact ltac:(lia)).
  destruct (inject_Z_range n Hn) as [Hn1 Hn2].
  unfold float_div_int, float_div. rewrite Hf. simpl rbind.
  rewrite (eqb_zero_finite _ _ _ _ Hsf).
  exists (x / f)%float. split; [reflexivity|].
  destruct (div_value x f m mf e ef Hx Hsf) as [Hfin Hnear].
  - rewrite Hexact. pose proof (tiny_times (inject_Z n) ltac:(lra) Hn2). lra.
  - rewrite Hexact. pose proof (huge_times (inject_Z n) Hn1). lra.
  - split; [exact Hfin|].
    eapply near_eq; [reflexivity | | exact Hnear]. rewrite Hexact. reflexivity.
Qed.

(** The duration of a buffer that is not empty: a positive float [d] with
    [d * rate * width * channels] the length up to three roundings. *)
Lemma duration_value (self : Sample) (frames_ : bytes) :
  frames self = Some frames_ -> 0 < len frames_ < 2 ^ 53 ->
  0 < samplerate self < 2 ^ 53 -> 0 < sampwidth self < 2 ^ 53 ->
  0 < nchannels self < 2 ^ 53 ->
  exists d z1 z2,
    duration self = OK d
    /\ (exists m e, Prim2SF d = S754_finite false m e)
    /\ near (inject_Z (len frames_)) z1 /\ near z1 z2
    /\ near z2 (F2Q d * inject_Z (nchannels self) * inject_Z (sampwidth self)
                * inject_Z (samplerate self))
    /\ (1 # 1606938044258990275541962092341162602522202993782792835301376 <= F2Q d)%Q
    /\ (F2Q d <= 1606938044258990275541962092341162602522202993782792835301376)%Q.
Proof.
  intros Hf Hlen Hr Hw Hc.
  set (L := len frames_) in *. set (r := samplerate self) in *.
  set (w := sampwidth self) in *. set (c := nchannels self) in *.
  destruct (inject_Z_range L Hlen) as [HL1 HL2].
  destruct (inject_Z_range r Hr) as [Hr1 Hr2].
  destruct (inject_Z_range w Hw) as [Hw1 Hw2].
  destruct (inject_Z_range c Hc) as [Hc1 Hc2].
  destruct (float_of_int_value L ltac:(lia)) as (fL & mL & eL & HfL & HsL & _ & HvL & _).
  destruct (float_of_int_value r ltac:(lia)) as (fr & mr & er & Hfr & Hsr & _ & Hvr & _).
  specialize (HvL ltac:(lia)). specialize (Hvr ltac:(lia)).
  (* a = len / rate *)
  destruct (div_value fL fr mL mr eL er HsL Hsr) as [(ma & ea & Hsa) Ha].
  { rewrite HvL, Hvr. pose proof (tiny_times (inject_Z r) ltac:(lra) Hr2). lra. }
  { rewrite HvL, Hvr. pose proof (huge_times (inject_Z r) Hr1). lra. }
  set (a := (fL / fr)%float) in *.
  assert (Ha' : near (inject_Z L) (F2Q a * inject_Z r)).
  { eapply near_eq; [exact HvL | | exact Ha]. rewrite Hvr. reflexivity. }
  clear Ha. rename Ha' into Ha.
  assert (Hva0 : (0 <= F2Q a)%Q) by (apply pos_or_zero_value; right; eauto).
  destruct (scale_bounds (F2Q a) (inject_Z r) 9007199254740992 Hva0 Hr1 Hr2) as [Ha1 Ha2].
  assert (Hva : (1 # 36028797018963968 <= F2Q a /\ F2Q a <= 18014398509481984)%Q).
  { destruct Ha as [Ha3 Ha4]. unfold u53 in *. split; lra. }
  (* b = a / width *)
  destruct (float_div_int_value a w Hw) as (b & Hb & (mb & eb & Hsb) & Hnb);
    [eauto | lra | lra |].
  assert (Hvb0 : (0 <= F2Q b)%Q) by (apply pos_or_zero_value; right; eauto).
  destruct (scale_bounds (F2Q b) (inject_Z w) 9007199254740992 Hvb0 Hw1 Hw2) as [Hb1 Hb2].
  assert (Hvb : (1 # 649037107316853453566312041152512 <= F2Q b
                 /\ F2Q b <= 36028797018963968)%Q).
  { destruct Hnb as [Hb3 Hb4]. unfold u53 in *. split; lra. }
  (* d = b / channels *)
  destruct (float_div_int_value b c Hc) as (d & Hd & (md & ed & Hsd) & Hnd);
    [eauto | lra | lra |].
  assert (Hvd0 : (0 <= F2Q d)%Q) by (apply pos_or_zero_value; right; eauto).
  destruct (scale_bounds (F2Q d) (inject_Z c) 9007199254740992 Hvd0 Hc1 Hc2) as [Hd1 Hd2].
  exists d, (F2Q a * inject_Z r)%Q, (F2Q b * inject_Z w * inject_Z r)%Q.
  split.
  { unfold duration, as_bytes. rewrite Hf. simpl rbind. fold L r w c.
    unfold int_truediv. replace (r =? 0) with false by (symmetry; apply Z.eqb_neq; lia).
    rewrite HfL, Hfr. simpl rbind. fold a. rewrite Hb. simpl rbind. exact Hd. }
  split; [eauto|]. split; [exact Ha|]. split.
  { apply near_scale; [lra | exact Hnb]. }
  split.
  { apply (near_eq (F2Q b * (inject_Z w * inject_Z r))
                   (F2Q b * inject_Z w * inject_Z r)
                   (F2Q d * inject_Z c * (inject_Z w * inject_Z r))%Q); try ring.
    apply near_scale; [|exact Hnd].
    apply Qmult_le_0_compat; lra. }
  destruct Hnd as [Hd3 Hd4]. unfold u53 in *. split; lra.
Qed.

(** The frame index of a time that is not negative: the number of frames
    [k] is the integer part of a float that is [rate * seconds] up to
    [2^-53] and [2^-1075]. *)
Lemma frame_idx_value (self : Sample) (x : float) :
  0 < samplerate self < 2 ^ 53 -> pos_or_zero x ->
  (F2Q x <= 1606938044258990275541962092341162602522202993782792835301376)%Q ->
  exists k (vp : Q),
    frame_idx self x = OK (nchannels self * sampwidth self * k) /\ 0 <= k
    /\ (inject_Z k <= vp)%Q /\ (vp < inject_Z k + 1)%Q
    /\ (inject_Z (samplerate self) * F2Q x
        - u53 * (inject_Z (samplerate self) * F2Q x) - pow2 (-1075) <= vp)%Q
    /\ (vp <= inject_Z (samplerate self) * F2Q x
              + u53 * (inject_Z (samplerate self) * F2Q x) + pow2 (-1075))%Q
    /\ ((pow2 (-1022) <= inject_Z (samplerate self) * F2Q x)%Q ->
        near (inject_Z (samplerate self) * F2Q x) vp).
Proof.
  intros Hr Hx Hmax. set (r := samplerate self) in *.
  destruct (inject_Z_range r Hr) as [Hr1 Hr2].
  destruct (float_of_int_value r ltac:(lia)) as (fr & mr & er & Hfr & Hsr & _ & Hvr & Hnorm).
  specialize (Hvr ltac:(lia)).
  pose proof (pow2_pos (-1075)) as Heta. pose proof (pow2_pos (-1022)) as Hmin.
  assert (Hframe : forall k, int_of_float (fr * x) = OK k ->
                     frame_idx self x = OK (nchannels self * sampwidth self * k)).
  { intros k Hk. unfold frame_idx, int_mul_float. fold r. rewrite Hfr. simpl rbind.
    rewrite Hk. reflexivity. }
  destruct Hx as [[s Hx]|(mx & ex & Hx)].
  - assert (Hp : Prim2SF (fr * x) = S754_zero s).
    { rewrite mul_spec, Hsr, Hx. reflexivity. }
    destruct (int_of_float_floor (fr * x)%float) as (k & Hk & Hk0 & Hlo & Hhi);
      [left; exists s; exact Hp|].
    rewrite (value_zero _ _ Hp) in Hlo, Hhi.
    exists k, 0%Q. rewrite (value_zero _ _ Hx).
    split; [apply Hframe, Hk|]. split; [exact Hk0|].
    split; [exact Hlo|]. split; [exact Hhi|]. unfold u53.
    split; [lra|]. split; [lra|]. intros Hc. exfalso. lra.
  - assert (Hx0 : (0 <= F2Q x)%Q) by (apply pos_or_zero_value; right; eauto).
    assert (Hprod : (F2Q fr * F2Q x <= pow2 1023)%Q).
    { rewrite Hvr. pose proof (Qmult_le_compat_r _ _ (F2Q x) Hr2 Hx0) as H.
      assert (H2 : (pow2 400 <= pow2 1023)%Q) by (apply pow2_le; lia).
      change (pow2 400) with
        (2582249878086908589655919172003011874329705792829223512830659356540647622016841194629645353280137831435903171972747493376 # 1)%Q in H2.
      lra. }
    destruct (mul_value fr x mr mx er ex Hsr Hx (or_introl Hnorm) Hprod) as (Hp & [Hb1 Hb2] & Hnear).
    destruct (int_of_float_floor (fr * x)%float Hp) as (k & Hk & Hk0 & Hlo & Hhi).
    exists k, (F2Q (fr * x)).
    split; [apply Hframe, Hk|]. split; [exact Hk0|].
    split; [exact Hlo|]. split; [exact Hhi|].
    assert (E : (F2Q fr * F2Q x == inject_Z r * F2Q x)%Q) by (rewrite Hvr; reflexivity).
    unfold u53 in *.
    split; [lra|]. split; [lra|].
    intros Hge. destruct Hnear as [Hn _]; [lra|].
    eapply near_eq; [exact E | reflexivity | exact Hn].
Qed.

(** ** frame_idx of the duration *)

Lemma pos_or_zero_0 : pos_or_zero 0%float.
Proof. left. exists false. reflexivity. Qed.

(** Four roundings of a number below [2^50] move it by less than one. *)
Lemma four_roundings (L W z1 z2 z3 z4 : Q) :
  (0 <= L)%Q -> (0 < W)%Q -> (L <= 1125899906842624 * W)%Q ->
  near L z1 -> near z1 z2 -> near z2 z3 -> near z3 z4 ->
  (L - W < z4 /\ z4 < L + W)%Q.
Proof.
  unfold near, u53. intros HL HW HLW [H1 H1'] [H2 H2'] [H3 H3'] [H4 H4']. split; lra.
Qed.

(** C6 as the code has it.  For a sample with a positive rate, sample
    width and number of channels, each below [2^53], and a buffer of fewer
    than [2^50] whole frames and fewer than [2^53] bytes,
    [frame_idx(duration)] is the length of the buffer or one frame less. *)
Theorem frame_idx_of_duration_within_one_frame (self : Sample) (frames_ : bytes)
    (nframes : Z) :
  frames self = Some frames_ ->
  0 < samplerate self < 2 ^ 53 -> 0 < sampwidth self < 2 ^ 53 ->
  0 < nchannels self < 2 ^ 53 ->
  len frames_ = nframes * (nchannels self * sampwidth self) ->
  nframes < 2 ^ 50 -> len frames_ < 2 ^ 53 ->
  exists d idx,
    duration self = OK d /\ frame_idx self d = OK idx
    /\ (idx = len frames_ \/ idx = len frames_ - nchannels self * sampwidth self).
Proof.
  intros Hf Hr Hw Hc Hlen Hn HL.
  pose proof (len_nonneg frames_) as HL0.
  set (r := samplerate self) in *. set (w := sampwidth self) in *.
  set (c := nchannels self) in *. set (L := len frames_) in *.
  destruct (inject_Z_range r Hr) as [Hr1 Hr2].
  destruct (inject_Z_range w Hw) as [Hw1 Hw2].
  destruct (inject_Z_range c Hc) as [Hc1 Hc2].
  pose proof (pow2_pos (-1075)) as Heta.
  assert (Heta1 : (pow2 (-1075) < 1)%Q) by (apply (pow2_lt _ 0); lia).
  destruct (Z.eq_dec L 0) as [HL00|HLpos].
  - (* the empty buffer *)
    destruct (duration_OK self frames_ Hf ltac:(fold L; lia) Hr Hw Hc) as (d & Hd & _ & Hd0).
    assert (Hnil : frames_ = []).
    { destruct frames_; [reflexivity|]. unfold L, len in HL00. simpl in HL00. lia. }
    specialize (Hd0 Hnil). subst d.
    destruct (frame_idx_value self 0%float Hr pos_or_zero_0) as (k & vp & Hk & Hk0 & Hlo & Hhi & _ & Hup & _).
    { change (F2Q 0) with 0%Q. lra. }
    change (F2Q 0) with 0%Q in Hup. unfold u53 in Hup.
    assert (Hk1 : (inject_Z k < inject_Z 1)%Q) by (change (inject_Z 1) with 1%Q; lra).
    rewrite <- Zlt_Qlt in Hk1.
    exists 0%float, (c * w * k). split; [exact Hd|]. split; [exact Hk|].
    left. replace k with 0 by lia. lia.
  - destruct (duration_value self frames_ Hf ltac:(fold L; lia) Hr Hw Hc)
      as (d & z1 & z2 & Hd & Hdfin & Hz1 & Hz2 & Hz3 & Hdlo & Hdhi).
    fold L r w c in Hz1, Hz3.
    assert (Hd0 : (0 <= F2Q d)%Q) by (apply pos_or_zero_value; right; exact Hdfin).
    destruct (frame_idx_value self d Hr (or_intror Hdfin) Hdhi)
      as (k & vp & Hk & Hk0 & Hlo & Hhi & _ & _ & Hnear).
    fold r in Hnear.
    assert (HX : (pow2 (-1022) <= inject_Z r * F2Q d)%Q).
    { destruct (scale_bounds (F2Q d) (inject_Z r) _ Hd0 Hr1 Hr2) as [H1 _].
      pose proof tiny_1022. lra. }
    specialize (Hnear HX).
    set (W := (inject_Z c * inject_Z w)%Q).
    assert (HW : (0 < W)%Q) by (subst W; apply Qmult_lt_0_compat; lra).
    assert (HN0 : 0 <= nframes) by nia.
    assert (HLW : (inject_Z L == inject_Z nframes * W)%Q).
    { subst W. rewrite Hlen, !inject_Z_mult. reflexivity. }
    assert (HNQ : (inject_Z nframes <= 1125899906842624)%Q).
    { change 1125899906842624%Q with (inject_Z (2 ^ 50)). rewrite <- Zle_Qle. lia. }
    assert (HL50 : (inject_Z L <= 1125899906842624 * W)%Q).
    { rewrite HLW. apply Qmult_le_compat_r; [exact HNQ | lra]. }
    assert (Hz4 : near (F2Q d * inject_Z c * inject_Z w * inject_Z r) (vp * W)).
    { apply (near_eq (inject_Z r * F2Q d * W) _ (vp * W) _); [subst W; ring | reflexivity |].
      apply near_scale; [lra | exact Hnear]. }
    clearbody W. clearbody L.
    assert (HLQ : (0 <= inject_Z L)%Q).
    { change 0%Q with (inject_Z 0). rewrite <- Zle_Qle. lia. }
    destruct (four_roundings (inject_Z L) W _ _ _ _ HLQ HW HL50 Hz1 Hz2 Hz3 Hz4)
      as [Hbelow Habove].
    assert (Hk_hi : (inject_Z k < inject_Z (nframes + 1))%Q).
    { rewrite inject_Z_plus. change (inject_Z 1) with 1%Q.
      apply Qle_lt_trans with vp; [exact Hlo|].
      apply (Qmult_lt_r _ _ W HW). lra. }
    assert (Hk_lo : (inject_Z (nframes - 1) < inject_Z (k + 1))%Q).
    { replace (nframes - 1) with (nframes + -1) by lia.
      rewrite !inject_Z_plus. change (inject_Z (-1)) with (-1)%Q.
      change (inject_Z 1) with 1%Q.
      apply Qlt_trans with vp; [|exact Hhi].
      apply (Qmult_lt_r _ _ W HW). lra. }
    rewrite <- Zlt_Qlt in Hk_hi, Hk_lo.
    exists d, (c * w * k). split; [exact Hd|]. split; [exact Hk|].
    destruct (Z.eq_dec k nframes) as [->|Hne]; [left; lia|].
    right. replace k with (nframes - 1) by lia. lia.
Qed.

Lemma frame_idx_of_duration_within_one_frame_witness :
  exists d idx,
    duration fifteen_frames = OK d /\ frame_idx fifteen_frames d = OK idx
    /\ (idx = len (zeros 60) \/ idx = len (zeros 60) - nchannels fifteen_frames * sampwidth fifteen_frames).
Proof.
  apply (frame_idx_of_duration_within_one_frame fifteen_frames (zeros 60) 15).
  - reflexivity.
  - simpl. lia.
  - simpl. lia.
  - simpl. lia.
  - reflexivity.
  - lia.
  - vm_compute. reflexivity.
Defined.

(** ** append with a negative duration *)

(** The only exception of [frame_idx] at a negative time is the
    [OverflowError] of [int()], where [rate * seconds] is [-inf]. *)
Lemma frame_idx_negative_Raise (self : Sample) (seconds : float) (e : exn) :
  0 < samplerate self < 2 ^ 63 -> (seconds <? 0)%float = true ->
  frame_idx self seconds = Raise e -> e = OverflowError.
Proof.
  intros Hr Hneg. unfold frame_idx, int_mul_float.
  destruct (float_of_int_value (samplerate self) Hr) as (fr & mr & er & Hfr & Hsr & _).
  rewrite Hfr. simpl rbind. unfold int_of_float. rewrite mul_spec, Hsr.
  destruct (ltb_zero_sign seconds Hneg) as (Hnan & Hsign & Hzero).
  destruct (Prim2SF seconds) as [s|s| |s m e'] eqn:Hs; simpl SFmul.
  - exfalso. exact (Hzero s eq_refl).
  - simpl. intros H. inversion H. reflexivity.
  - congruence.
  - intros H. simpl in H.
    match type of H with
    | context [binary_round_aux ?p ?x ?s' ?m' ?e'' ?l] =>
        pose proof (binary_round_aux_not_nan s' m' e'' l ltac:(lia)) as Hnn;
        destruct (binary_round_aux p x s' m' e'' l)
    end; simpl in H; inversion H; [reflexivity | congruence].
Qed.

(** C9 as the code has it.  [append] has no check of its argument.  On
    an unlocked sample of a positive rate, a negative [seconds] has a frame
    index that is not positive, and the call returns with the sample as it
    was: no byte is appended.  The only exception is [OverflowError], from
    [int()] when [rate * seconds] is [-inf] and from [b"\0" * n] when the
    frame index [n] is below [-2^63]; the sample is as it was then too. *)
Theorem append_negative_is_ignored (self : Sample) (frames_ : bytes) (seconds : float) :
  locked self = false -> frames self = Some frames_ ->
  0 < samplerate self < 2 ^ 63 -> 0 <= nchannels self -> 0 <= sampwidth self ->
  (seconds <? 0)%float = true ->
  match frame_idx self seconds with
  | OK idx =>
      idx <= 0
      /\ append seconds self
         = if idx <? - 2 ^ 63 then Raised OverflowError self else Returned tt self
  | Raise e => e = OverflowError /\ append seconds self = Raised OverflowError self
  end.
Proof.
  intros Hl Hf Hr Hc Hw Hneg.
  destruct (frame_idx self seconds) as [idx|e] eqn:Hidx.
  - assert (Hle : idx <= 0) by (apply (frame_idx_nonpos self seconds); assumption).
    split; [exact Hle|].
    destruct (Z.ltb_spec idx (- 2 ^ 63)) as [Hlt|Hge].
    + apply (append_OverflowError self seconds idx); assumption.
    + rewrite (append_Returned self frames_ seconds idx) by assumption.
      rewrite zeros_nonpos, app_nil_r by exact Hle.
      rewrite set_frames_same by exact Hf. reflexivity.
  - assert (He : e = OverflowError) by (apply (frame_idx_negative_Raise self seconds); assumption).
    subst e. split; [reflexivity|].
    apply append_frame_idx_Raise; assumption.
Qed.

Lemma append_negative_is_ignored_witness :
  (-176400 <= 0 /\ append (-1)%float Sample_new = Returned tt Sample_new)
  /\ (-17640000000000000000 <= 0
      /\ append (-1e14)%float Sample_new = Raised OverflowError Sample_new)
  /\ (OverflowError = OverflowError
      /\ append neg_infinity Sample_new = Raised OverflowError Sample_new).
Proof.
  assert (Hr : 0 < samplerate Sample_new < 2 ^ 63) by (simpl; unfold norm_samplerate; lia).
  assert (Hc : 0 <= nchannels Sample_new) by (simpl; unfold norm_nchannels; lia).
  assert (Hw : 0 <= sampwidth Sample_new) by (simpl; unfold norm_sampwidth; lia).
  split; [|split].
  - exact (append_negative_is_ignored Sample_new [] (-1)%float eq_refl eq_refl Hr Hc Hw eq_refl).
  - exact (append_negative_is_ignored Sample_new [] (-1e14)%float eq_refl eq_refl Hr Hc Hw eq_refl).
  - exact (append_negative_is_ignored Sample_new [] neg_infinity eq_refl eq_refl Hr Hc Hw eq_refl).
Defined.

(** ** The duration of the mix *)

(** The arithmetic of the end of [Mixer.mix], in frames: [L] bytes in the
    buffer, [vD] its duration, [vT] the total, [vM] what is missing, [vp]
    the product with the rate and [k] its integer part. *)
Lemma extend_bound (L z1 z2 vD vT vM vp k eta : Q) :
  (0 <= L)%Q -> (L <= 8796093022208)%Q ->
  near L z1 -> near z1 z2 -> near z2 (vD * 352800) ->
  (0 <= vT)%Q -> (vT < 16777216)%Q ->
  (0 < vT - vD)%Q -> near (vT - vD) vM ->
  (0 < eta)%Q -> (eta <= 1 # 1048576)%Q ->
  (44100 * vM - u53 * (44100 * vM) - eta <= vp)%Q ->
  (vp <= 44100 * vM + u53 * (44100 * vM) + eta)%Q ->
  (k <= vp)%Q -> (vp < k + 1)%Q ->
  (44100 * vT - 1 - (1 # 512) < L * (1 # 8) + k
   /\ L * (1 # 8) + k < 44100 * vT + (1 # 512))%Q.
Proof.
  unfold near, u53. intros HL0 HL [H1 H1'] [H2 H2'] [H3 H3'] HT0 HT Hpos [H4 H4'] He0 He Hp Hp' Hk Hk'.
  split; lra.
Qed.

Lemma cut_bound (L z1 z2 vD vT vp k eta : Q) :
  (0 <= L)%Q -> (L <= 8796093022208)%Q ->
  near L z1 -> near z1 z2 -> near z2 (vD * 352800) ->
  (0 <= vT)%Q -> (vT < 16777216)%Q ->
  (vT - vD < 0)%Q ->
  (0 < eta)%Q -> (eta <= 1 # 1048576)%Q ->
  (44100 * vT - u53 * (44100 * vT) - eta <= vp)%Q ->
  (vp <= 44100 * vT + u53 * (44100 * vT) + eta)%Q ->
  (k <= vp)%Q -> (vp < k + 1)%Q ->
  (44100 * vT - 1 - (1 # 512) < k /\ k < 44100 * vT + (1 # 512)
   /\ 44100 * vT - 1 - (1 # 512) < L * (1 # 8))%Q.
Proof.
  unfold near, u53. intros HL0 HL [H1 H1'] [H2 H2'] [H3 H3'] HT0 HT Hneg He0 He Hp Hp' Hk Hk'.
  repeat split; lra.
Qed.

Lemma same_bound (L z1 z2 vD vT : Q) :
  (0 <= L)%Q -> (L <= 8796093022208)%Q ->
  near L z1 -> near z1 z2 -> near z2 (vD * 352800) ->
  (vT - vD == 0)%Q ->
  (44100 * vT - 1 - (1 # 512) < L * (1 # 8) /\ L * (1 # 8) < 44100 * vT + (1 # 512))%Q.
Proof.
  unfold near, u53. intros HL0 HL [H1 H1'] [H2 H2'] [H3 H3'] Heq.
  split; lra.
Qed.

(** The duration of a buffer of [L] bytes in the format of the mix, times
    the rate, is its number of frames up to three roundings. *)
Lemma duration_bound (L z1 z2 vD : Q) :
  (0 <= L)%Q -> (L <= 35184372088832)%Q ->
  near L z1 -> near z1 z2 -> near z2 (vD * 352800) ->
  (L * (1 # 8) - (1 # 512) < 44100 * vD /\ 44100 * vD < L * (1 # 8) + (1 # 512))%Q.
Proof.
  unfold near, u53. intros HL0 HL [H1 H1'] [H2 H2'] [H3 H3']. split; lra.
Qed.

Lemma inject_Z_nonneg (n : Z) : 0 <= n -> (0 <= inject_Z n)%Q.
Proof. intros H. change 0%Q with (inject_Z 0). rewrite <- Zle_Qle. exact H. Qed.

Lemma fin_nonneg (x : float) : fin x -> (0 <= F2Q x)%Q -> pos_or_zero x.
Proof.
  unfold fin, F2Q, pos_or_zero.
  destruct (Prim2SF x) as [s|s| |[] m e]; try contradiction; intros _ H.
  - left. eauto.
  - exfalso. simpl in H. pose proof (mantissa_pos m e). lra.
  - right. eauto.
Qed.

(** The duration of a buffer in the format of the mix. *)
Lemma duration_working (s : Sample) (frames_ : bytes) :
  header s = working_header -> frames s = Some frames_ -> len frames_ < 2 ^ 53 ->
  exists d z1 z2,
    duration s = OK d /\ pos_or_zero d
    /\ near (inject_Z (len frames_)) z1 /\ near z1 z2 /\ near z2 (F2Q d * 352800)
    /\ (F2Q d <= 1606938044258990275541962092341162602522202993782792835301376)%Q.
Proof.
  intros Hh Hf HL. unfold header, working_header in Hh.
  injection Hh as Hr Hc Hw _ _.
  pose proof (len_nonneg frames_) as HL0.
  destruct (Z.eq_dec (len frames_) 0) as [Hz|Hnz].
  - destruct (duration_OK s frames_ Hf HL) as (d & Hd & _ & Hd0); [rewrite ?Hr, ?Hw, ?Hc; lia ..|].
    specialize (Hd0 (len_nil_inv _ Hz)). subst d.
    exists 0%float, 0%Q, 0%Q. rewrite Hz. change (inject_Z 0) with 0%Q.
    change (F2Q 0) with 0%Q.
    split; [exact Hd|]. split; [apply pos_or_zero_0|].
    repeat split; try (apply near_refl; lra); lra.
  - destruct (duration_value s frames_ Hf ltac:(lia)) as
      (d & z1 & z2 & Hd & Hfin & H1 & H2 & H3 & _ & Hhi); [rewrite ?Hr, ?Hw, ?Hc; lia ..|].
    exists d, z1, z2. split; [exact Hd|]. split; [right; exact Hfin|].
    split; [exact H1|]. split; [exact H2|]. split; [|exact Hhi].
    rewrite Hr, Hc, Hw in H3.
    eapply near_eq; [reflexivity | | exact H3].
    change (inject_Z 2) with 2%Q. change (inject_Z 4) with 4%Q.
    change (inject_Z 44100) with 44100%Q. ring.
Qed.

Lemma eta_small : (0 < pow2 (-1075))%Q /\ (pow2 (-1075) <= 1 # 1048576)%Q.
Proof. split; [apply pow2_pos | apply (pow2_le _ (-20)); lia]. Qed.

(** The frame index in the format of the mix. *)
Lemma frame_idx_working (s : Sample) (x : float) (n : Z) :
  header s = working_header -> pos_or_zero x ->
  (F2Q x <= 1606938044258990275541962092341162602522202993782792835301376)%Q ->
  frame_idx s x = OK n ->
  exists k (vp : Q), n = 8 * k /\ 0 <= k
    /\ (inject_Z k <= vp)%Q /\ (vp < inject_Z k + 1)%Q
    /\ (44100 * F2Q x - u53 * (44100 * F2Q x) - pow2 (-1075) <= vp)%Q
    /\ (vp <= 44100 * F2Q x + u53 * (44100 * F2Q x) + pow2 (-1075))%Q.
Proof.
  intros Hh Hx Hmax Hn. unfold header, working_header in Hh.
  injection Hh as Hr Hc Hw _ _.
  destruct (frame_idx_value s x ltac:(rewrite Hr; lia) Hx Hmax)
    as (k & vp & Hk & Hk0 & Hlo & Hhi & Hb1 & Hb2 & _).
  rewrite Hn, Hr, Hc, Hw in *. injection Hk as ->.
  change (inject_Z 44100) with 44100%Q in Hb1, Hb2.
  exists k, vp. repeat split; try assumption; lia.
Qed.

Section MixDuration.

Variable audioop_mul : bytes -> Z -> float -> result bytes.

(** The frames that [Mixer.mix] returns, against the total. *)
Lemma chop_or_extend_frames (total : float) (mixed result_ : Sample) (frames_ : bytes) :
  header mixed = working_header -> frames mixed = Some frames_ ->
  chop_or_extend total mixed = Returned tt result_ ->
  len frames_ < 2 ^ 43 -> fin total ->
  (0 <= F2Q total)%Q -> (F2Q total < 16777216)%Q ->
  exists result_frames,
    header result_ = working_header /\ frames result_ = Some result_frames
    /\ (44100 * F2Q total - 1 - (1 # 512) < inject_Z (len result_frames) * (1 # 8))%Q
    /\ (inject_Z (len result_frames) * (1 # 8) < 44100 * F2Q total + (1 # 512))%Q.
Proof.
  intros Hh Hf Hend HL Hfin HT0 HT.
  pose proof (len_nonneg frames_) as HL0.
  assert (HLQ0 : (0 <= inject_Z (len frames_))%Q) by (apply inject_Z_nonneg, HL0).
  assert (HLQ : (inject_Z (len frames_) <= 8796093022208)%Q).
  { change 8796093022208%Q with (inject_Z (2 ^ 43)). rewrite <- Zle_Qle. lia. }
  destruct (duration_working mixed frames_ Hh Hf ltac:(lia))
    as (d & z1 & z2 & Hd & Hdpos & H1 & H2 & H3 & Hdmax).
  destruct (chop_or_extend_Returned total mixed result_ frames_ Hh Hf Hend) as (d' & Hd' & Hcases).
  rewrite Hd in Hd'. injection Hd' as <-.
  pose proof (pos_or_zero_value d Hdpos) as Hd0.
  pose proof huge_1023 as Hhuge.
  destruct (sub_value total d Hfin (pos_or_zero_fin d Hdpos)) as (Hmfin & Hpos & Hneg & Hzero);
    [lra | lra |].
  set (missing := (total - d)%float) in *.
  destruct eta_small as [He0 He].
  assert (Hheader : forall f, header (set_frames f mixed) = working_header).
  { intros f. destruct mixed; exact Hh. }
  assert (Htotal_pos : pos_or_zero total) by (apply fin_nonneg; assumption).
  destruct (0 <? missing)%float eqn:Hlt.
  - (* the buffer is extended *)
    destruct Hcases as (n & Hn & Hn0 & ->).
    pose proof (ltb_0_value missing Hmfin Hlt) as HM.
    assert (Hgt : (0 < F2Q total - F2Q d)%Q).
    { destruct (Qlt_le_dec 0 (F2Q total - F2Q d)) as [|Hle]; [assumption|].
      exfalso. destruct (Qle_lt_or_eq _ _ Hle) as [Hl|He'].
      - destruct (Hneg Hl) as [Hn1 _]. unfold u53 in Hn1. lra.
      - specialize (Hzero He'). lra. }
    specialize (Hpos Hgt).
    assert (HMmax : (F2Q missing
                     <= 1606938044258990275541962092341162602522202993782792835301376)%Q).
    { destruct Hpos as [_ Hp2]. unfold u53 in Hp2. lra. }
    destruct (ltb_0_pos missing Hmfin Hlt) as (mm & em & Hmm).
    destruct (frame_idx_working mixed missing n Hh (or_intror (ex_intro _ mm (ex_intro _ em Hmm)))
                HMmax Hn) as (k & vp & -> & Hk0 & Hlo & Hhi & Hb1 & Hb2).
    exists (frames_ ++ zeros (8 * k)). split; [apply Hheader|].
    split; [destruct mixed; reflexivity|].
    rewrite len_app, len_zeros. replace (Z.max (8 * k) 0) with (8 * k) by lia.
    rewrite inject_Z_plus, inject_Z_mult. change (inject_Z 8) with 8%Q.
    destruct (extend_bound (inject_Z (len frames_)) z1 z2 (F2Q d) (F2Q total)
                (F2Q missing) vp (inject_Z k) (pow2 (-1075))) as [Hr1 Hr2]; try assumption.
    split; lra.
  - destruct (missing <? 0)%float eqn:Hlt'.
    + (* the buffer is cut *)
      destruct Hcases as (n & Hn & Hn0 & ->).
      pose proof (ltb_value_0 missing Hmfin Hlt') as HM.
      assert (Hless : (F2Q total - F2Q d < 0)%Q).
      { destruct (Qlt_le_dec (F2Q total - F2Q d) 0) as [|Hle]; [assumption|].
        exfalso. destruct (Qle_lt_or_eq _ _ Hle) as [Hl|He'].
        - destruct (Hpos Hl) as [Hn1 _]. unfold u53 in Hn1. lra.
        - specialize (Hzero (Qeq_sym _ _ He')). lra. }
      destruct (frame_idx_working mixed total n Hh Htotal_pos ltac:(lra) Hn)
        as (k & vp & -> & Hk0 & Hlo & Hhi & Hb1 & Hb2).
      exists (take (Z.to_nat (8 * k)) frames_). split; [apply Hheader|].
      split; [destruct mixed; reflexivity|].
      destruct (cut_bound (inject_Z (len frames_)) z1 z2 (F2Q d) (F2Q total)
                  vp (inject_Z k) (pow2 (-1075))) as (Hr1 & Hr2 & Hr3); try assumption.
      assert (Hlen : len (take (Z.to_nat (8 * k)) frames_) = Z.min (8 * k) (len frames_)).
      { unfold len. rewrite length_take. lia. }
      rewrite Hlen.
      destruct (Z.le_gt_cases (8 * k) (len frames_)) as [Hle|Hgt'].
      * rewrite Z.min_l by exact Hle. rewrite inject_Z_mult. change (inject_Z 8) with 8%Q.
        split; lra.
      * rewrite Z.min_r by lia.
        assert (Hq : (inject_Z (len frames_) < inject_Z (8 * k))%Q) by (rewrite <- Zlt_Qlt; lia).
        rewrite inject_Z_mult in Hq. change (inject_Z 8) with 8%Q in Hq.
        split; lra.
    + (* the buffer is left *)
      subst result_.
      pose proof (not_ltb_value missing Hmfin Hlt Hlt') as HM.
      assert (Heq : (F2Q total - F2Q d == 0)%Q).
      { destruct (Qlt_le_dec 0 (F2Q total - F2Q d)) as [Hl|Hle].
        - exfalso. destruct (Hpos Hl) as [Hn1 _]. unfold u53 in Hn1. lra.
        - destruct (Qle_lt_or_eq _ _ Hle) as [Hl|He']; [|exact He'].
          exfalso. destruct (Hneg Hl) as [Hn1 _]. unfold u53 in Hn1. lra. }
      exists frames_. split; [exact Hh|]. split; [exact Hf|].
      destruct (same_bound (inject_Z (len frames_)) z1 z2 (F2Q d) (F2Q total))
        as [Hr1 Hr2]; try assumption.
      split; assumption.
Qed.

(** C1 as the code has it.  [Mixer.mix] changes the buffer by whole
    frames, so the duration it returns is not the total.  Whenever it
    returns for a list of patterns that is not empty, with a total that is
    finite, not negative and below [2^24] seconds, and a buffer after the
    loop below [2^43] bytes: the result is an unlocked 32 bit stereo sample
    at 44100 Hz; counted in frames, of 1/44100 s, its buffer is less than
    [1 + 1/512] shorter and less than [1/512] longer than the total, and
    its [duration] less than [1 + 1/256] shorter and less than [1/256]
    longer. *)
Theorem Mixer_mix_chops_or_extends (m : Mixer) (verbose : bool) (total : float)
    (mixed result_ : Sample) (frames_ : bytes) :
  patterns m <> [] ->
  total_seconds (bpm m) (ticks m) (patterns m) 0%float = OK total ->
  mix_all audioop_mul m verbose total Sample_new = Returned tt mixed ->
  frames mixed = Some frames_ ->
  Mixer_mix audioop_mul m verbose = OK result_ ->
  len frames_ < 2 ^ 43 -> fin total ->
  (0 <= F2Q total)%Q -> (F2Q total < 16777216)%Q ->
  exists result_frames d,
    header result_ = (44100, 2, 4, false, None)
    /\ frames result_ = Some result_frames
    /\ (44100 * F2Q total - 1 - (1 # 512) < inject_Z (len result_frames) * (1 # 8))%Q
    /\ (inject_Z (len result_frames) * (1 # 8) < 44100 * F2Q total + (1 # 512))%Q
    /\ duration result_ = OK d
    /\ (44100 * F2Q total - 1 - (1 # 256) < 44100 * F2Q d)%Q
    /\ (44100 * F2Q d < 44100 * F2Q total + (1 # 256))%Q.
Proof.
  intros Hne Htotal Hall Hf Hmix HL Hfin HT0 HT.
  destruct (Mixer_mix_OK audioop_mul m verbose result_ Hne Hmix)
    as (total' & mixed' & Htotal' & Hall' & Hend).
  rewrite Htotal in Htotal'. injection Htotal' as <-.
  rewrite Hall in Hall'. injection Hall' as <-.
  destruct (mix_all_header audioop_mul _ _ _ _ Hall) as [Hh _].
  destruct (chop_or_extend_frames total mixed result_ frames_ Hh Hf Hend HL Hfin HT0 HT)
    as (rf & Hrh & Hrf & Hlo & Hhi).
  pose proof (len_nonneg rf) as Hrf0.
  assert (HrfQ : (inject_Z (len rf) <= 35184372088832)%Q) by lra.
  assert (Hrf53 : len rf < 2 ^ 53).
  { assert (H : (inject_Z (len rf) < inject_Z (2 ^ 53))%Q).
    { change (inject_Z (2 ^ 53)) with 9007199254740992%Q. lra. }
    rewrite <- Zlt_Qlt in H. exact H. }
  destruct (duration_working result_ rf Hrh Hrf Hrf53)
    as (d & z1 & z2 & Hd & _ & H1 & H2 & H3 & _).
  destruct (duration_bound (inject_Z (len rf)) z1 z2 (F2Q d)
              (inject_Z_nonneg _ Hrf0) HrfQ H1 H2 H3) as [Hd1 Hd2].
  exists rf, d. split; [exact Hrh|]. split; [exact Hrf|].
  split; [exact Hlo|]. split; [exact Hhi|]. split; [exact Hd|]. split; lra.
Qed.

End MixDuration.

Lemma Mixer_mix_chops_or_extends_witness :
  exists result_frames d,
    header one_bar_result = (44100, 2, 4, false, None)
    /\ frames one_bar_result = Some result_frames
    /\ (44100 * F2Q 0.46875 - 1 - (1 # 512) < inject_Z (len result_frames) * (1 # 8))%Q
    /\ (inject_Z (len result_frames) * (1 # 8) < 44100 * F2Q 0.46875 + (1 # 512))%Q
    /\ duration one_bar_result = OK d
    /\ (44100 * F2Q 0.46875 - 1 - (1 # 256) < 44100 * F2Q d)%Q
    /\ (44100 * F2Q d < 44100 * F2Q 0.46875 + (1 # 256))%Q.
Proof.
  apply (Mixer_mix_chops_or_extends mul_raises one_bar true 0.46875%float one_bar_mixed
           one_bar_result [x01; x00; x00; x00; x01; x00; x00; x00]).
  - discriminate.
  - reflexivity.
  - vm_compute. reflexivity.
  - reflexivity.
  - exact one_bar_mix.
  - vm_compute. reflexivity.
  - exact I.
  - vm_compute. discriminate.
  - vm_compute. reflexivity.
Defined.

(** The frame that can be missing is missing here: the bar lasts seven
    frames up to [2^-40]; the loop leaves the five frames of the
    instrument, what is missing is a little less than two frames, and
    [Mixer.mix] returns six frames. *)
Example Mixer_mix_one_frame_short :
  exists total,
    total_seconds (bpm fast_bar) (ticks fast_bar) (patterns fast_bar) 0%float = OK total
    /\ (7 - (1 # 1099511627776) < 44100 * F2Q total)%Q
    /\ Mixer_mix mul_raises fast_bar true
       = OK (mkSample (Some (zeros 48)) 44100 2 4 false None).
Proof.
  eexists. split; [vm_compute; reflexivity|]. split; vm_compute; reflexivity.
Qed.

